(** * Archive-ingestion cloud function: model and verification

    Shallow embedding of [functions/main.py] (the storage-triggered
    [extract_zip] handler) and proofs of its specified properties.

    The handler talks to three collaborators: the storage bucket of the
    triggering event, the local scratch directory with the zip decoder, and
    the Firestore document store.  The bucket and the document store are
    finite maps inside an explicit [world]; the handler is a computation in a
    small state-and-exception monad over that world.  Every call on a
    collaborator can raise; what a call answers, where the handler cannot
    know it, is a parameter of the run. *)

From Stdlib Require Import Ascii String.
From stdpp Require Import gmap strings list fin_maps sorting.

Open Scope string_scope.

(** ** Python string operations used by the handler

    Object names are modelled as their UTF-8 bytes.  The byte [/] and the
    bytes of [user/], [uploads] and [.zip] occur only as those ASCII
    characters, so splitting and the prefix and suffix tests agree with
    Python's on the decoded text. *)

Module PyStr.

(** [s[n:]] *)
Fixpoint slice_from (n : nat) (s : string) : string :=
  match n, s with
  | O, _ => s
  | S _, EmptyString => EmptyString
  | S m, String _ s' => slice_from m s'
  end.

(** [s[:n]] *)
Fixpoint slice_to (n : nat) (s : string) : string :=
  match n, s with
  | O, _ => EmptyString
  | S _, EmptyString => EmptyString
  | S m, String c s' => String c (slice_to m s')
  end.

(** [s.startswith(p)] *)
Fixpoint startswith (p s : string) : bool :=
  match p, s with
  | EmptyString, _ => true
  | String _ _, EmptyString => false
  | String a p', String b s' => Ascii.eqb a b && startswith p' s'
  end.

(** [s.endswith(suf)]: the last [len(suf)] characters of [s] are [suf]. *)
Definition endswith (suf s : string) : bool :=
  (String.length suf <=? String.length s)%nat
  && String.eqb (slice_from (String.length s - String.length suf) s) suf.

Definition is_upper (c : ascii) : bool :=
  (65 <=? nat_of_ascii c)%nat && (nat_of_ascii c <=? 90)%nat.

Definition lower_char (c : ascii) : ascii :=
  if is_upper c then ascii_of_nat (nat_of_ascii c + 32) else c.

(** [s.lower()]: only [A-Z] are changed.  No other character lowers to
    [z], [i] or [p], so the test of line 45 is not affected. *)
Fixpoint lower (s : string) : string :=
  match s with
  | EmptyString => EmptyString
  | String c s' => String (lower_char c) (lower s')
  end.

(** [s.split(sep)] for a one-character separator.  The result is never
    empty: [''.split('/') == ['']]. *)
Fixpoint split (sep : ascii) (s : string) : list string :=
  match s with
  | EmptyString => [EmptyString]
  | String c s' =>
      if Ascii.eqb c sep then EmptyString :: split sep s'
      else match split sep s' with
           | [] => [String c EmptyString]
           | h :: t => String c h :: t
           end
  end.

(** [sep.join(parts)] *)
Fixpoint join (sep : ascii) (parts : list string) : string :=
  match parts with
  | [] => EmptyString
  | [p] => p
  | p :: rest => p ++ String sep (join sep rest)
  end.

(** [s.rfind(c)], with [None] for Python's [-1]. *)
Fixpoint rfind (c : ascii) (s : string) : option nat :=
  match s with
  | EmptyString => None
  | String a s' =>
      match rfind c s' with
      | Some i => Some (S i)
      | None => if Ascii.eqb a c then Some O else None
      end
  end.

Fixpoint all_dots (s : string) : bool :=
  match s with
  | EmptyString => true
  | String c s' => Ascii.eqb c "."%char && all_dots s'
  end.

(** [os.path.splitext(p)] of [posixpath]: the extension starts at the last
    dot of the last path component, unless that component has only dots
    before it (leading dots do not start an extension). *)
Definition splitext (p : string) : string * string :=
  let start := match rfind "/"%char p with Some i => S i | None => O end in
  match rfind "."%char p with
  | Some dotIndex =>
      if (start <=? dotIndex)%nat
         && negb (all_dots (slice_to (dotIndex - start) (slice_from start p)))
      then (slice_to dotIndex p, slice_from dotIndex p)
      else (p, EmptyString)
  | None => (p, EmptyString)
  end.

(** [parts[i]]; every use in the handler is guarded by a length test, so
    the default is never observed. *)
Definition item (parts : list string) (i : nat) : string :=
  nth i parts EmptyString.

(** [parts[-1]] *)
Definition last_item (parts : list string) : string :=
  List.last parts EmptyString.

End PyStr.

Import PyStr.

(** ** Path routing (lines 44-63) *)

(** The condition of the first [if]: the key is not a zip under
    [user/<uid>/uploads/]. *)
Definition not_zip_upload (file_path : string) (parts : list string) : bool :=
  negb (startswith "user/" file_path)
  || (length parts <? 4)%nat
  || negb (String.eqb (item parts 2) "uploads")
  || negb (endswith ".zip" (lower file_path)).

(** The condition of the loop-prevention [if] at line 61. *)
Definition in_intermediate_dir (parts : list string) : bool :=
  String.eqb (item parts 2) "extracted" || String.eqb (item parts 2) "chats".

Definition source_prefix_of (user_id zip_name_base : string) : string :=
  "user/" ++ user_id ++ "/extracted/" ++ zip_name_base ++ "/".

Definition destination_prefix_of (user_id zip_name_base : string) : string :=
  "user/" ++ user_id ++ "/chats/" ++ zip_name_base ++ "/".

Definition basename (relative_path : string) : string :=
  last_item (split "/"%char relative_path).

(** Line 109: [f"user/{user_id}/extracted/{zip_name_base}/{relative_path}"] *)
Definition extracted_blob_name (user_id zip_name_base relative_path : string)
  : string :=
  "user/" ++ user_id ++ "/extracted/" ++ zip_name_base ++ "/" ++ relative_path.

(** Lines 138-139: the mirrored name of an object under [source_prefix]. *)
Definition mirrored_blob_name (source_prefix destination_prefix name : string)
  : string :=
  let relative_blob_path := slice_from (String.length source_prefix) name in
  destination_prefix ++ relative_blob_path.

(** ** The world the handler acts on *)

Definition bytes := list Byte.byte.

(** A stored object: its content and the metadata the handler's copy is
    said to preserve. *)
Record blob := Blob { blob_data : bytes; blob_content_type : string }.

(** Continuation token of a chunked [rewrite]. *)
Definition token := string.

Inductive rewrite_response :=
| Rewritten (next : option token)   (* the returned token; [None] when done *)
| RewriteError.                     (* the call raised *)

(** What [ZipFile(local_zip_path).extractall(temp_dir)] does: the regular
    files it wrote, by path relative to the scratch root and in the order of
    writing, or the exception it raised.  The archive is read from the
    directory it is extracted into (lines 70 and 85), so the answer depends
    on the name of the local file as well as on its bytes: a member written
    at that name replaces the file that is being read. *)
Inductive decoded :=
| Entries (files : list (string * bytes))
| NotAZip                            (* zipfile.BadZipFile *)
| DecodeError.                       (* any other exception *)

(** Behaviour of the collaborators that the handler cannot control: which
    calls raise, what a listing returns, how many chunks a copy needs, how
    bytes decode.  The handler guards the download, the extraction and each
    upload with [try]; the marker check (line 125), the listing (line 132),
    the copy calls (lines 144-147) and the Firestore write (lines 156-158)
    are outside every [try].

    [list_blobs_answer prefix objects] is what the listing returns when
    [objects] are the objects under [prefix] at the time of the call, or
    [None] when it raises; the listing need not agree with the marker check
    (line 133 provides for that).  A collaborator answers the same call in
    the same way throughout a run and across runs. *)
Record env := Env {
  download_fails : string -> bool;
  upload_fails : string -> bool;
  exists_fails : string -> bool;
  list_blobs_answer :
    string -> list (string * blob) -> option (list (string * blob));
  rewrite_response_of : string -> string -> option token -> rewrite_response;
  doc_set_fails : string -> string -> bool;
  extractall : string -> bytes -> decoded;
  guess_content_type : string -> string
}.

(** Calls made on the bucket and on the document store, in order.  The
    answer of [exists], of [list_blobs] and of the Firestore write is [None]
    when the call raised. *)
Inductive call :=
| CallDownload (name : string)
| CallUpload (name : string) (data : bytes) (stored : bool)
| CallExists (name : string) (found : option bool)
| CallListBlobs (prefix : string) (listed : option (list (string * blob)))
| CallRewrite (source destination : string) (tok : option token)
              (response : rewrite_response)
| CallDocSet (user_id zip_name_base : string) (updated_at : option nat).

(** The [logging] calls, one constructor per message. *)
Inductive log_record :=
| InfoProcessing (bucket_name file_path : string)
| InfoSkipNotZipUpload (file_path : string)
| InfoSkipIntermediate (file_path : string)
| InfoDownloading (file_path : string)
| InfoDownloaded (file_path : string)
| ErrorDownload (file_path : string)
| InfoExtracting (zip_filename : string)
| InfoExtracted (zip_filename : string)
| ErrorBadZip (zip_filename : string)
| ErrorExtract (zip_filename : string)
| InfoUploading (user_id zip_name_base : string)
| ErrorUpload (relative_path destination_blob_name : string)
| InfoFinished (file_path : string) (upload_count : nat)
| InfoFoundChat (zip_name_base : string)
| WarnNoBlobs (source_prefix : string)
| InfoCopied (copy_count : nat) (destination_prefix : string)
| InfoUpdatingCache (user_id zip_name_base : string)
| InfoCacheUpdated (zip_name_base : string)
| InfoNoChat (extracted_chat_file_path : string).

(** [firestore] holds the [updated_at] field of the document
    [users/<uid>/chatFoldersCache/<base>], keyed by [(uid, base)];
    [server_time] is the clock behind [SERVER_TIMESTAMP]. *)
Record world := World {
  bucket : gmap string blob;
  firestore : gmap (string * string) nat;
  server_time : nat;
  calls : list call;
  log : list log_record
}.

Definition record_call (c : call) (w : world) : world :=
  World (bucket w) (firestore w) (S (server_time w)) (calls w ++ [c]) (log w).

Definition record_log (r : log_record) (w : world) : world :=
  World (bucket w) (firestore w) (server_time w) (calls w) (log w ++ [r]).

Definition put_blob (name : string) (b : blob) (w : world) : world :=
  World (<[name := b]> (bucket w)) (firestore w) (server_time w) (calls w) (log w).

Definition put_doc (user_id zip_name_base : string) (t : nat) (w : world) : world :=
  World (bucket w) (<[(user_id, zip_name_base) := t]> (firestore w))
        (server_time w) (calls w) (log w).

(** ** State and exception monad *)

Inductive exn :=
| DownloadFailed | ObjectNotFound | BadZipFile | ExtractionFailed
| UploadFailed | ExistsFailed | ListFailed | CopyFailed | CacheWriteFailed.

Inductive outcome (A : Type) :=
| Ret (a : A)        (* normal completion *)
| Raise (e : exn)    (* an exception is propagating *)
| OutOfFuel.         (* the continuation loop has not finished yet *)
Arguments Ret {A} a.
Arguments Raise {A} e.
Arguments OutOfFuel {A}.

Definition M (A : Type) : Type := world -> outcome A * world.

Definition ret {A} (a : A) : M A := fun w => (Ret a, w).

Definition bind {A B} (m : M A) (k : A -> M B) : M B :=
  fun w =>
    match m w with
    | (Ret a, w') => k a w'
    | (Raise e, w') => (Raise e, w')
    | (OutOfFuel, w') => (OutOfFuel, w')
    end.

(** [try: m except Exception as e: h] *)
Definition try_except {A} (m : M A) (h : exn -> M A) : M A :=
  fun w =>
    match m w with
    | (Raise e, w') => h e w'
    | r => r
    end.

Declare Scope pipeline_scope.
Delimit Scope pipeline_scope with pipeline.
Notation "x <- m ;; k" := (bind m (fun x => k))
  (at level 100, m at next level, right associativity) : pipeline_scope.
Notation "m ;;; k" := (bind m (fun _ => k))
  (at level 100, right associativity) : pipeline_scope.
Open Scope pipeline_scope.

Definition logging (r : log_record) : M unit :=
  fun w => (Ret tt, record_log r w).

(** ** Collaborator calls *)

(** [source_blob.download_to_filename(local_zip_path)] *)
Definition download_to_filename (e : env) (file_path : string) : M bytes :=
  fun w =>
    let w' := record_call (CallDownload file_path) w in
    if download_fails e file_path then (Raise DownloadFailed, w')
    else match bucket w !! file_path with
         | Some b => (Ret (blob_data b), w')
         | None => (Raise ObjectNotFound, w')
         end.

(** [destination_blob.upload_from_filename(local_file_path)]: the content
    type of the new object is guessed from the file name. *)
Definition upload_from_filename (e : env)
    (destination_blob_name relative_path : string) (data : bytes) : M unit :=
  fun w =>
    if upload_fails e destination_blob_name
    then (Raise UploadFailed,
          record_call (CallUpload destination_blob_name data false) w)
    else (Ret tt,
          record_call (CallUpload destination_blob_name data true)
            (put_blob destination_blob_name
               (Blob data (guess_content_type e relative_path)) w)).

(** [chat_file_blob.exists()] *)
Definition blob_exists (e : env) (name : string) : M bool :=
  fun w =>
    if exists_fails e name
    then (Raise ExistsFailed, record_call (CallExists name None) w)
    else
      let found := bool_decide (is_Some (bucket w !! name)) in
      (Ret found, record_call (CallExists name (Some found)) w).

(** Object names in the order of a listing: by their bytes. *)
Definition name_le (x y : string * blob) : Prop := String.leb x.1 y.1 = true.

#[global] Instance name_le_dec : RelDecision name_le :=
  fun x y => decide (String.leb x.1 y.1 = true).

(** The objects whose name starts with [prefix], in the order of a
    listing. *)
Definition blobs_under (prefix : string) (b : gmap string blob)
  : list (string * blob) :=
  merge_sort name_le
    (map_to_list (filter (fun kv => startswith prefix kv.1 = true) b)).

(** [list(storage_client.list_blobs(prefix=source_prefix))] *)
Definition list_blobs (e : env) (prefix : string) : M (list (string * blob)) :=
  fun w =>
    let listed := list_blobs_answer e prefix (blobs_under prefix (bucket w)) in
    let w' := record_call (CallListBlobs prefix listed) w in
    match listed with
    | Some blobs => (Ret blobs, w')
    | None => (Raise ListFailed, w')
    end.

(** [destination_blob.rewrite(blob, token=token)]: one chunk of a
    server-side copy.  The destination object appears, with the source's
    content and metadata, when the call that returns no token completes.
    The call raises when the listed source is not in the bucket. *)
Definition rewrite (e : env) (destination_blob_path source_name : string)
    (tok : option token) : M (option token) :=
  fun w =>
    match bucket w !! source_name with
    | None =>
        (Raise CopyFailed,
         record_call (CallRewrite source_name destination_blob_path tok
                        RewriteError) w)
    | Some b =>
        let r := rewrite_response_of e source_name destination_blob_path tok in
        let w' := record_call
                    (CallRewrite source_name destination_blob_path tok r) w in
        match r with
        | RewriteError => (Raise CopyFailed, w')
        | Rewritten (Some t) => (Ret (Some t), w')
        | Rewritten None => (Ret None, put_blob destination_blob_path b w')
        end
    end.

(** Lines 156-158: [FirestoreClient(...)] and
    [doc_ref.set({'updated_at': firestore.SERVER_TIMESTAMP})]; a write that
    raises stores nothing. *)
Definition doc_set (e : env) (user_id zip_name_base : string) : M unit :=
  fun w =>
    if doc_set_fails e user_id zip_name_base
    then (Raise CacheWriteFailed,
          record_call (CallDocSet user_id zip_name_base None) w)
    else
      let t := server_time w in
      (Ret tt, record_call (CallDocSet user_id zip_name_base (Some t))
                 (put_doc user_id zip_name_base t w)).

(** ** The handler *)

(** [event.data] of the trigger. *)
Record StorageObjectData := {
  data_bucket : string;
  data_name : string;
  data_content_type : option string
}.

(** The scratch directory ([temp_dir]) as a map from paths relative to its
    root to file contents. *)
Definition write_file (fs : gmap string bytes) (f : string * bytes)
  : gmap string bytes := <[f.1 := f.2]> fs.

(** [os.walk(temp_dir)] visits every regular file once; [root] and
    [filename] of a visit are the directory and the last component of the
    file's path, so [relpath(join(root, filename), temp_dir)] is its relative
    path and [filename] is [basename] of it. *)
Definition walk (temp_dir : gmap string bytes) : list (string * bytes) :=
  map_to_list temp_dir.

(** Lines 72-79: download into the scratch directory; [None] is the early
    [return]. *)
Definition download_stage (e : env) (file_path : string) : M (option bytes) :=
  try_except
    (logging (InfoDownloading file_path) ;;;
     zipbytes <- download_to_filename e file_path ;;
     logging (InfoDownloaded file_path) ;;;
     ret (Some zipbytes))
    (fun _ => logging (ErrorDownload file_path) ;;; ret None).

(** [zip_ref.extractall(temp_dir)] on a scratch directory that holds the
    downloaded archive. *)
Definition zip_extractall (e : env) (zip_filename : string) (zipbytes : bytes)
  : M (gmap string bytes) :=
  fun w =>
    match extractall e zip_filename zipbytes with
    | Entries files =>
        (Ret (foldl write_file {[ zip_filename := zipbytes ]} files), w)
    | NotAZip => (Raise BadZipFile, w)
    | DecodeError => (Raise ExtractionFailed, w)
    end.

(** Lines 81-95. *)
Definition extract_stage (e : env) (zip_filename : string) (zipbytes : bytes)
  : M (option (gmap string bytes)) :=
  try_except
    (logging (InfoExtracting zip_filename) ;;;
     temp_dir <- zip_extractall e zip_filename zipbytes ;;
     logging (InfoExtracted zip_filename) ;;;
     ret (Some temp_dir))
    (fun ex =>
       match ex with
       | BadZipFile => logging (ErrorBadZip zip_filename) ;;; ret None
       | _ => logging (ErrorExtract zip_filename) ;;; ret None
       end).

(** Lines 100-117: the upload loop, threading [upload_count]. *)
Fixpoint upload_files (e : env) (user_id zip_name_base zip_filename : string)
    (files : list (string * bytes)) (upload_count : nat) : M nat :=
  match files with
  | [] => ret upload_count
  | (relative_path, data) :: rest =>
      if String.eqb (basename relative_path) zip_filename
      then upload_files e user_id zip_name_base zip_filename rest upload_count
      else
        let destination_blob_name :=
          extracted_blob_name user_id zip_name_base relative_path in
        upload_count' <-
          try_except
            (upload_from_filename e destination_blob_name relative_path data ;;;
             ret (S upload_count))
            (fun _ =>
               logging (ErrorUpload relative_path destination_blob_name) ;;;
               ret upload_count) ;;
        upload_files e user_id zip_name_base zip_filename rest upload_count'
  end.

(** Lines 145-147: [while token is not None]. *)
Fixpoint rewrite_while (fuel : nat) (e : env)
    (destination_blob_path source_name : string) (tok : option token)
  : M unit :=
  match tok with
  | None => ret tt
  | Some t =>
      match fuel with
      | O => fun w => (OutOfFuel, w)
      | S fuel' =>
          tok' <- rewrite e destination_blob_path source_name (Some t) ;;
          rewrite_while fuel' e destination_blob_path source_name tok'
      end
  end.

(** Lines 144-147: the copy of one object. *)
Definition rewrite_blob (fuel : nat) (e : env)
    (destination_blob_path source_name : string) : M unit :=
  tok <- rewrite e destination_blob_path source_name None ;;
  rewrite_while fuel e destination_blob_path source_name tok.

(** Lines 136-150: the copy loop, threading [copy_count]. *)
Fixpoint copy_blobs (fuel : nat) (e : env)
    (source_prefix destination_prefix : string)
    (blobs_to_copy : list (string * blob)) (copy_count : nat) : M nat :=
  match blobs_to_copy with
  | [] => ret copy_count
  | (name, _) :: rest =>
      let destination_blob_path :=
        mirrored_blob_name source_prefix destination_prefix name in
      rewrite_blob fuel e destination_blob_path name ;;;
      copy_blobs fuel e source_prefix destination_prefix rest (S copy_count)
  end.

(** Lines 126-159: the branch taken when [_chat.txt] exists. *)
Definition mirror_stage (fuel : nat) (e : env) (user_id zip_name_base : string)
  : M unit :=
  logging (InfoFoundChat zip_name_base) ;;;
  let source_prefix := source_prefix_of user_id zip_name_base in
  let destination_prefix := destination_prefix_of user_id zip_name_base in
  blobs_to_copy <- list_blobs e source_prefix ;;
  match blobs_to_copy with
  | [] => logging (WarnNoBlobs source_prefix)
  | _ :: _ =>
      copy_count <-
        copy_blobs fuel e source_prefix destination_prefix blobs_to_copy 0 ;;
      logging (InfoCopied copy_count destination_prefix) ;;;
      logging (InfoUpdatingCache user_id zip_name_base) ;;;
      doc_set e user_id zip_name_base ;;;
      logging (InfoCacheUpdated zip_name_base)
  end.

Definition chat_file_path (user_id zip_name_base : string) : string :=
  "user/" ++ user_id ++ "/extracted/" ++ zip_name_base ++ "/_chat.txt".

(** Lines 97-161: publish the scratch directory, then check the marker. *)
Definition publish_stage (fuel : nat) (e : env)
    (file_path user_id zip_name_base zip_filename : string)
    (temp_dir : gmap string bytes) : M unit :=
  logging (InfoUploading user_id zip_name_base) ;;;
  upload_count <-
    upload_files e user_id zip_name_base zip_filename (walk temp_dir) 0 ;;
  logging (InfoFinished file_path upload_count) ;;;
  let extracted_chat_file_path := chat_file_path user_id zip_name_base in
  found <- blob_exists e extracted_chat_file_path ;;
  if found then mirror_stage fuel e user_id zip_name_base
  else logging (InfoNoChat extracted_chat_file_path).

(** [extract_zip(event)].  [fuel] bounds the iterations of each
    continuation loop. *)
Definition extract_zip (fuel : nat) (e : env) (event : StorageObjectData)
  : M unit :=
  let bucket_name := data_bucket event in
  let file_path := data_name event in
  logging (InfoProcessing bucket_name file_path) ;;;
  let parts := split "/"%char file_path in
  if not_zip_upload file_path parts
  then logging (InfoSkipNotZipUpload file_path)
  else
    let user_id := item parts 1 in
    let zip_filename := last_item parts in
    let zip_name_base := (splitext zip_filename).1 in
    if in_intermediate_dir parts
    then logging (InfoSkipIntermediate file_path)
    else
      downloaded <- download_stage e file_path ;;
      match downloaded with
      | None => ret tt
      | Some zipbytes =>
          extracted <- extract_stage e zip_filename zipbytes ;;
          match extracted with
          | None => ret tt
          | Some temp_dir =>
              publish_stage fuel e file_path user_id zip_name_base
                zip_filename temp_dir
          end
      end.

(** ** Observing a run *)

(** The calls made between two worlds of one run. *)
Definition calls_since (w w' : world) : list call :=
  drop (length (calls w)) (calls w').

(** The log records written between two worlds of one run. *)
Definition log_since (w w' : world) : list log_record :=
  drop (length (log w)) (log w').

Definition is_doc_set (c : call) : bool :=
  match c with CallDocSet _ _ _ => true | _ => false end.

Definition is_rewrite (c : call) : bool :=
  match c with CallRewrite _ _ _ _ => true | _ => false end.

Definition is_upload (c : call) : bool :=
  match c with CallUpload _ _ _ => true | _ => false end.

Definition is_listing (c : call) : bool :=
  match c with CallListBlobs _ _ => true | _ => false end.

(** A write to the document store that stored the record. *)
Definition is_cache_write (c : call) : bool :=
  match c with CallDocSet _ _ (Some _) => true | _ => false end.

(** The calls a run can make after the marker check. *)
Definition after_check (c : call) : bool :=
  is_listing c || is_rewrite c || is_doc_set c.

(** The collaborator eventually answers a chunked copy of [source] to
    [destination] with no token: [cs] are the calls of the chain that starts
    with token [tok], each made with the token the previous one returned. *)
Inductive token_chain (e : env) (source destination : string)
  : option token -> list call -> Prop :=
| chain_done tok :
    rewrite_response_of e source destination tok = Rewritten None ->
    token_chain e source destination tok
      [CallRewrite source destination tok (Rewritten None)]
| chain_more tok t cs :
    rewrite_response_of e source destination tok = Rewritten (Some t) ->
    token_chain e source destination (Some t) cs ->
    token_chain e source destination tok
      (CallRewrite source destination tok (Rewritten (Some t)) :: cs).

(** ** Closed forms of the loops *)

(** A world after some calls and log records. *)
Definition advance (cs : list call) (ls : list log_record) (w : world) : world :=
  World (bucket w) (firestore w) (length cs + server_time w)
        (calls w ++ cs) (log w ++ ls).

Definition with_bucket (b : gmap string blob) (w : world) : world :=
  World b (firestore w) (server_time w) (calls w) (log w).

(** Objects written one after the other. *)
Definition apply_writes (ws : list (string * blob)) (b : gmap string blob)
  : gmap string blob :=
  foldl (fun m kv => <[kv.1 := kv.2]> m) b ws.

Section UploadLoop.
Context (e : env) (user_id zip_name_base zip_filename : string).

(** The files the loop does not skip. *)
Definition upload_candidates (files : list (string * bytes))
  : list (string * bytes) :=
  filter (fun f => basename f.1 <> zip_filename) files.

(** The upload of the file does not raise. *)
Definition accepted (f : string * bytes) : bool :=
  negb (upload_fails e (extracted_blob_name user_id zip_name_base f.1)).

Definition upload_call (f : string * bytes) : call :=
  CallUpload (extracted_blob_name user_id zip_name_base f.1) f.2 (accepted f).

Definition upload_write (f : string * bytes) : string * blob :=
  (extracted_blob_name user_id zip_name_base f.1,
   Blob f.2 (guess_content_type e f.1)).

Definition upload_error (f : string * bytes) : log_record :=
  ErrorUpload f.1 (extracted_blob_name user_id zip_name_base f.1).
End UploadLoop.

(** The calls of at most [n] chunks of one copy, and how the copy ends. *)
Fixpoint chunks (n : nat) (e : env) (source destination : string)
    (tok : option token) : list call * outcome unit :=
  match n with
  | O => ([], OutOfFuel)
  | S n' =>
      let r := rewrite_response_of e source destination tok in
      let c := CallRewrite source destination tok r in
      match r with
      | RewriteError => ([c], Raise CopyFailed)
      | Rewritten None => ([c], Ret tt)
      | Rewritten (Some t) =>
          match chunks n' e source destination (Some t) with
          | (cs, o) => (c :: cs, o)
          end
      end
  end.

(** The calls of the copy loop, the objects it creates, and how it ends. *)
Fixpoint copy_plan (fuel : nat) (e : env)
    (source_prefix destination_prefix : string)
    (blobs : list (string * blob)) (copy_count : nat)
  : list call * list (string * blob) * outcome nat :=
  match blobs with
  | [] => ([], [], Ret copy_count)
  | (name, b) :: rest =>
      let destination :=
        mirrored_blob_name source_prefix destination_prefix name in
      match chunks (S fuel) e name destination None with
      | (cs, Ret _) =>
          match copy_plan fuel e source_prefix destination_prefix rest
                  (S copy_count) with
          | (cs', ws, o) => ((cs ++ cs')%list, (destination, b) :: ws, o)
          end
      | (cs, Raise ex) => (cs, [], Raise ex)
      | (cs, OutOfFuel) => (cs, [], OutOfFuel)
      end
  end.

(** The same for any listing, read against the bucket [b] the loop starts
    from: the copy of a listed name that is not in the bucket raises, and each
    completed copy stores the object the bucket holds at that moment. *)
Fixpoint copy_run (fuel : nat) (e : env)
    (source_prefix destination_prefix : string)
    (blobs : list (string * blob)) (copy_count : nat) (b : gmap string blob)
  : list call * list (string * blob) * outcome nat :=
  match blobs with
  | [] => ([], [], Ret copy_count)
  | (name, _) :: rest =>
      let destination :=
        mirrored_blob_name source_prefix destination_prefix name in
      match b !! name with
      | None =>
          ([CallRewrite name destination None RewriteError], [],
           Raise CopyFailed)
      | Some o =>
          match chunks (S fuel) e name destination None with
          | (cs, Ret _) =>
              match copy_run fuel e source_prefix destination_prefix rest
                      (S copy_count) (<[destination := o]> b) with
              | (cs', ws, out) =>
                  ((cs ++ cs')%list, (destination, o) :: ws, out)
              end
          | (cs, Raise ex) => (cs, [], Raise ex)
          | (cs, OutOfFuel) => (cs, [], OutOfFuel)
          end
      end
  end.

(** The bucket once the upload loop has run over the scratch directory. *)
Definition published_bucket (e : env) (user_id zip_name_base zip_filename : string)
    (temp_dir : gmap string bytes) (b : gmap string blob) : gmap string blob :=
  apply_writes
    (upload_write e user_id zip_name_base
       <$> filter (accepted e user_id zip_name_base)
             (upload_candidates zip_filename (walk temp_dir)))
    b.

(** The world at the marker check. *)
Definition published_world (e : env)
    (file_path user_id zip_name_base zip_filename : string)
    (temp_dir : gmap string bytes) (w : world) : world :=
  let candidates := upload_candidates zip_filename (walk temp_dir) in
  let stored := filter (accepted e user_id zip_name_base) candidates in
  let failed :=
    filter (fun f => ~ accepted e user_id zip_name_base f) candidates in
  advance (upload_call e user_id zip_name_base <$> candidates)
    (InfoUploading user_id zip_name_base
       :: (upload_error user_id zip_name_base <$> failed)
       ++ [InfoFinished file_path (length stored)])
    (with_bucket
       (published_bucket e user_id zip_name_base zip_filename temp_dir
          (bucket w)) w).

(** ** Vocabulary of the specification *)

(** The key has the shape [user/<uid>/uploads/<name>.zip]. *)
Definition eligible_key (key : string) : Prop :=
  startswith "user/" key = true
  /\ 4 <= length (split "/"%char key)
  /\ item (split "/"%char key) 2 = "uploads"
  /\ endswith ".zip" (lower key) = true.

(** UserId, ArchiveFileName and ArchiveBaseName of a key, as lines 54-57
    compute them. *)
Definition user_id_of (key : string) : string :=
  item (split "/"%char key) 1.

Definition zip_filename_of (key : string) : string :=
  last_item (split "/"%char key).

Definition zip_name_base_of (key : string) : string :=
  (splitext (zip_filename_of key)).1.

(** A [rewrite] call that raised. *)
Definition is_copy_error (c : call) : bool :=
  match c with CallRewrite _ _ _ RewriteError => true | _ => false end.

(** The exception a call lets out of the handler, if any: the download and
    the uploads are inside a [try]. *)
Definition escaping (c : call) : option exn :=
  match c with
  | CallExists _ None => Some ExistsFailed
  | CallListBlobs _ None => Some ListFailed
  | CallRewrite _ _ _ RewriteError => Some CopyFailed
  | CallDocSet _ _ None => Some CacheWriteFailed
  | _ => None
  end.

(** The name of the object a call creates or overwrites, if any: an upload
    writes its blob, a copy call writes its destination. *)
Definition written_name (c : call) : option string :=
  match c with
  | CallUpload name _ _ => Some name
  | CallRewrite _ destination _ _ => Some destination
  | _ => None
  end.

(** The listing of [prefix] answers, and with the objects that are under
    the prefix. *)
Definition listing_agrees (e : env) (prefix : string) : Prop :=
  forall blobs, list_blobs_answer e prefix blobs = Some blobs.

(** The object a completed copy creates. *)
Definition mirror_write (source_prefix destination_prefix : string)
    (nb : string * blob) : string * blob :=
  (mirrored_blob_name source_prefix destination_prefix nb.1, nb.2).

(** Line 129 without the archive name: everything mirrored for a user. *)
Definition chats_prefix_of (user_id : string) : string :=
  "user/" ++ user_id ++ "/chats/".

(** ** The shapes of a run *)

Section RunShape.
Context (fuel : nat) (e : env) (event : StorageObjectData) (w : world).

Definition run_key : string := data_name event.
Definition run_user_id : string := user_id_of run_key.
Definition run_zip_filename : string := zip_filename_of run_key.
Definition run_zip_name_base : string := zip_name_base_of run_key.
Definition run_source_prefix : string :=
  source_prefix_of run_user_id run_zip_name_base.
Definition run_destination_prefix : string :=
  destination_prefix_of run_user_id run_zip_name_base.
Definition run_marker : string := chat_file_path run_user_id run_zip_name_base.

(** The scratch directory after download and extraction. *)
Definition run_temp_dir (b : blob) (files : list (string * bytes))
  : gmap string bytes :=
  foldl write_file {[ run_zip_filename := blob_data b ]} files.

Definition run_candidates (b : blob) (files : list (string * bytes))
  : list (string * bytes) :=
  upload_candidates run_zip_filename (walk (run_temp_dir b files)).

Definition run_stored (b : blob) (files : list (string * bytes))
  : list (string * bytes) :=
  filter (accepted e run_user_id run_zip_name_base) (run_candidates b files).

Definition run_failed (b : blob) (files : list (string * bytes))
  : list (string * bytes) :=
  filter (fun f => ~ accepted e run_user_id run_zip_name_base f)
    (run_candidates b files).

(** What the upload loop leaves in the log: one error per failed upload,
    then the count of the accepted ones. *)
Definition run_publish_log (b : blob) (files : list (string * bytes))
    (l : list log_record) : Prop :=
  exists ls ls',
    l = (ls ++ (upload_error run_user_id run_zip_name_base
                  <$> run_failed b files)
            ++ InfoFinished run_key (length (run_stored b files)) :: ls')%list.

Definition run_uploads (b : blob) (files : list (string * bytes)) : list call :=
  upload_call e run_user_id run_zip_name_base <$> run_candidates b files.

(** The bucket at the marker check. *)
Definition run_published (b : blob) (files : list (string * bytes))
  : gmap string blob :=
  published_bucket e run_user_id run_zip_name_base run_zip_filename
    (run_temp_dir b files) (bucket w).

(** The archive was downloaded and decoded. *)
Definition extracted (b : blob) (files : list (string * bytes)) : Prop :=
  eligible_key run_key
  /\ download_fails e run_key = false
  /\ bucket w !! run_key = Some b
  /\ extractall e run_zip_filename (blob_data b) = Entries files.

(** The log of a run that reached the marker check, up to the records
    [tail] written after the upload loop. *)
Definition run_log (b : blob) (files : list (string * bytes))
    (tail : list log_record) : list log_record :=
  ([InfoProcessing (data_bucket event) run_key;
    InfoDownloading run_key; InfoDownloaded run_key;
    InfoExtracting run_zip_filename; InfoExtracted run_zip_filename;
    InfoUploading run_user_id run_zip_name_base]
   ++ (upload_error run_user_id run_zip_name_base <$> run_failed b files)
   ++ InfoFinished run_key (length (run_stored b files)) :: tail)%list.

(** The calls of a run up to the marker check, followed by [tail]. *)
Definition run_calls (b : blob) (files : list (string * bytes))
    (tail : list call) : list call :=
  (CallDownload run_key :: run_uploads b files ++ tail)%list.

(** Every run has one of these shapes: the outcome and the final world of
    the handler, by the stage at which it ends. *)
Inductive run_shape : outcome unit -> world -> Prop :=
| shape_skipped w' :
    ~ eligible_key run_key ->
    bucket w' = bucket w -> firestore w' = firestore w ->
    calls_since w w' = [] ->
    run_shape (Ret tt) w'
| shape_stopped w' :
    eligible_key run_key ->
    (download_fails e run_key = true
     \/ bucket w !! run_key = None
     \/ exists b, bucket w !! run_key = Some b
                  /\ download_fails e run_key = false
                  /\ (extractall e run_zip_filename (blob_data b) = NotAZip
                      \/ extractall e run_zip_filename (blob_data b)
                         = DecodeError)) ->
    bucket w' = bucket w -> firestore w' = firestore w ->
    calls_since w w' = [CallDownload run_key] ->
    run_shape (Ret tt) w'
| shape_check_raised b files w' :
    extracted b files ->
    exists_fails e run_marker = true ->
    bucket w' = run_published b files -> firestore w' = firestore w ->
    calls_since w w' = run_calls b files [CallExists run_marker None] ->
    log_since w w' = run_log b files [] ->
    run_shape (Raise ExistsFailed) w'
| shape_no_marker b files w' :
    extracted b files ->
    exists_fails e run_marker = false ->
    run_published b files !! run_marker = None ->
    bucket w' = run_published b files -> firestore w' = firestore w ->
    calls_since w w' = run_calls b files [CallExists run_marker (Some false)] ->
    log_since w w' = run_log b files [InfoNoChat run_marker] ->
    run_shape (Ret tt) w'
| shape_listing_raised b files w' :
    extracted b files ->
    exists_fails e run_marker = false ->
    is_Some (run_published b files !! run_marker) ->
    list_blobs_answer e run_source_prefix
      (blobs_under run_source_prefix (run_published b files)) = None ->
    bucket w' = run_published b files -> firestore w' = firestore w ->
    calls_since w w'
      = run_calls b files
          [CallExists run_marker (Some true);
           CallListBlobs run_source_prefix None] ->
    log_since w w' = run_log b files [InfoFoundChat run_zip_name_base] ->
    run_shape (Raise ListFailed) w'
| shape_nothing_listed b files w' :
    extracted b files ->
    exists_fails e run_marker = false ->
    is_Some (run_published b files !! run_marker) ->
    list_blobs_answer e run_source_prefix
      (blobs_under run_source_prefix (run_published b files)) = Some [] ->
    bucket w' = run_published b files -> firestore w' = firestore w ->
    calls_since w w'
      = run_calls b files
          [CallExists run_marker (Some true);
           CallListBlobs run_source_prefix (Some [])] ->
    log_since w w'
      = run_log b files
          [InfoFoundChat run_zip_name_base; WarnNoBlobs run_source_prefix] ->
    run_shape (Ret tt) w'
| shape_mirrored b files blobs cs ws copy_count t w' :
    extracted b files ->
    exists_fails e run_marker = false ->
    is_Some (run_published b files !! run_marker) ->
    list_blobs_answer e run_source_prefix
      (blobs_under run_source_prefix (run_published b files)) = Some blobs ->
    blobs <> [] ->
    copy_run fuel e run_source_prefix run_destination_prefix blobs 0
      (run_published b files) = (cs, ws, Ret copy_count) ->
    doc_set_fails e run_user_id run_zip_name_base = false ->
    bucket w' = apply_writes ws (run_published b files) ->
    server_time w <= t -> server_time w' = S t ->
    firestore w' = <[(run_user_id, run_zip_name_base) := t]> (firestore w) ->
    calls_since w w'
      = run_calls b files
          (CallExists run_marker (Some true)
             :: CallListBlobs run_source_prefix (Some blobs)
             :: cs ++ [CallDocSet run_user_id run_zip_name_base (Some t)]) ->
    log_since w w'
      = run_log b files
          [InfoFoundChat run_zip_name_base;
           InfoCopied copy_count run_destination_prefix;
           InfoUpdatingCache run_user_id run_zip_name_base;
           InfoCacheUpdated run_zip_name_base] ->
    run_shape (Ret tt) w'
| shape_cache_raised b files blobs cs ws copy_count w' :
    extracted b files ->
    exists_fails e run_marker = false ->
    is_Some (run_published b files !! run_marker) ->
    list_blobs_answer e run_source_prefix
      (blobs_under run_source_prefix (run_published b files)) = Some blobs ->
    blobs <> [] ->
    copy_run fuel e run_source_prefix run_destination_prefix blobs 0
      (run_published b files) = (cs, ws, Ret copy_count) ->
    doc_set_fails e run_user_id run_zip_name_base = true ->
    bucket w' = apply_writes ws (run_published b files) ->
    firestore w' = firestore w ->
    calls_since w w'
      = run_calls b files
          (CallExists run_marker (Some true)
             :: CallListBlobs run_source_prefix (Some blobs)
             :: cs ++ [CallDocSet run_user_id run_zip_name_base None]) ->
    log_since w w'
      = run_log b files
          [InfoFoundChat run_zip_name_base;
           InfoCopied copy_count run_destination_prefix;
           InfoUpdatingCache run_user_id run_zip_name_base] ->
    run_shape (Raise CacheWriteFailed) w'
| shape_copy_raised b files blobs cs ws ex w' :
    extracted b files ->
    exists_fails e run_marker = false ->
    is_Some (run_published b files !! run_marker) ->
    list_blobs_answer e run_source_prefix
      (blobs_under run_source_prefix (run_published b files)) = Some blobs ->
    blobs <> [] ->
    copy_run fuel e run_source_prefix run_destination_prefix blobs 0
      (run_published b files) = (cs, ws, Raise ex) ->
    bucket w' = apply_writes ws (run_published b files) ->
    firestore w' = firestore w ->
    calls_since w w'
      = run_calls b files
          (CallExists run_marker (Some true)
             :: CallListBlobs run_source_prefix (Some blobs) :: cs) ->
    log_since w w' = run_log b files [InfoFoundChat run_zip_name_base] ->
    run_shape (Raise ex) w'
| shape_copy_unfinished b files blobs cs ws w' :
    extracted b files ->
    exists_fails e run_marker = false ->
    is_Some (run_published b files !! run_marker) ->
    list_blobs_answer e run_source_prefix
      (blobs_under run_source_prefix (run_published b files)) = Some blobs ->
    blobs <> [] ->
    copy_run fuel e run_source_prefix run_destination_prefix blobs 0
      (run_published b files) = (cs, ws, OutOfFuel) ->
    bucket w' = apply_writes ws (run_published b files) ->
    firestore w' = firestore w ->
    calls_since w w'
      = run_calls b files
          (CallExists run_marker (Some true)
             :: CallListBlobs run_source_prefix (Some blobs) :: cs) ->
    log_since w w' = run_log b files [InfoFoundChat run_zip_name_base] ->
    run_shape OutOfFuel w'.
End RunShape.

(** ** Statements about a completed mirror *)

Section MirrorStatements.
Context (fuel : nat) (e : env) (event : StorageObjectData).

(** The marker check of the run found [_chat.txt]. *)
Definition marker_found (w w' : world) : Prop :=
  CallExists (run_marker event) (Some true) ∈ calls_since w w'.

(** Every object under the extracted prefix has an identical object
    (content and metadata) under the mirrored prefix, created by a copy
    call of this run, and the run wrote the cache record once, with the
    server's time, as its last call. *)
Definition mirrored_and_cached (w w' : world) : Prop :=
  exists pre t,
    calls_since w w'
      = (pre ++ [CallDocSet (run_user_id event) (run_zip_name_base event)
                   (Some t)])%list
    /\ Forall (fun c => is_doc_set c = false) pre
    /\ server_time w <= t
    /\ firestore w'
       = <[(run_user_id event, run_zip_name_base event) := t]> (firestore w)
    /\ forall name o,
         startswith (run_source_prefix event) name = true ->
         bucket w' !! name = Some o ->
         bucket w' !! mirrored_blob_name (run_source_prefix event)
                        (run_destination_prefix event) name = Some o
         /\ exists tok,
              CallRewrite name
                (mirrored_blob_name (run_source_prefix event)
                   (run_destination_prefix event) name)
                tok (Rewritten None) ∈ pre.

(** The collaborator ends the chunked copy of every object under the
    extracted prefix with a missing token, within the fuel. *)
Definition copies_complete (w' : world) : Prop :=
  forall name o,
    startswith (run_source_prefix event) name = true ->
    bucket w' !! name = Some o ->
    exists cs,
      token_chain e name
        (mirrored_blob_name (run_source_prefix event)
           (run_destination_prefix event) name) None cs
      /\ length cs <= S fuel.

(** The collaborators let the whole pipeline run on the archive [b] at the
    key of the event: the archive is downloaded and extracted into [files];
    the marker is in the bucket already or is a file of the scratch directory
    whose upload does not raise; the marker check answers; the listing
    answers with the objects under the extracted prefix; the chunked copy of
    any object under that prefix ends within the fuel; and the write to the
    document store does not raise. *)
Definition pipeline_answers (w : world) (b : blob)
    (files : list (string * bytes)) : Prop :=
  extracted e event w b files
  /\ (is_Some (bucket w !! run_marker event)
      \/ exists data,
           run_temp_dir event b files !! "_chat.txt" = Some data
           /\ upload_fails e (run_marker event) = false)
  /\ exists_fails e (run_marker event) = false
  /\ listing_agrees e (run_source_prefix event)
  /\ (forall name,
        startswith (run_source_prefix event) name = true ->
        exists cs,
          token_chain e name
            (mirrored_blob_name (run_source_prefix event)
               (run_destination_prefix event) name) None cs
          /\ length cs <= S fuel)
  /\ doc_set_fails e (run_user_id event) (run_zip_name_base event) = false.
End MirrorStatements.

(** ** What a run leaves, as a function of the bucket it starts from *)

(** The bucket after the mirror stage, how the stage ends, and whether it
    writes the cache record. *)
Definition mirror_summary (fuel : nat) (e : env) (user_id zip_name_base : string)
    (b1 : gmap string blob) : gmap string blob * outcome unit * bool :=
  let source_prefix := source_prefix_of user_id zip_name_base in
  let destination_prefix := destination_prefix_of user_id zip_name_base in
  match list_blobs_answer e source_prefix (blobs_under source_prefix b1) with
  | None => (b1, Raise ListFailed, false)
  | Some [] => (b1, Ret tt, false)
  | Some blobs =>
      match copy_run fuel e source_prefix destination_prefix blobs 0 b1 with
      | (_, ws, Ret _) =>
          if doc_set_fails e user_id zip_name_base
          then (apply_writes ws b1, Raise CacheWriteFailed, false)
          else (apply_writes ws b1, Ret tt, true)
      | (_, ws, Raise ex) => (apply_writes ws b1, Raise ex, false)
      | (_, ws, OutOfFuel) => (apply_writes ws b1, OutOfFuel, false)
      end
  end.

(** The final bucket of a run on [key], its outcome, and whether it writes
    the cache record. *)
Definition run_summary (fuel : nat) (e : env) (key : string)
    (b0 : gmap string blob) : gmap string blob * outcome unit * bool :=
  if not_zip_upload key (split "/"%char key) then (b0, Ret tt, false)
  else if download_fails e key then (b0, Ret tt, false)
  else match b0 !! key with
       | None => (b0, Ret tt, false)
       | Some b =>
           match extractall e (zip_filename_of key) (blob_data b) with
           | Entries files =>
               let b1 :=
                 published_bucket e (user_id_of key) (zip_name_base_of key)
                   (zip_filename_of key)
                   (foldl write_file {[ zip_filename_of key := blob_data b ]}
                      files) b0 in
               let marker :=
                 chat_file_path (user_id_of key) (zip_name_base_of key) in
               if exists_fails e marker then (b1, Raise ExistsFailed, false)
               else if bool_decide (is_Some (b1 !! marker))
               then mirror_summary fuel e (user_id_of key)
                      (zip_name_base_of key) b1
               else (b1, Ret tt, false)
           | NotAZip => (b0, Ret tt, false)
           | DecodeError => (b0, Ret tt, false)
           end
       end.

(** ** Concrete runs *)

Module Scenario.
(** The archive [user/u1/uploads/backup.zip] of the specification's
    scenarios; the decoder is fixed by the scenario, so the bytes of the
    archive are immaterial. *)
Definition backup_key : string := "user/u1/uploads/backup.zip".

Definition backup_event : StorageObjectData :=
  {| data_bucket := "bucket";
     data_name := backup_key;
     data_content_type := Some "application/zip" |}.

Definition zip_bytes : bytes := [Byte.x50; Byte.x4b; Byte.x03; Byte.x04].
Definition a_txt : bytes := [Byte.x61].
Definition b_txt : bytes := [Byte.x62].
Definition chat_txt : bytes := [Byte.x63].

Definition plain_files : list (string * bytes) :=
  [("a.txt", a_txt); ("sub/b.txt", b_txt)].

Definition chat_files : list (string * bytes) :=
  ("_chat.txt", chat_txt) :: plain_files.

Definition world0 : world :=
  {| bucket := {[ backup_key := Blob zip_bytes "application/zip" ]};
     firestore := ∅;
     server_time := 0;
     calls := [];
     log := [] |}.

(** A collaborator without faults that copies every object in one call. *)
Definition env_ok (files : list (string * bytes)) : env :=
  {| download_fails := fun _ => false;
     upload_fails := fun _ => false;
     exists_fails := fun _ => false;
     list_blobs_answer := fun _ blobs => Some blobs;
     rewrite_response_of := fun _ _ _ => Rewritten None;
     doc_set_fails := fun _ _ => false;
     extractall := fun _ _ => Entries files;
     guess_content_type := fun _ => "text/plain" |}.

(** Every copy call raises. *)
Definition env_copy_fails : env :=
  {| download_fails := fun _ => false;
     upload_fails := fun _ => false;
     exists_fails := fun _ => false;
     list_blobs_answer := fun _ blobs => Some blobs;
     rewrite_response_of := fun _ _ _ => RewriteError;
     doc_set_fails := fun _ _ => false;
     extractall := fun _ _ => Entries chat_files;
     guess_content_type := fun _ => "text/plain" |}.

(** The copy of [a.txt] raises. *)
Definition env_one_copy_fails : env :=
  {| download_fails := fun _ => false;
     upload_fails := fun _ => false;
     exists_fails := fun _ => false;
     list_blobs_answer := fun _ blobs => Some blobs;
     rewrite_response_of :=
       fun source _ _ =>
         if String.eqb source "user/u1/extracted/backup/a.txt"
         then RewriteError else Rewritten None;
     doc_set_fails := fun _ _ => false;
     extractall := fun _ _ => Entries chat_files;
     guess_content_type := fun _ => "text/plain" |}.

(** Every copy needs two calls: the first returns the token ["t1"]. *)
Definition env_chunked : env :=
  {| download_fails := fun _ => false;
     upload_fails := fun _ => false;
     exists_fails := fun _ => false;
     list_blobs_answer := fun _ blobs => Some blobs;
     rewrite_response_of :=
       fun _ _ tok =>
         match tok with
         | None => Rewritten (Some "t1")
         | Some _ => Rewritten None
         end;
     doc_set_fails := fun _ _ => false;
     extractall := fun _ _ => Entries chat_files;
     guess_content_type := fun _ => "text/plain" |}.

(** No copy ever ends: every call returns another token. *)
Definition env_endless : env :=
  {| download_fails := fun _ => false;
     upload_fails := fun _ => false;
     exists_fails := fun _ => false;
     list_blobs_answer := fun _ blobs => Some blobs;
     rewrite_response_of := fun _ _ _ => Rewritten (Some "t");
     doc_set_fails := fun _ _ => false;
     extractall := fun _ _ => Entries chat_files;
     guess_content_type := fun _ => "text/plain" |}.

(** The upload of [a.txt] raises. *)
Definition env_upload_fails : env :=
  {| download_fails := fun _ => false;
     upload_fails :=
       fun name => String.eqb name "user/u1/extracted/backup/a.txt";
     exists_fails := fun _ => false;
     list_blobs_answer := fun _ blobs => Some blobs;
     rewrite_response_of := fun _ _ _ => Rewritten None;
     doc_set_fails := fun _ _ => false;
     extractall := fun _ _ => Entries plain_files;
     guess_content_type := fun _ => "text/plain" |}.

(** The downloaded bytes are not an archive. *)
Definition env_corrupt : env :=
  {| download_fails := fun _ => false;
     upload_fails := fun _ => false;
     exists_fails := fun _ => false;
     list_blobs_answer := fun _ blobs => Some blobs;
     rewrite_response_of := fun _ _ _ => Rewritten None;
     doc_set_fails := fun _ _ => false;
     extractall := fun _ _ => NotAZip;
     guess_content_type := fun _ => "text/plain" |}.

(** The download raises. *)
Definition env_download_fails : env :=
  {| download_fails := fun _ => true;
     upload_fails := fun _ => false;
     exists_fails := fun _ => false;
     list_blobs_answer := fun _ blobs => Some blobs;
     rewrite_response_of := fun _ _ _ => Rewritten None;
     doc_set_fails := fun _ _ => false;
     extractall := fun _ _ => Entries chat_files;
     guess_content_type := fun _ => "text/plain" |}.

(** The marker check raises. *)
Definition env_check_fails : env :=
  {| download_fails := fun _ => false;
     upload_fails := fun _ => false;
     exists_fails := fun _ => true;
     list_blobs_answer := fun _ blobs => Some blobs;
     rewrite_response_of := fun _ _ _ => Rewritten None;
     doc_set_fails := fun _ _ => false;
     extractall := fun _ _ => Entries chat_files;
     guess_content_type := fun _ => "text/plain" |}.

(** The listing raises. *)
Definition env_listing_fails : env :=
  {| download_fails := fun _ => false;
     upload_fails := fun _ => false;
     exists_fails := fun _ => false;
     list_blobs_answer := fun _ _ => None;
     rewrite_response_of := fun _ _ _ => Rewritten None;
     doc_set_fails := fun _ _ => false;
     extractall := fun _ _ => Entries chat_files;
     guess_content_type := fun _ => "text/plain" |}.

(** The listing returns no object, whatever the bucket holds. *)
Definition env_nothing_listed : env :=
  {| download_fails := fun _ => false;
     upload_fails := fun _ => false;
     exists_fails := fun _ => false;
     list_blobs_answer := fun _ _ => Some [];
     rewrite_response_of := fun _ _ _ => Rewritten None;
     doc_set_fails := fun _ _ => false;
     extractall := fun _ _ => Entries chat_files;
     guess_content_type := fun _ => "text/plain" |}.

(** The Firestore write raises. *)
Definition env_cache_fails : env :=
  {| download_fails := fun _ => false;
     upload_fails := fun _ => false;
     exists_fails := fun _ => false;
     list_blobs_answer := fun _ blobs => Some blobs;
     rewrite_response_of := fun _ _ _ => Rewritten None;
     doc_set_fails := fun _ _ => true;
     extractall := fun _ _ => Entries chat_files;
     guess_content_type := fun _ => "text/plain" |}.




(** A bucket that holds a published marker object. *)
Definition world_published : world :=
  {| bucket :=
       {[ "user/u1/extracted/backup/_chat.txt" := Blob chat_txt "text/plain" ]};
     firestore := ∅;
     server_time := 0;
     calls := [];
     log := [] |}.

(** The event of an object the handler itself published. *)
Definition extracted_event : StorageObjectData :=
  {| data_bucket := "bucket";
     data_name := "user/u1/extracted/backup/a.txt";
     data_content_type := None |}.
End Scenario.

(** ** Further vocabulary *)

(** [parts] with [x] appended to its last element. *)
Fixpoint append_to_last (parts : list string) (x : string) : list string :=
  match parts with
  | [] => []
  | [p] => [p ++ x]
  | p :: rest => p :: append_to_last rest x
  end.

(** * Verification *)

(** ** Facts about the string operations *)

Section StringFacts.

Lemma append_nil_l (s : string) : "" ++ s = s.
Proof. reflexivity. Qed.

Lemma append_cons (c : ascii) (a b : string) :
  String c a ++ b = String c (a ++ b).
Proof. reflexivity. Qed.

Lemma append_assoc (a b c : string) : (a ++ b) ++ c = a ++ (b ++ c).
Proof.
  induction a as [|x a IH]; [done |].
  rewrite !append_cons. by f_equal.
Qed.

Lemma append_inv_head (p a b : string) : p ++ a = p ++ b -> a = b.
Proof. apply String.app_inj. Qed.

Lemma startswith_append (p s : string) : startswith p (p ++ s) = true.
Proof.
  induction p as [|x p IH]; [done |].
  rewrite append_cons. simpl. by rewrite Ascii.eqb_refl, IH.
Qed.

Lemma startswith_inv (p s : string) :
  startswith p s = true -> exists r, s = p ++ r.
Proof.
  revert s; induction p as [|x p IH]; intros s; simpl.
  - by exists s.
  - destruct s as [|y s]; [done |].
    intros [Hxy Hps]%andb_prop.
    apply Ascii.eqb_eq in Hxy as ->.
    destruct (IH _ Hps) as [r ->]. by exists r.
Qed.

Lemma startswith_cancel (a p s : string) :
  startswith (a ++ p) (a ++ s) = startswith p s.
Proof.
  induction a as [|x a IH]; [done |].
  rewrite !append_cons. simpl. by rewrite Ascii.eqb_refl, IH.
Qed.

Lemma slice_from_append (p s : string) :
  slice_from (String.length p) (p ++ s) = s.
Proof.
  induction p as [|x p IH]; [by destruct s |].
  rewrite append_cons. simpl. done.
Qed.

Lemma split_not_nil (sep : ascii) (s : string) : split sep s <> [].
Proof.
  induction s as [|c s IH]; simpl; [done |].
  destruct (Ascii.eqb c sep); [done |].
  by destruct (split sep s).
Qed.

Lemma join_split (sep : ascii) (s : string) : join sep (split sep s) = s.
Proof.
  induction s as [|c s IH]; [done |].
  simpl. pose proof (split_not_nil sep s) as Hnil.
  destruct (Ascii.eqb_spec c sep) as [-> | Hne];
    destruct (split sep s) as [|h t]; try done.
  - change (join sep (EmptyString :: h :: t))
      with (String sep (join sep (h :: t))).
    by rewrite IH.
  - destruct t as [|h' t].
    + simpl in *. by rewrite IH.
    + change (join sep (String c h :: h' :: t))
        with (String c (join sep (h :: h' :: t))).
      by rewrite IH.
Qed.

(** The parts of a key that starts with [user/]. *)
Lemma split_user (s : string) :
  split "/"%char ("user/" ++ s) = "user" :: split "/"%char s.
Proof.
  rewrite !append_cons, append_nil_l. cbn [split Ascii.eqb Bool.eqb].
  pose proof (split_not_nil "/"%char s) as Hnil.
  by destruct (split "/"%char s).
Qed.

End StringFacts.

Ltac norm_append := rewrite ?append_cons, ?append_nil_l.

(** An upload destination is the extracted prefix followed by the relative
    path. *)
Lemma extracted_blob_name_prefix (user_id zip_name_base relative_path : string) :
  extracted_blob_name user_id zip_name_base relative_path
  = source_prefix_of user_id zip_name_base ++ relative_path.
Proof.
  unfold extracted_blob_name, source_prefix_of. by rewrite !append_assoc.
Qed.

(** No key under the chats prefix lies under the extracted prefix. *)
Lemma chats_not_extracted (user_id zip_name_base zip_name_base' rest : string) :
  startswith (source_prefix_of user_id zip_name_base)
             (destination_prefix_of user_id zip_name_base' ++ rest) = false.
Proof.
  unfold source_prefix_of, destination_prefix_of.
  rewrite !append_assoc, !startswith_cancel. reflexivity.
Qed.

(** No key under the extracted prefix lies under the chats prefix. *)
Lemma extracted_not_chats (user_id zip_name_base zip_name_base' rest : string) :
  startswith (destination_prefix_of user_id zip_name_base)
             (source_prefix_of user_id zip_name_base' ++ rest) = false.
Proof.
  unfold source_prefix_of, destination_prefix_of.
  rewrite !append_assoc, !startswith_cancel. reflexivity.
Qed.

Close Scope string_scope.

(** ** Facts about sequences of writes *)

Section Writes.
Implicit Types (ws : list (string * blob)) (b : gmap string blob).

Lemma apply_writes_app ws1 ws2 b :
  apply_writes (ws1 ++ ws2) b = apply_writes ws2 (apply_writes ws1 b).
Proof. apply foldl_app. Qed.

Lemma lookup_apply_writes_None ws b k :
  k ∉ ws.*1 -> apply_writes ws b !! k = b !! k.
Proof.
  revert b; induction ws as [|[k' v'] ws IH]; intros b Hk; [done |].
  rewrite fmap_cons, not_elem_of_cons in Hk. destruct Hk as [Hne Hk].
  cbn. unfold apply_writes in IH. rewrite IH by done.
  by rewrite lookup_insert_ne.
Qed.

Lemma lookup_apply_writes_Some ws b k v :
  NoDup ws.*1 -> (k, v) ∈ ws -> apply_writes ws b !! k = Some v.
Proof.
  revert b; induction ws as [|[k' v'] ws IH]; intros b Hnd Hin.
  - by apply elem_of_nil in Hin.
  - rewrite fmap_cons in Hnd. apply NoDup_cons in Hnd as [Hk' Hnd].
    apply elem_of_cons in Hin as [[= -> ->] | Hin].
    + cbn. fold (apply_writes ws (<[k' := v']> b)).
      rewrite lookup_apply_writes_None by done.
      apply lookup_insert_eq.
    + cbn. by apply IH.
Qed.

Lemma apply_writes_id ws b :
  (forall k v, (k, v) ∈ ws -> b !! k = Some v) -> apply_writes ws b = b.
Proof.
  induction ws as [|[k v] ws IH]; intros Hall; [done |].
  cbn. rewrite insert_id by (apply Hall; left).
  apply IH. intros k' v' Hin. apply Hall. by right.
Qed.

Lemma lookup_apply_writes_elem ws b k v :
  apply_writes ws b !! k = Some v -> (k, v) ∈ ws \/ b !! k = Some v.
Proof.
  revert b; induction ws as [|[k' v'] ws IH]; intros b; [by right |].
  cbn. intros H. apply IH in H as [H | H].
  - left. by right.
  - destruct (decide (k' = k)) as [-> | Hne].
    + rewrite lookup_insert_eq in H. injection H as ->. left. by left.
    + rewrite lookup_insert_ne in H by done. by right.
Qed.
End Writes.

Lemma elem_of_blobs_under (prefix : string) (b : gmap string blob) name o :
  (name, o) ∈ blobs_under prefix b <->
  b !! name = Some o /\ startswith prefix name = true.
Proof.
  unfold blobs_under. rewrite merge_sort_Permutation, elem_of_map_to_list.
  by rewrite map_lookup_filter_Some.
Qed.

Lemma NoDup_blobs_under (prefix : string) (b : gmap string blob) :
  NoDup (blobs_under prefix b).*1.
Proof.
  unfold blobs_under. rewrite merge_sort_Permutation.
  apply NoDup_fst_map_to_list.
Qed.

(** ** Closed forms of the stages *)

Lemma calls_since_advance (w w' : world) (cs : list call) :
  calls w' = calls w ++ cs -> calls_since w w' = cs.
Proof. unfold calls_since. intros ->. by rewrite drop_app_length. Qed.

Lemma log_since_advance (w w' : world) (ls : list log_record) :
  log w' = log w ++ ls -> log_since w w' = ls.
Proof. unfold log_since. intros ->. by rewrite drop_app_length. Qed.

Ltac world_eq :=
  unfold advance, with_bucket, record_call, record_log, put_blob, put_doc;
  cbn [bucket firestore server_time calls log length Nat.add];
  f_equal; rewrite ?length_app, <- ?app_assoc, ?app_nil_r; cbn [length app];
  try done; try lia.

Lemma download_stage_run (e : env) (file_path : string) (w : world) :
  download_stage e file_path w =
  if download_fails e file_path
  then (Ret None,
        advance [CallDownload file_path]
          [InfoDownloading file_path; ErrorDownload file_path] w)
  else match bucket w !! file_path with
       | Some b =>
           (Ret (Some (blob_data b)),
            advance [CallDownload file_path]
              [InfoDownloading file_path; InfoDownloaded file_path] w)
       | None =>
           (Ret None,
            advance [CallDownload file_path]
              [InfoDownloading file_path; ErrorDownload file_path] w)
       end.
Proof.
  unfold download_stage, try_except, bind, logging, download_to_filename, ret.
  cbn [bucket record_log].
  destruct (download_fails e file_path); [f_equal; world_eq |].
  destruct (bucket w !! file_path); f_equal; world_eq.
Qed.

Lemma extract_stage_run (e : env) (zip_filename : string) (zipbytes : bytes)
    (w : world) :
  extract_stage e zip_filename zipbytes w =
  match extractall e zip_filename zipbytes with
  | Entries files =>
      (Ret (Some (foldl write_file {[ zip_filename := zipbytes ]} files)),
       advance [] [InfoExtracting zip_filename; InfoExtracted zip_filename] w)
  | NotAZip =>
      (Ret None,
       advance [] [InfoExtracting zip_filename; ErrorBadZip zip_filename] w)
  | DecodeError =>
      (Ret None,
       advance [] [InfoExtracting zip_filename; ErrorExtract zip_filename] w)
  end.
Proof.
  unfold extract_stage, try_except, bind, logging, zip_extractall, ret.
  destruct (extractall e zip_filename zipbytes); f_equal; world_eq.
Qed.

Lemma upload_files_run (e : env) (user_id zip_name_base zip_filename : string)
    (files : list (string * bytes)) (upload_count : nat) (w : world) :
  let candidates := upload_candidates zip_filename files in
  let stored := filter (accepted e user_id zip_name_base) candidates in
  let failed :=
    filter (fun f => ~ accepted e user_id zip_name_base f) candidates in
  upload_files e user_id zip_name_base zip_filename files upload_count w =
  (Ret (upload_count + length stored),
   advance (upload_call e user_id zip_name_base <$> candidates)
     (upload_error user_id zip_name_base <$> failed)
     (with_bucket
        (apply_writes (upload_write e user_id zip_name_base <$> stored)
           (bucket w)) w)).
Proof.
  revert upload_count w.
  induction files as [|[relative_path data] rest IH]; intros upload_count w.
  - cbn. unfold ret. f_equal; [f_equal; lia |]. destruct w. world_eq.
  - cbn [upload_files]. unfold upload_candidates in *.
    rewrite filter_cons. cbn [fst].
    destruct (String.eqb_spec (basename relative_path) zip_filename)
      as [Heq | Hne].
    + rewrite decide_False by (intros H; by apply H). apply IH.
    + rewrite decide_True by done.
      unfold bind at 1, try_except, bind, upload_from_filename, logging, ret.
      rewrite !filter_cons.
      assert (Hacc : accepted e user_id zip_name_base (relative_path, data)
                     = negb (upload_fails e
                         (extracted_blob_name user_id zip_name_base
                            relative_path))) by done.
      destruct (upload_fails e
                  (extracted_blob_name user_id zip_name_base relative_path))
        eqn:Hfail; cbn [negb] in Hacc.
      * rewrite (decide_False
                   (P := Is_true (accepted e user_id zip_name_base
                                    (relative_path, data))))
          by (rewrite Hacc; intros []).
        rewrite (decide_True
                   (P := ~ Is_true (accepted e user_id zip_name_base
                                      (relative_path, data))))
          by (rewrite Hacc; intros []).
        rewrite IH. cbn zeta. f_equal. rewrite !fmap_cons.
        unfold upload_call at 2. rewrite Hacc. world_eq.
      * rewrite (decide_True
                   (P := Is_true (accepted e user_id zip_name_base
                                    (relative_path, data))))
          by (by rewrite Hacc).
        rewrite (decide_False
                   (P := ~ Is_true (accepted e user_id zip_name_base
                                      (relative_path, data))))
          by (rewrite Hacc; intros H; by apply H).
        rewrite IH. cbn zeta. f_equal; [f_equal; cbn [length]; lia |].
        rewrite !fmap_cons. unfold upload_call at 2. rewrite Hacc. world_eq.
Qed.

Lemma rewrite_while_None (fuel : nat) (e : env) (destination source : string) :
  rewrite_while fuel e destination source None = ret tt.
Proof. by destruct fuel. Qed.

Lemma rewrite_while_run (fuel : nat) (e : env) (destination source : string)
    (t : token) (w : world) (b : blob) :
  bucket w !! source = Some b ->
  rewrite_while fuel e destination source (Some t) w =
  match chunks fuel e source destination (Some t) with
  | (cs, Ret _) =>
      (Ret tt, advance cs [] (with_bucket (<[destination := b]> (bucket w)) w))
  | (cs, Raise ex) => (Raise ex, advance cs [] w)
  | (cs, OutOfFuel) => (OutOfFuel, advance cs [] w)
  end.
Proof.
  revert t w; induction fuel as [|fuel IH]; intros t w Hsrc.
  - cbn. f_equal. destruct w. world_eq.
  - cbn [rewrite_while chunks]. unfold bind, rewrite. rewrite Hsrc.
    destruct (rewrite_response_of e source destination (Some t))
      as [[t'|]|] eqn:Hresp.
    + set (w' := record_call _ w). rewrite (IH t' w' Hsrc).
      destruct (chunks fuel e source destination (Some t')) as [cs [[]| ex |]];
        subst w'; f_equal; world_eq.
    + rewrite rewrite_while_None. unfold ret. f_equal. world_eq.
    + f_equal. world_eq.
Qed.

Lemma rewrite_blob_run (fuel : nat) (e : env) (destination source : string)
    (w : world) (b : blob) :
  bucket w !! source = Some b ->
  rewrite_blob fuel e destination source w =
  match chunks (S fuel) e source destination None with
  | (cs, Ret _) =>
      (Ret tt, advance cs [] (with_bucket (<[destination := b]> (bucket w)) w))
  | (cs, Raise ex) => (Raise ex, advance cs [] w)
  | (cs, OutOfFuel) => (OutOfFuel, advance cs [] w)
  end.
Proof.
  intros Hsrc. unfold rewrite_blob, bind, rewrite. rewrite Hsrc.
  cbn [chunks].
  destruct (rewrite_response_of e source destination None)
    as [[t'|]|] eqn:Hresp.
  - set (w' := record_call _ w).
    rewrite (rewrite_while_run fuel e destination source t' w' b Hsrc).
    destruct (chunks fuel e source destination (Some t')) as [cs [[]| ex |]];
      subst w'; f_equal; world_eq.
  - rewrite rewrite_while_None. unfold ret. f_equal. world_eq.
  - f_equal. world_eq.
Qed.

Lemma copy_blobs_run (fuel : nat) (e : env)
    (source_prefix destination_prefix : string)
    (blobs : list (string * blob)) (copy_count : nat) (w : world) :
  (forall name o, (name, o) ∈ blobs ->
     bucket w !! name = Some o /\ startswith source_prefix name = true) ->
  (forall name,
     startswith source_prefix
       (mirrored_blob_name source_prefix destination_prefix name) = false) ->
  copy_blobs fuel e source_prefix destination_prefix blobs copy_count w =
  match copy_plan fuel e source_prefix destination_prefix blobs copy_count with
  | (cs, ws, o) =>
      (o, advance cs [] (with_bucket (apply_writes ws (bucket w)) w))
  end.
Proof.
  intros Hsrc Hdst. revert copy_count w Hsrc.
  induction blobs as [|[name o] rest IH]; intros copy_count w Hsrc.
  - cbn. unfold ret. f_equal. destruct w. world_eq.
  - cbn [copy_blobs copy_plan]. unfold bind at 1.
    destruct (Hsrc name o) as [Hname Hpre]; [by left |].
    rewrite (rewrite_blob_run fuel e _ name w o Hname).
    destruct (chunks (S fuel) e name
                (mirrored_blob_name source_prefix destination_prefix name) None)
      as [cs [[]| ex |]]; [| done | done].
    rewrite IH.
    + destruct (copy_plan fuel e source_prefix destination_prefix rest
                  (S copy_count)) as [[cs' ws] o'].
      f_equal. world_eq.
    + intros name' o' Hin. destruct (Hsrc name' o') as [Hl Hp]; [by right |].
      split; [| done]. cbn [bucket advance with_bucket].
      rewrite lookup_insert_ne; [done |].
      intros Heq. specialize (Hdst name). rewrite Heq in Hdst. congruence.
Qed.

Lemma rewrite_blob_missing (fuel : nat) (e : env) (destination source : string)
    (w : world) :
  bucket w !! source = None ->
  rewrite_blob fuel e destination source w =
  (Raise CopyFailed,
   advance [CallRewrite source destination None RewriteError] [] w).
Proof.
  intros Hsrc. unfold rewrite_blob, bind, rewrite. rewrite Hsrc.
  f_equal. world_eq.
Qed.

(** The copy loop over any listing. *)
Lemma copy_blobs_run_any (fuel : nat) (e : env)
    (source_prefix destination_prefix : string)
    (blobs : list (string * blob)) (copy_count : nat) (w : world) :
  copy_blobs fuel e source_prefix destination_prefix blobs copy_count w =
  match copy_run fuel e source_prefix destination_prefix blobs copy_count
          (bucket w) with
  | (cs, ws, o) =>
      (o, advance cs [] (with_bucket (apply_writes ws (bucket w)) w))
  end.
Proof.
  revert copy_count w.
  induction blobs as [|[name o] rest IH]; intros copy_count w.
  - cbn. unfold ret. f_equal. destruct w. world_eq.
  - cbn [copy_blobs copy_run]. unfold bind at 1.
    destruct (bucket w !! name) as [o'|] eqn:Hname.
    + rewrite (rewrite_blob_run fuel e _ name w o' Hname).
      destruct (chunks (S fuel) e name
                  (mirrored_blob_name source_prefix destination_prefix name)
                  None)
        as [cs [[]| ex |]]; [| done | done].
      rewrite IH. cbn [bucket advance with_bucket].
      destruct (copy_run fuel e source_prefix destination_prefix rest
                  (S copy_count) _) as [[cs' ws] out].
      f_equal. world_eq.
    + by rewrite (rewrite_blob_missing fuel e _ name w Hname).
Qed.

(** On a listing of objects that are in the bucket under the source prefix,
    the copy loop does not depend on the bucket. *)
Lemma copy_run_listed (fuel : nat) (e : env)
    (source_prefix destination_prefix : string)
    (blobs : list (string * blob)) (copy_count : nat) (b : gmap string blob) :
  (forall name o, (name, o) ∈ blobs ->
     b !! name = Some o /\ startswith source_prefix name = true) ->
  (forall name,
     startswith source_prefix
       (mirrored_blob_name source_prefix destination_prefix name) = false) ->
  copy_run fuel e source_prefix destination_prefix blobs copy_count b
  = copy_plan fuel e source_prefix destination_prefix blobs copy_count.
Proof.
  intros Hsrc Hdst. revert copy_count b Hsrc.
  induction blobs as [|[name o] rest IH]; intros copy_count b Hsrc; [done |].
  cbn [copy_run copy_plan].
  destruct (Hsrc name o) as [Hname Hpre]; [by left |].
  rewrite Hname.
  destruct (chunks (S fuel) e name
              (mirrored_blob_name source_prefix destination_prefix name) None)
    as [cs [[]| ex |]]; [| done | done].
  rewrite IH; [done |].
  intros name' o' Hin. destruct (Hsrc name' o') as [Hl Hp]; [by right |].
  split; [| done]. rewrite lookup_insert_ne; [done |].
  intros Heq. specialize (Hdst name). rewrite Heq in Hdst. congruence.
Qed.

Lemma copy_run_agrees (fuel : nat) (e : env) (user_id zip_name_base : string)
    (copy_count : nat) (b : gmap string blob) :
  copy_run fuel e (source_prefix_of user_id zip_name_base)
    (destination_prefix_of user_id zip_name_base)
    (blobs_under (source_prefix_of user_id zip_name_base) b) copy_count b
  = copy_plan fuel e (source_prefix_of user_id zip_name_base)
      (destination_prefix_of user_id zip_name_base)
      (blobs_under (source_prefix_of user_id zip_name_base) b) copy_count.
Proof.
  apply copy_run_listed.
  - intros name o. apply elem_of_blobs_under.
  - intros name. apply chats_not_extracted.
Qed.

Lemma mirror_stage_run (fuel : nat) (e : env) (user_id zip_name_base : string)
    (w : world) :
  let source_prefix := source_prefix_of user_id zip_name_base in
  let destination_prefix := destination_prefix_of user_id zip_name_base in
  let listed :=
    list_blobs_answer e source_prefix (blobs_under source_prefix (bucket w)) in
  mirror_stage fuel e user_id zip_name_base w =
  match listed with
  | None =>
      (Raise ListFailed,
       advance [CallListBlobs source_prefix None]
         [InfoFoundChat zip_name_base] w)
  | Some [] =>
      (Ret tt,
       advance [CallListBlobs source_prefix (Some [])]
         [InfoFoundChat zip_name_base; WarnNoBlobs source_prefix] w)
  | Some blobs =>
      match copy_run fuel e source_prefix destination_prefix blobs 0
              (bucket w) with
      | (cs, ws, Ret copy_count) =>
          if doc_set_fails e user_id zip_name_base
          then
            (Raise CacheWriteFailed,
             advance (CallListBlobs source_prefix (Some blobs) :: cs
                        ++ [CallDocSet user_id zip_name_base None])
               [InfoFoundChat zip_name_base;
                InfoCopied copy_count destination_prefix;
                InfoUpdatingCache user_id zip_name_base]
               (with_bucket (apply_writes ws (bucket w)) w))
          else
            let t := length cs + S (server_time w) in
            (Ret tt,
             World (apply_writes ws (bucket w))
               (<[(user_id, zip_name_base) := t]> (firestore w))
               (S t)
               (calls w ++ CallListBlobs source_prefix (Some blobs) :: cs
                  ++ [CallDocSet user_id zip_name_base (Some t)])
               (log w ++ [InfoFoundChat zip_name_base;
                          InfoCopied copy_count destination_prefix;
                          InfoUpdatingCache user_id zip_name_base;
                          InfoCacheUpdated zip_name_base]))
      | (cs, ws, Raise ex) =>
          (Raise ex,
           advance (CallListBlobs source_prefix (Some blobs) :: cs)
             [InfoFoundChat zip_name_base]
             (with_bucket (apply_writes ws (bucket w)) w))
      | (cs, ws, OutOfFuel) =>
          (OutOfFuel,
           advance (CallListBlobs source_prefix (Some blobs) :: cs)
             [InfoFoundChat zip_name_base]
             (with_bucket (apply_writes ws (bucket w)) w))
      end
  end.
Proof.
  intros source_prefix destination_prefix listed.
  unfold mirror_stage. fold source_prefix destination_prefix.
  unfold bind at 1, logging at 1. unfold bind at 1, list_blobs.
  cbn [bucket record_log]. fold listed.
  destruct listed as [[|nb rest]|].
  - unfold logging. f_equal; world_eq.
  - unfold bind at 1. rewrite copy_blobs_run_any.
    cbn [bucket record_call record_log].
    destruct (copy_run fuel e source_prefix destination_prefix (nb :: rest) 0
                (bucket w))
      as [[cs ws] [copy_count | ex |]].
    + unfold bind, logging, doc_set.
      destruct (doc_set_fails e user_id zip_name_base); f_equal; world_eq.
    + f_equal; world_eq.
    + f_equal; world_eq.
  - f_equal; world_eq.
Qed.

Lemma publish_stage_run (fuel : nat) (e : env)
    (file_path user_id zip_name_base zip_filename : string)
    (temp_dir : gmap string bytes) (w : world) :
  let w1 := published_world e file_path user_id zip_name_base zip_filename
              temp_dir w in
  let marker := chat_file_path user_id zip_name_base in
  let found := bool_decide (is_Some (bucket w1 !! marker)) in
  publish_stage fuel e file_path user_id zip_name_base zip_filename temp_dir w =
  if exists_fails e marker
  then (Raise ExistsFailed, advance [CallExists marker None] [] w1)
  else if found
  then mirror_stage fuel e user_id zip_name_base
         (advance [CallExists marker (Some true)] [] w1)
  else (Ret tt,
        advance [CallExists marker (Some false)] [InfoNoChat marker] w1).
Proof.
  intros w1 marker found. unfold publish_stage.
  unfold bind at 1, logging at 1. unfold bind at 1.
  rewrite upload_files_run. cbn zeta.
  unfold bind at 1, logging at 1. unfold bind at 1, blob_exists.
  fold marker.
  set (w1' := record_log _ _).
  assert (Hw1 : w1' = w1).
  { subst w1' w1. unfold published_world, published_bucket. world_eq. }
  rewrite Hw1.
  destruct (exists_fails e marker); [f_equal; world_eq |].
  fold found.
  destruct found.
  - f_equal; world_eq.
  - unfold logging. f_equal; world_eq.
Qed.

Lemma chat_file_path_prefix (user_id zip_name_base : string) :
  chat_file_path user_id zip_name_base
  = (source_prefix_of user_id zip_name_base +:+ "_chat.txt")%string.
Proof. apply (extracted_blob_name_prefix user_id zip_name_base "_chat.txt"). Qed.

(** ** Routing *)

Lemma not_zip_upload_false (key : string) :
  not_zip_upload key (split "/"%char key) = false <-> eligible_key key.
Proof.
  unfold not_zip_upload, eligible_key.
  rewrite !orb_false_iff, !negb_false_iff, Nat.ltb_ge, String.eqb_eq.
  tauto.
Qed.

Lemma not_zip_upload_true (key : string) :
  not_zip_upload key (split "/"%char key) = true <-> ~ eligible_key key.
Proof.
  rewrite <- not_zip_upload_false. by destruct (not_zip_upload _ _).
Qed.

Lemma uploads_not_intermediate (key : string) (parts : list string) :
  not_zip_upload key parts = false -> in_intermediate_dir parts = false.
Proof.
  unfold not_zip_upload, in_intermediate_dir. intros H.
  rewrite !orb_false_iff, !negb_false_iff, String.eqb_eq in H.
  destruct H as [[[_ _] ->] _]. reflexivity.
Qed.

Lemma extract_zip_run (fuel : nat) (e : env) (event : StorageObjectData)
    (w : world) :
  let key := data_name event in
  let zip_filename := zip_filename_of key in
  let w0 := advance [] [InfoProcessing (data_bucket event) key] w in
  extract_zip fuel e event w =
  if not_zip_upload key (split "/"%char key)
  then (Ret tt, advance [] [InfoSkipNotZipUpload key] w0)
  else if download_fails e key
  then (Ret tt,
        advance [CallDownload key] [InfoDownloading key; ErrorDownload key] w0)
  else match bucket w !! key with
       | None =>
           (Ret tt,
            advance [CallDownload key]
              [InfoDownloading key; ErrorDownload key] w0)
       | Some b =>
           match extractall e zip_filename (blob_data b) with
           | NotAZip =>
               (Ret tt,
                advance [CallDownload key]
                  [InfoDownloading key; InfoDownloaded key;
                   InfoExtracting zip_filename; ErrorBadZip zip_filename] w0)
           | DecodeError =>
               (Ret tt,
                advance [CallDownload key]
                  [InfoDownloading key; InfoDownloaded key;
                   InfoExtracting zip_filename; ErrorExtract zip_filename] w0)
           | Entries files =>
               publish_stage fuel e key (user_id_of key) (zip_name_base_of key)
                 zip_filename
                 (foldl write_file {[ zip_filename := blob_data b ]} files)
                 (advance [CallDownload key]
                    [InfoDownloading key; InfoDownloaded key;
                     InfoExtracting zip_filename; InfoExtracted zip_filename]
                    w0)
           end
       end.
Proof.
  intros key zip_filename w0. unfold extract_zip. fold key.
  unfold bind at 1, logging at 1.
  destruct (not_zip_upload key (split "/"%char key)) eqn:Hskip.
  { unfold logging. f_equal. subst w0. world_eq. }
  rewrite (uploads_not_intermediate _ _ Hskip).
  unfold bind at 1. rewrite download_stage_run. cbn [bucket record_log].
  destruct (download_fails e key).
  { unfold ret. f_equal. subst w0. world_eq. }
  destruct (bucket w !! key) as [b|].
  2: { unfold ret. f_equal. subst w0. world_eq. }
  unfold bind at 1. rewrite extract_stage_run.
  fold (zip_filename_of key). fold zip_filename.
  destruct (extractall e zip_filename (blob_data b)).
  - f_equal. subst w0. world_eq.
  - unfold ret. f_equal. subst w0. world_eq.
  - unfold ret. f_equal. subst w0. world_eq.
Qed.

(** When the marker exists, there is an object under the extracted prefix:
    the warning branch of line 133 needs a listing that disagrees with the
    marker check. *)
Lemma marker_listed (user_id zip_name_base : string) (b : gmap string blob) :
  is_Some (b !! chat_file_path user_id zip_name_base) ->
  blobs_under (source_prefix_of user_id zip_name_base) b <> [].
Proof.
  intros [o Ho] Hnil.
  assert (Hin : (chat_file_path user_id zip_name_base, o)
                ∈ blobs_under (source_prefix_of user_id zip_name_base) b).
  { apply elem_of_blobs_under. split; [done |].
    rewrite chat_file_path_prefix. apply startswith_append. }
  rewrite Hnil in Hin. by apply elem_of_nil in Hin.
Qed.

Lemma publish_stage_closed (fuel : nat) (e : env)
    (file_path user_id zip_name_base zip_filename : string)
    (temp_dir : gmap string bytes) (w : world) :
  let w1 := published_world e file_path user_id zip_name_base zip_filename
              temp_dir w in
  let source_prefix := source_prefix_of user_id zip_name_base in
  let destination_prefix := destination_prefix_of user_id zip_name_base in
  let marker := chat_file_path user_id zip_name_base in
  let checked := CallExists marker (Some true) in
  publish_stage fuel e file_path user_id zip_name_base zip_filename temp_dir w =
  if exists_fails e marker
  then (Raise ExistsFailed, advance [CallExists marker None] [] w1)
  else if bool_decide (is_Some (bucket w1 !! marker)) then
    match list_blobs_answer e source_prefix
            (blobs_under source_prefix (bucket w1)) with
    | None =>
        (Raise ListFailed,
         advance [checked; CallListBlobs source_prefix None]
           [InfoFoundChat zip_name_base] w1)
    | Some [] =>
        (Ret tt,
         advance [checked; CallListBlobs source_prefix (Some [])]
           [InfoFoundChat zip_name_base; WarnNoBlobs source_prefix] w1)
    | Some blobs =>
        let listed := CallListBlobs source_prefix (Some blobs) in
        match copy_run fuel e source_prefix destination_prefix blobs 0
                (bucket w1) with
        | (cs, ws, Ret copy_count) =>
            if doc_set_fails e user_id zip_name_base
            then
              (Raise CacheWriteFailed,
               advance (checked :: listed :: cs
                          ++ [CallDocSet user_id zip_name_base None])
                 [InfoFoundChat zip_name_base;
                  InfoCopied copy_count destination_prefix;
                  InfoUpdatingCache user_id zip_name_base]
                 (with_bucket (apply_writes ws (bucket w1)) w1))
            else
              let t := length cs + S (S (server_time w1)) in
              (Ret tt,
               World (apply_writes ws (bucket w1))
                 (<[(user_id, zip_name_base) := t]> (firestore w1))
                 (S t)
                 (calls w1 ++ checked :: listed
                    :: cs ++ [CallDocSet user_id zip_name_base (Some t)])
                 (log w1 ++ [InfoFoundChat zip_name_base;
                             InfoCopied copy_count destination_prefix;
                             InfoUpdatingCache user_id zip_name_base;
                             InfoCacheUpdated zip_name_base]))
        | (cs, ws, Raise ex) =>
            (Raise ex,
             advance (checked :: listed :: cs) [InfoFoundChat zip_name_base]
               (with_bucket (apply_writes ws (bucket w1)) w1))
        | (cs, ws, OutOfFuel) =>
            (OutOfFuel,
             advance (checked :: listed :: cs) [InfoFoundChat zip_name_base]
               (with_bucket (apply_writes ws (bucket w1)) w1))
        end
    end
  else (Ret tt,
        advance [CallExists marker (Some false)] [InfoNoChat marker] w1).
Proof.
  intros w1 source_prefix destination_prefix marker checked.
  rewrite publish_stage_run. cbn zeta. fold w1 marker.
  destruct (exists_fails e marker); [done |].
  destruct (bool_decide (is_Some (bucket w1 !! marker))); [| done].
  rewrite mirror_stage_run. cbn zeta.
  fold source_prefix destination_prefix.
  cbn [bucket advance].
  destruct (list_blobs_answer e source_prefix
              (blobs_under source_prefix (bucket w1))) as [[|nb rest]|].
  - f_equal; world_eq.
  - destruct (copy_run fuel e source_prefix destination_prefix (nb :: rest) 0
                (bucket w1))
      as [[cs ws] [copy_count | ex |]];
      [destruct (doc_set_fails e user_id zip_name_base) | |]; f_equal; world_eq.
  - f_equal; world_eq.
Qed.

(** Case analysis on the closed form of the publish stage. *)
Ltac publish_cases :=
  rewrite publish_stage_closed; cbn zeta;
  destruct (exists_fails _ _);
  [| destruct (bool_decide _);
     [destruct (list_blobs_answer _ _ _) as [[|? ?]|];
      [| destruct (copy_run _ _ _ _ _ _ _) as [[? ?] [? | ? |]];
         [destruct (doc_set_fails _ _ _) | |] |] |]];
  unfold published_world;
  cbn [snd bucket firestore server_time calls log advance with_bucket];
  rewrite <- ?app_assoc.

Lemma publish_stage_calls (fuel : nat) (e : env)
    (file_path user_id zip_name_base zip_filename : string)
    (temp_dir : gmap string bytes) (w : world) :
  exists cs,
    calls (publish_stage fuel e file_path user_id zip_name_base zip_filename
             temp_dir w).2 = calls w ++ cs.
Proof. publish_cases; by eexists. Qed.

Ltac elem_of_norm :=
  repeat (rewrite elem_of_cons || rewrite elem_of_app
          || rewrite list_elem_of_fmap || rewrite elem_of_nil).

Ltac refute_elem :=
  let H := fresh in
  intros H; decompose [Logic.or Logic.ex Logic.and] H; done.

Lemma publish_stage_no_skip_record (fuel : nat) (e : env)
    (file_path user_id zip_name_base zip_filename : string)
    (temp_dir : gmap string bytes) (w : world) (key : string) :
  exists ls,
    log (publish_stage fuel e file_path user_id zip_name_base zip_filename
           temp_dir w).2 = log w ++ ls
    /\ InfoSkipIntermediate key ∉ ls.
Proof.
  publish_cases; (eexists; split; [reflexivity |]);
    elem_of_norm; unfold upload_error; refute_elem.
Qed.

(** C2. A key runs the pipeline past routing exactly when it starts with
    [user/], has at least four segments, has [uploads] as segment 2 and ends
    in [.zip] whatever the case: the download, the first later stage, is
    called if and only if the key is eligible; for any other key the handler
    returns at once, makes no call on the bucket or the document store, and
    leaves both as they were. *)
Theorem routing_gate (fuel : nat) (e : env) (event : StorageObjectData)
    (w : world) :
  let key := data_name event in
  let r := extract_zip fuel e event w in
  (eligible_key key <->
   exists rest, calls_since w r.2 = CallDownload key :: rest)
  /\ (~ eligible_key key ->
      r.1 = Ret tt
      /\ calls_since w r.2 = []
      /\ bucket r.2 = bucket w
      /\ firestore r.2 = firestore w
      /\ log_since w r.2 = [InfoProcessing (data_bucket event) key;
                            InfoSkipNotZipUpload key]).
Proof.
  intros key r.
  assert (Hskip : ~ eligible_key key ->
            r = (Ret tt,
                 advance [] [InfoSkipNotZipUpload key]
                   (advance [] [InfoProcessing (data_bucket event) key] w))).
  { intros Hne. subst r. rewrite extract_zip_run. cbn zeta. fold key.
    apply not_zip_upload_true in Hne. by rewrite Hne. }
  assert (Hrun : eligible_key key ->
            exists rest, calls r.2 = calls w ++ CallDownload key :: rest).
  { intros Hel. subst r. rewrite extract_zip_run. cbn zeta. fold key.
    apply not_zip_upload_false in Hel. rewrite Hel.
    assert (Hshort : forall ls ls' : list log_record,
              exists rest,
                calls (advance [CallDownload key] ls (advance [] ls' w))
                = calls w ++ CallDownload key :: rest).
    { intros ls ls'. exists []. cbn [calls advance]. by rewrite app_nil_r. }
    destruct (download_fails e key); [apply Hshort |].
    destruct (bucket w !! key) as [b|]; [| apply Hshort].
    destruct (extractall e _ (blob_data b)); [| apply Hshort | apply Hshort].
    match goal with
    | |- context [publish_stage ?f ?e ?p ?u ?b ?z ?t ?w0] =>
        destruct (publish_stage_calls f e p u b z t w0) as [cs Hcs]
    end.
    rewrite Hcs. cbn [calls advance]. rewrite app_nil_r, <- app_assoc.
    by eexists. }
  split; [split |].
  - intros Hel. destruct (Hrun Hel) as [rest Hrest].
    exists rest. by apply calls_since_advance.
  - intros [rest Hrest].
    destruct (decide (not_zip_upload key (split "/"%char key) = false))
      as [Hel | Hne]; [by apply not_zip_upload_false |].
    apply not_false_iff_true in Hne.
    exfalso. apply not_zip_upload_true in Hne.
    rewrite (Hskip Hne) in Hrest. unfold calls_since in Hrest.
    cbn [snd calls advance] in Hrest.
    rewrite !app_nil_r, drop_all in Hrest. done.
  - intros Hne. rewrite (Hskip Hne). cbn [fst snd bucket firestore advance].
    repeat split.
    + apply calls_since_advance. cbn [calls advance]. by rewrite !app_nil_r.
    + apply log_since_advance. cbn [log advance]. by rewrite <- app_assoc.
Qed.

(** C10. The loop-prevention test on segment 2 ([extracted] or [chats])
    never succeeds for a key that passed the eligibility test, which requires
    segment 2 to be [uploads]; no run takes that branch (none logs its
    message). *)
Theorem loop_guard_unreachable :
  (forall key parts,
     not_zip_upload key parts = false -> in_intermediate_dir parts = false)
  /\ (forall fuel e event w,
        InfoSkipIntermediate (data_name event)
          ∉ log_since w (extract_zip fuel e event w).2).
Proof.
  split; [apply uploads_not_intermediate |].
  intros fuel e event w.
  rewrite extract_zip_run. cbn zeta.
  set (key := data_name event).
  assert (Hshort : forall (cs : list call) (l : list log_record),
            InfoSkipIntermediate key ∉ l ->
            InfoSkipIntermediate key
              ∉ log_since w
                  (advance cs l
                     (advance [] [InfoProcessing (data_bucket event) key] w))).
  { intros cs l Hl.
    erewrite log_since_advance;
      [| cbn [log advance]; by rewrite <- app_assoc].
    elem_of_norm. refute_elem. }
  destruct (not_zip_upload key (split "/"%char key)).
  { apply Hshort. elem_of_norm. refute_elem. }
  destruct (download_fails e key).
  { apply Hshort. elem_of_norm. refute_elem. }
  destruct (bucket w !! key) as [b|].
  2: { apply Hshort. elem_of_norm. refute_elem. }
  destruct (extractall e _ (blob_data b)).
  - match goal with
    | |- context [publish_stage ?f ?e ?p ?u ?b ?z ?t ?w0] =>
        destruct (publish_stage_no_skip_record f e p u b z t w0 key)
          as (ls & Hls & Hno)
    end.
    erewrite log_since_advance;
      [| rewrite Hls; cbn [log advance]; by rewrite <- !app_assoc].
    elem_of_norm. refute_elem.
  - apply Hshort. elem_of_norm. refute_elem.
  - apply Hshort. elem_of_norm. refute_elem.
Qed.

(** ** Every run has a shape *)

Lemma extract_zip_shape (fuel : nat) (e : env) (event : StorageObjectData)
    (w : world) :
  run_shape fuel e event w
    (extract_zip fuel e event w).1 (extract_zip fuel e event w).2.
Proof.
  rewrite extract_zip_run. cbn zeta.
  fold (run_key event) (run_zip_filename event).
  destruct (not_zip_upload (run_key event) (split "/"%char (run_key event)))
    eqn:Hroute.
  { apply not_zip_upload_true in Hroute.
    apply shape_skipped; [done | done | done |].
    apply calls_since_advance. cbn [snd calls advance]. by rewrite !app_nil_r. }
  apply not_zip_upload_false in Hroute.
  assert (Hstop : forall ls ls' : list log_record,
            calls_since w
              (advance [CallDownload (run_key event)] ls (advance [] ls' w))
            = [CallDownload (run_key event)]).
  { intros ls ls'. apply calls_since_advance.
    cbn [calls advance]. by rewrite app_nil_r. }
  destruct (download_fails e (run_key event)) eqn:Hdl.
  { apply shape_stopped; auto; apply Hstop. }
  destruct (bucket w !! run_key event) as [b|] eqn:Hb.
  2: { apply shape_stopped; auto; apply Hstop. }
  destruct (extractall e (run_zip_filename event) (blob_data b))
    as [files | |] eqn:Hex.
  2: { apply shape_stopped; eauto 10; apply Hstop. }
  2: { apply shape_stopped; eauto 10; apply Hstop. }
  assert (Hext : extracted e event w b files) by done.
  rewrite publish_stage_closed. cbn zeta.
  fold (run_user_id event) (run_zip_name_base event).
  fold (run_temp_dir event b files).
  fold (run_source_prefix event) (run_destination_prefix event)
    (run_marker event).
  set (w0 := advance [CallDownload (run_key event)] _ _).
  set (w1 := published_world _ _ _ _ _ _ w0).
  assert (Hb1 : bucket w1 = run_published e event w b files) by done.
  assert (Hc1 : calls w1
                = calls w ++ CallDownload (run_key event)
                    :: run_uploads e event b files).
  { subst w1 w0. unfold published_world. cbn [calls advance with_bucket].
    by rewrite app_nil_r, <- app_assoc. }
  assert (Hl1 : log w1 = log w ++ run_log e event b files []).
  { subst w1 w0. unfold published_world, run_log.
    cbn [log advance with_bucket]. rewrite <- !app_assoc. done. }
  assert (Ht1 : server_time w <= server_time w1).
  { subst w1 w0. unfold published_world.
    cbn [server_time advance with_bucket]. lia. }
  assert (Hf1 : firestore w1 = firestore w) by done.
  rewrite Hb1.
  assert (Hlog : forall (tail : list log_record) w',
            log w' = log w1 ++ tail ->
            log_since w w' = run_log e event b files tail).
  { intros tail w' Hw'. apply log_since_advance. rewrite Hw', Hl1.
    unfold run_log. rewrite <- !app_assoc. done. }
  assert (Hcalls : forall (tail : list call) w',
            calls w' = calls w1 ++ tail ->
            calls_since w w' = run_calls e event b files tail).
  { intros tail w' Hw'. apply calls_since_advance. rewrite Hw', Hc1.
    unfold run_calls. rewrite <- !app_assoc. done. }
  clearbody w1. clear w0.
  destruct (exists_fails e (run_marker event)) eqn:Hcheck.
  { eapply shape_check_raised; eauto. }
  destruct (bool_decide (is_Some (run_published e event w b files
                                    !! run_marker event))) eqn:Hfound.
  - apply bool_decide_eq_true in Hfound.
    destruct (list_blobs_answer e (run_source_prefix event)
                (blobs_under (run_source_prefix event)
                   (run_published e event w b files)))
      as [[|nb rest]|] eqn:Hlist.
    + eapply shape_nothing_listed; eauto.
    + destruct (copy_run fuel e (run_source_prefix event)
                  (run_destination_prefix event) (nb :: rest) 0
                  (run_published e event w b files))
        as [[cs ws] [copy_count | ex |]] eqn:Hplan.
      * destruct (doc_set_fails e (run_user_id event)
                    (run_zip_name_base event)) eqn:Hdoc.
        -- eapply shape_cache_raised; eauto.
        -- eapply shape_mirrored
             with (t := length cs + S (S (server_time w1)));
             eauto; cbn [snd firestore]; try lia; by rewrite ?Hf1.
      * eapply shape_copy_raised; eauto.
      * eapply shape_copy_unfinished; eauto.
    + eapply shape_listing_raised; eauto.
  - apply bool_decide_eq_false in Hfound.
    rewrite <- eq_None_not_Some in Hfound.
    eapply shape_no_marker; eauto.
Qed.

(** ** The chunk loop and the copy loop *)

Lemma chunks_chain (n : nat) (e : env) (source destination : string)
    (tok : option token) (cs : list call) :
  token_chain e source destination tok cs ->
  length cs <= n ->
  chunks n e source destination tok = (cs, Ret tt).
Proof.
  intros Hchain. revert n.
  induction Hchain as [tok Hresp | tok t cs Hresp Hchain IH]; intros n Hn.
  - destruct n as [|n]; [cbn in Hn; lia |]. cbn. by rewrite Hresp.
  - destruct n as [|n]; [cbn in Hn; lia |]. cbn [chunks]. rewrite Hresp.
    rewrite IH by (cbn in Hn; lia). done.
Qed.

Lemma chunks_Ret (n : nat) (e : env) (source destination : string)
    (tok : option token) (cs : list call) (u : unit) :
  chunks n e source destination tok = (cs, Ret u) ->
  token_chain e source destination tok cs.
Proof.
  revert tok cs; induction n as [|n IH]; intros tok cs; [done |].
  cbn [chunks].
  destruct (rewrite_response_of e source destination tok) as [[t|]|] eqn:Hresp.
  - destruct (chunks n e source destination (Some t)) as [cs' o] eqn:Hrec.
    intros [= <- ->]. apply chain_more; [done |]. by eapply IH.
  - intros [= <- _]. by apply chain_done.
  - done.
Qed.

Lemma token_chain_no_error (e : env) (source destination : string)
    (tok : option token) (cs : list call) :
  token_chain e source destination tok cs ->
  Forall (fun c => is_copy_error c = false) cs.
Proof. induction 1; by constructor. Qed.

Lemma token_chain_last (e : env) (source destination : string)
    (tok : option token) (cs : list call) :
  token_chain e source destination tok cs ->
  exists tok', CallRewrite source destination tok' (Rewritten None) ∈ cs.
Proof.
  induction 1 as [tok Hresp | tok t cs Hresp Hchain [tok' IH]].
  - exists tok. by left.
  - exists tok'. by right.
Qed.

Lemma chunks_outcome (n : nat) (e : env) (source destination : string)
    (tok : option token) :
  match chunks n e source destination tok with
  | (cs, Raise ex) =>
      ex = CopyFailed
      /\ exists pre c, cs = pre ++ [c]
           /\ is_copy_error c = true
           /\ Forall (fun c => is_copy_error c = false) pre
  | (cs, _) => Forall (fun c => is_copy_error c = false) cs
  end.
Proof.
  revert tok; induction n as [|n IH]; intros tok; [by constructor |].
  cbn [chunks].
  destruct (rewrite_response_of e source destination tok) as [[t|]|] eqn:Hresp.
  - specialize (IH (Some t)).
    destruct (chunks n e source destination (Some t)) as [cs [[]| ex |]].
    + by constructor.
    + destruct IH as (-> & pre & c & -> & Hc & Hpre). split; [done |].
      exists (CallRewrite source destination tok (Rewritten (Some t)) :: pre), c.
      repeat split; [done |]. by constructor.
    + by constructor.
  - by repeat constructor.
  - split; [done |]. exists [], (CallRewrite source destination tok RewriteError).
    by repeat split.
Qed.

Lemma chunks_rewrites (n : nat) (e : env) (source destination : string)
    (tok : option token) :
  Forall (fun c => is_rewrite c = true) (chunks n e source destination tok).1.
Proof.
  revert tok; induction n as [|n IH]; intros tok; [by constructor |].
  cbn [chunks].
  destruct (rewrite_response_of e source destination tok) as [[t|]|].
  - specialize (IH (Some t)).
    destruct (chunks n e source destination (Some t)) as [cs o].
    by constructor.
  - by repeat constructor.
  - by repeat constructor.
Qed.

Section CopyPlan.
Context (fuel : nat) (e : env) (source_prefix destination_prefix : string).

Lemma copy_plan_rewrites (blobs : list (string * blob)) (copy_count : nat) :
  Forall (fun c => is_rewrite c = true)
    (copy_plan fuel e source_prefix destination_prefix blobs copy_count).1.1.
Proof.
  revert copy_count; induction blobs as [|[name o] rest IH]; intros copy_count;
    [by constructor |].
  cbn [copy_plan].
  pose proof (chunks_rewrites (S fuel) e name
                (mirrored_blob_name source_prefix destination_prefix name)
                None) as Hcs.
  destruct (chunks (S fuel) e name _ None) as [cs [[]| ex |]]; [| done | done].
  specialize (IH (S copy_count)).
  destruct (copy_plan fuel e source_prefix destination_prefix rest
              (S copy_count)) as [[cs' ws] o'].
  cbn [fst] in *. by apply Forall_app.
Qed.

(** The objects created are the mirror images of a prefix of the listing. *)
Lemma copy_plan_writes (blobs : list (string * blob)) (copy_count : nat) :
  exists done_ rest,
    blobs = done_ ++ rest
    /\ (copy_plan fuel e source_prefix destination_prefix blobs copy_count).1.2
       = mirror_write source_prefix destination_prefix <$> done_.
Proof.
  revert copy_count; induction blobs as [|[name o] rest IH]; intros copy_count.
  - by exists [], [].
  - cbn [copy_plan].
    destruct (chunks (S fuel) e name _ None) as [cs [[]| ex |]].
    + destruct (IH (S copy_count)) as (done_ & rest' & -> & Hws).
      destruct (copy_plan fuel e source_prefix destination_prefix
                  (done_ ++ rest') (S copy_count)) as [[cs' ws] o'].
      cbn [fst snd] in *. exists ((name, o) :: done_), rest'.
      split; [done |]. by rewrite Hws.
    + by exists [], ((name, o) :: rest).
    + by exists [], ((name, o) :: rest).
Qed.

(** A copy loop that returns has copied every listed object, each by a
    chain of calls that ends without a token. *)
Lemma copy_plan_Ret (blobs : list (string * blob)) (copy_count n : nat)
    (cs : list call) (ws : list (string * blob)) :
  copy_plan fuel e source_prefix destination_prefix blobs copy_count
    = (cs, ws, Ret n) ->
  n = copy_count + length blobs
  /\ ws = (mirror_write source_prefix destination_prefix <$> blobs)
  /\ Forall (fun c => is_copy_error c = false) cs
  /\ (forall name o, (name, o) ∈ blobs ->
        exists tok,
          CallRewrite name
            (mirrored_blob_name source_prefix destination_prefix name)
            tok (Rewritten None) ∈ cs).
Proof.
  revert copy_count cs ws; induction blobs as [|[name o] rest IH];
    intros copy_count cs ws.
  - cbn. intros [= <- <- <-]. repeat split; [lia | constructor |].
    intros name o Hin. by apply elem_of_nil in Hin.
  - cbn [copy_plan].
    destruct (chunks (S fuel) e name _ None) as [cs0 [[]| ex |]] eqn:Hch;
      [| done | done].
    destruct (copy_plan fuel e source_prefix destination_prefix rest
                (S copy_count)) as [[cs' ws'] o'] eqn:Hrec.
    intros [= <- <- ->].
    destruct (IH _ _ _ Hrec) as (-> & -> & Hne & Hall).
    apply chunks_Ret in Hch.
    repeat split.
    + cbn [length]. lia.
    + apply Forall_app. split; [by eapply token_chain_no_error | done].
    + intros name' o'' [[= -> ->] | Hin]%elem_of_cons.
      * destruct (token_chain_last _ _ _ _ _ Hch) as [tok Htok].
        exists tok. apply elem_of_app. by left.
      * destruct (Hall _ _ Hin) as [tok Htok].
        exists tok. apply elem_of_app. by right.
Qed.

(** A copy loop that does not return made no call after the one that
    raised, or ran out of fuel without any call raising. *)
Lemma copy_plan_not_Ret (blobs : list (string * blob)) (copy_count : nat) :
  match copy_plan fuel e source_prefix destination_prefix blobs copy_count with
  | (cs, _, Ret _) => Forall (fun c => is_copy_error c = false) cs
  | (cs, _, Raise ex) =>
      ex = CopyFailed
      /\ exists pre c, cs = pre ++ [c]
           /\ is_copy_error c = true
           /\ Forall (fun c => is_copy_error c = false) pre
  | (cs, _, OutOfFuel) => Forall (fun c => is_copy_error c = false) cs
  end.
Proof.
  revert copy_count; induction blobs as [|[name o] rest IH]; intros copy_count;
    [by constructor |].
  cbn [copy_plan].
  pose proof (chunks_outcome (S fuel) e name
                (mirrored_blob_name source_prefix destination_prefix name)
                None) as Hcs.
  destruct (chunks (S fuel) e name _ None) as [cs [[]| ex |]];
    [| done | done].
  specialize (IH (S copy_count)).
  destruct (copy_plan fuel e source_prefix destination_prefix rest
              (S copy_count)) as [[cs' ws] [n | ex |]].
  - by apply Forall_app.
  - destruct IH as (-> & pre & c & -> & Hc & Hpre). split; [done |].
    exists (cs ++ pre), c. rewrite app_assoc. repeat split; [done |].
    by apply Forall_app.
  - by apply Forall_app.
Qed.

(** When every listed copy completes within the fuel, the loop returns. *)
Lemma copy_plan_complete (blobs : list (string * blob)) (copy_count : nat) :
  (forall name o, (name, o) ∈ blobs ->
     exists cs,
       token_chain e name
         (mirrored_blob_name source_prefix destination_prefix name) None cs
       /\ length cs <= S fuel) ->
  exists cs,
    copy_plan fuel e source_prefix destination_prefix blobs copy_count
    = (cs, mirror_write source_prefix destination_prefix <$> blobs,
       Ret (copy_count + length blobs)).
Proof.
  revert copy_count; induction blobs as [|[name o] rest IH];
    intros copy_count Hall.
  - exists []. cbn. do 2 f_equal. lia.
  - destruct (Hall name o) as (cs & Hchain & Hlen); [by left |].
    cbn [copy_plan]. rewrite (chunks_chain _ _ _ _ _ _ Hchain Hlen).
    destruct (IH (S copy_count)) as [cs' Hrec].
    { intros name' o' Hin. apply (Hall name' o'). by right. }
    rewrite Hrec. exists (cs ++ cs'). cbn [length]. do 2 f_equal. lia.
Qed.
End CopyPlan.

(** ** Where the two loops write *)

Section Prefixes.
Context (e : env) (user_id zip_name_base : string).

Abbreviation source_prefix := (source_prefix_of user_id zip_name_base).
Abbreviation destination_prefix := (destination_prefix_of user_id zip_name_base).

Lemma mirrored_blob_name_append (rel : string) :
  mirrored_blob_name source_prefix destination_prefix
    (source_prefix +:+ rel)%string
  = (destination_prefix +:+ rel)%string.
Proof. unfold mirrored_blob_name. by rewrite slice_from_append. Qed.

Lemma mirrored_not_listed (name : string) :
  startswith source_prefix
    (mirrored_blob_name source_prefix destination_prefix name) = false.
Proof. apply chats_not_extracted. Qed.

Lemma mirror_keys_fresh (blobs : list (string * blob)) (name : string) :
  startswith source_prefix name = true ->
  name ∉ (mirror_write source_prefix destination_prefix <$> blobs).*1.
Proof.
  intros Hpre Hin.
  rewrite <- list_fmap_compose in Hin.
  apply list_elem_of_fmap in Hin as (nb & -> & _).
  cbn in Hpre. by rewrite mirrored_not_listed in Hpre.
Qed.

Lemma mirror_keys_NoDup (blobs : list (string * blob)) :
  NoDup blobs.*1 ->
  (forall name o, (name, o) ∈ blobs -> startswith source_prefix name = true) ->
  NoDup (mirror_write source_prefix destination_prefix <$> blobs).*1.
Proof.
  induction blobs as [|[name o] rest IH]; intros Hnd Hpre; [constructor |].
  rewrite fmap_cons in Hnd. apply NoDup_cons in Hnd as [Hname Hnd].
  rewrite !fmap_cons. cbn [fst mirror_write]. apply NoDup_cons. split.
  - intros Hin. apply Hname.
    rewrite <- list_fmap_compose in Hin.
    apply list_elem_of_fmap in Hin as ([name' o'] & Heq & Hin').
    cbn in Heq.
    destruct (startswith_inv _ _ (Hpre name o ltac:(by left))) as [r ->].
    destruct (startswith_inv _ _ (Hpre name' o' ltac:(by right))) as [r' ->].
    rewrite !mirrored_blob_name_append in Heq.
    apply append_inv_head in Heq as ->.
    apply list_elem_of_fmap. by exists (source_prefix +:+ r', o')%string.
  - apply IH; [done |]. intros name' o' Hin. apply (Hpre name' o'). by right.
Qed.

Lemma upload_keys_listed (files : list (string * bytes)) (name : string) :
  name ∈ (upload_write e user_id zip_name_base <$> files).*1 ->
  startswith source_prefix name = true.
Proof.
  rewrite <- list_fmap_compose.
  intros (f & -> & _)%list_elem_of_fmap. cbn.
  rewrite extracted_blob_name_prefix. apply startswith_append.
Qed.

Lemma upload_keys_NoDup (files : list (string * bytes)) :
  NoDup files.*1 ->
  NoDup (upload_write e user_id zip_name_base <$> files).*1.
Proof.
  induction files as [|[rel data] rest IH]; intros Hnd; [constructor |].
  rewrite fmap_cons in Hnd. apply NoDup_cons in Hnd as [Hrel Hnd].
  rewrite !fmap_cons. cbn [fst upload_write]. apply NoDup_cons. split.
  - intros Hin. apply Hrel.
    rewrite <- list_fmap_compose in Hin.
    apply list_elem_of_fmap in Hin as ([rel' data'] & Heq & Hin').
    cbn in Heq. rewrite !extracted_blob_name_prefix in Heq.
    apply append_inv_head in Heq as ->.
    apply list_elem_of_fmap. by exists (rel', data').
  - by apply IH.
Qed.
End Prefixes.

Lemma NoDup_fst_filter {A B : Type} (P : A * B -> Prop)
    `{!forall x, Decision (P x)} (l : list (A * B)) :
  NoDup l.*1 -> NoDup (filter P l).*1.
Proof.
  intros Hnd. apply (sublist_NoDup (filter P l).*1 l.*1); [done |].
  apply fmap_sublist, sublist_filter.
Qed.

Section Published.
Context (e : env) (user_id zip_name_base zip_filename : string)
        (temp_dir : gmap string bytes) (b : gmap string blob).

Abbreviation source_prefix := (source_prefix_of user_id zip_name_base).
Abbreviation stored :=
  (filter (accepted e user_id zip_name_base)
     (upload_candidates zip_filename (walk temp_dir))).

Lemma stored_NoDup : NoDup stored.*1.
Proof.
  unfold upload_candidates, walk.
  do 2 apply NoDup_fst_filter. apply NoDup_fst_map_to_list.
Qed.

(** Publishing changes nothing outside the extracted prefix. *)
Lemma published_bucket_other (name : string) :
  startswith source_prefix name = false ->
  published_bucket e user_id zip_name_base zip_filename temp_dir b !! name
  = b !! name.
Proof.
  intros Hpre. unfold published_bucket.
  apply lookup_apply_writes_None. intros Hin.
  apply upload_keys_listed in Hin. congruence.
Qed.

(** Every accepted upload is in the bucket at the marker check. *)
Lemma published_bucket_stored (f : string * bytes) :
  f ∈ stored ->
  published_bucket e user_id zip_name_base zip_filename temp_dir b
    !! extracted_blob_name user_id zip_name_base f.1
  = Some (Blob f.2 (guess_content_type e f.1)).
Proof.
  intros Hin. unfold published_bucket.
  apply lookup_apply_writes_Some.
  - apply upload_keys_NoDup, stored_NoDup.
  - apply list_elem_of_fmap. by exists f.
Qed.
End Published.

Section Mirrored.
Context (user_id zip_name_base : string) (b1 : gmap string blob).

Abbreviation source_prefix := (source_prefix_of user_id zip_name_base).
Abbreviation destination_prefix := (destination_prefix_of user_id zip_name_base).

(** Copying changes nothing under the extracted prefix. *)
Lemma mirrored_bucket_listed (blobs : list (string * blob)) (name : string) :
  startswith source_prefix name = true ->
  apply_writes (mirror_write source_prefix destination_prefix <$> blobs) b1
    !! name = b1 !! name.
Proof.
  intros Hpre. apply lookup_apply_writes_None. by apply mirror_keys_fresh.
Qed.

(** Every copied object is an identical copy: content and metadata. *)
Lemma mirrored_bucket_copy (done_ rest : list (string * blob)) name o :
  blobs_under source_prefix b1 = done_ ++ rest ->
  (name, o) ∈ done_ ->
  apply_writes (mirror_write source_prefix destination_prefix <$> done_) b1
    !! mirrored_blob_name source_prefix destination_prefix name = Some o.
Proof.
  intros Hlist Hin.
  pose proof (NoDup_blobs_under source_prefix b1) as Hnd.
  rewrite Hlist, fmap_app in Hnd. apply NoDup_app in Hnd as (Hnd & _ & _).
  apply lookup_apply_writes_Some.
  - apply mirror_keys_NoDup; [done |].
    intros name' o' Hin'.
    assert (Hl : (name', o') ∈ blobs_under source_prefix b1)
      by (rewrite Hlist; apply elem_of_app; by left).
    by apply elem_of_blobs_under in Hl as [_ ?].
  - apply list_elem_of_fmap. by exists (name, o).
Qed.
End Mirrored.

(** ** The continuation loop *)

(** C9. The copy of one object calls [rewrite] again with each returned
    token and stops only at a call that returns no token: a copy that
    returns has made exactly such a chain of calls and has stored the object;
    and when the collaborator does end the chain with a missing token (within
    the fuel), the copy returns after exactly those calls with the object
    stored under the mirrored name, and the loop counts it and goes on with
    the next object. *)
Theorem chunked_copy_terminates (fuel : nat) (e : env)
    (source_prefix destination_prefix name : string) (o : blob)
    (rest : list (string * blob)) (copy_count : nat) (w : world) :
  bucket w !! name = Some o ->
  let destination :=
    mirrored_blob_name source_prefix destination_prefix name in
  (forall w',
     rewrite_blob fuel e destination name w = (Ret tt, w') ->
     exists cs,
       token_chain e name destination None cs
       /\ calls_since w w' = cs
       /\ bucket w' = <[destination := o]> (bucket w))
  /\ (forall cs,
        token_chain e name destination None cs ->
        length cs <= S fuel ->
        let w1 :=
          advance cs [] (with_bucket (<[destination := o]> (bucket w)) w) in
        rewrite_blob fuel e destination name w = (Ret tt, w1)
        /\ copy_blobs fuel e source_prefix destination_prefix
             ((name, o) :: rest) copy_count w
           = copy_blobs fuel e source_prefix destination_prefix rest
               (S copy_count) w1).
Proof.
  intros Hname destination. split.
  - intros w'. rewrite (rewrite_blob_run fuel e destination name w o Hname).
    destruct (chunks (S fuel) e name destination None) as [cs [[]| ex |]] eqn:Hch;
      [| done | done].
    intros [= <-]. exists cs. split; [by eapply chunks_Ret |].
    split; [| done]. by apply calls_since_advance.
  - intros cs Hchain Hlen w1.
    assert (Hrun : rewrite_blob fuel e destination name w = (Ret tt, w1)).
    { rewrite (rewrite_blob_run fuel e destination name w o Hname).
      by rewrite (chunks_chain _ _ _ _ _ _ Hchain Hlen). }
    split; [done |].
    cbn [copy_blobs]. fold destination. unfold bind at 1. by rewrite Hrun.
Qed.

(** ** Corrupt archives *)

(** C7. When the bytes downloaded from an eligible key do not decode,
    whether as an invalid archive or by any other failure, the run ends
    there: it returns normally, the download is its only call (nothing is
    uploaded, copied or cached), and the bucket and the document store are
    left as they were. *)
Theorem corrupt_archive_is_terminal (fuel : nat) (e : env)
    (event : StorageObjectData) (w : world) (b : blob) :
  let key := data_name event in
  let r := extract_zip fuel e event w in
  eligible_key key ->
  download_fails e key = false ->
  bucket w !! key = Some b ->
  extractall e (zip_filename_of key) (blob_data b) = NotAZip
  \/ extractall e (zip_filename_of key) (blob_data b) = DecodeError ->
  r.1 = Ret tt
  /\ calls_since w r.2 = [CallDownload key]
  /\ bucket r.2 = bucket w
  /\ firestore r.2 = firestore w
  /\ (ErrorBadZip (zip_filename_of key) ∈ log_since w r.2
      \/ ErrorExtract (zip_filename_of key) ∈ log_since w r.2).
Proof.
  intros key r Hel Hdl Hb Hbad. subst r.
  rewrite extract_zip_run. cbn zeta. fold key.
  apply not_zip_upload_false in Hel. rewrite Hel, Hdl, Hb.
  destruct Hbad as [-> | ->]; cbn [fst snd bucket firestore advance];
    (split; [done |]);
    (split; [apply calls_since_advance; cbn [calls advance];
             by rewrite app_nil_r |]);
    (split; [done |]); (split; [done |]);
    [left | right];
    (erewrite log_since_advance;
      [| cbn [log advance]; by rewrite <- app_assoc]);
    elem_of_norm; auto 10.
Qed.

(** ** The kinds of call in a run *)

Ltac elem_of_norm_in H :=
  repeat (rewrite elem_of_cons in H || rewrite elem_of_app in H
          || rewrite list_elem_of_fmap in H || rewrite elem_of_nil in H).

Lemma upload_calls_kind (e : env) (user_id zip_name_base : string)
    (files : list (string * bytes)) (P : call -> Prop) :
  (forall name data stored, P (CallUpload name data stored)) ->
  Forall P (upload_call e user_id zip_name_base <$> files).
Proof.
  intros HP. apply Forall_fmap, Forall_forall. intros f _. apply HP.
Qed.

Lemma rewrite_calls_kind (cs : list call) (P : call -> Prop) :
  Forall (fun c => is_rewrite c = true) cs ->
  (forall source destination tok response,
     P (CallRewrite source destination tok response)) ->
  Forall P cs.
Proof.
  intros Hcs HP. eapply Forall_impl; [exact Hcs |].
  intros [] Hc; first [done | apply HP].
Qed.

Lemma chats_prefix_not_extracted (user_id zip_name_base rest : string) :
  startswith (source_prefix_of user_id zip_name_base)
    (chats_prefix_of user_id +:+ rest)%string = false.
Proof.
  unfold source_prefix_of, chats_prefix_of.
  rewrite !append_assoc, !startswith_cancel. reflexivity.
Qed.

(** ** The copy loop over any listing *)

Section CopyRun.
Context (fuel : nat) (e : env) (source_prefix destination_prefix : string).

Lemma copy_run_rewrites (blobs : list (string * blob)) (copy_count : nat)
    (b : gmap string blob) :
  Forall (fun c => is_rewrite c = true)
    (copy_run fuel e source_prefix destination_prefix blobs copy_count b).1.1.
Proof.
  revert copy_count b; induction blobs as [|[name o] rest IH];
    intros copy_count b; [by constructor |].
  cbn [copy_run].
  destruct (b !! name) as [o'|]; [| by repeat constructor].
  pose proof (chunks_rewrites (S fuel) e name
                (mirrored_blob_name source_prefix destination_prefix name)
                None) as Hcs.
  destruct (chunks (S fuel) e name _ None) as [cs [[]| ex |]]; [| done | done].
  specialize (IH (S copy_count)
                (<[mirrored_blob_name source_prefix destination_prefix name
                   := o']> b)).
  destruct (copy_run fuel e source_prefix destination_prefix rest
              (S copy_count) _) as [[cs' ws] out].
  cbn [fst] in *. by apply Forall_app.
Qed.

(** Every object the loop creates has the mirrored name of a listed one. *)
Lemma copy_run_writes (blobs : list (string * blob)) (copy_count : nat)
    (b : gmap string blob) :
  Forall (fun kv => exists name,
            name ∈ blobs.*1
            /\ kv.1 = mirrored_blob_name source_prefix destination_prefix name)
    (copy_run fuel e source_prefix destination_prefix blobs copy_count b).1.2.
Proof.
  revert copy_count b; induction blobs as [|[name o] rest IH];
    intros copy_count b; [by constructor |].
  cbn [copy_run].
  destruct (b !! name) as [o'|]; [| by constructor].
  destruct (chunks (S fuel) e name _ None) as [cs [[]| ex |]];
    [| by constructor | by constructor].
  specialize (IH (S copy_count)
                (<[mirrored_blob_name source_prefix destination_prefix name
                   := o']> b)).
  destruct (copy_run fuel e source_prefix destination_prefix rest
              (S copy_count) _) as [[cs' ws] out].
  cbn [fst snd] in *. constructor.
  - exists name. split; [by left | done].
  - eapply Forall_impl; [exact IH |].
    intros kv (name' & Hin & Hkv). exists name'. split; [by right | done].
Qed.

(** How the loop ends: a loop that raises made no call after the copy call
    that raised. *)
Lemma copy_run_outcome (blobs : list (string * blob)) (copy_count : nat)
    (b : gmap string blob) :
  match copy_run fuel e source_prefix destination_prefix blobs copy_count b with
  | (cs, _, Raise ex) =>
      ex = CopyFailed
      /\ exists pre c, cs = pre ++ [c]
           /\ is_copy_error c = true
           /\ Forall (fun c => is_copy_error c = false) pre
  | (cs, _, _) => Forall (fun c => is_copy_error c = false) cs
  end.
Proof.
  revert copy_count b; induction blobs as [|[name o] rest IH];
    intros copy_count b; [by constructor |].
  cbn [copy_run].
  destruct (b !! name) as [o'|].
  2: { split; [done |]. by eexists [], _. }
  pose proof (chunks_outcome (S fuel) e name
                (mirrored_blob_name source_prefix destination_prefix name)
                None) as Hcs.
  destruct (chunks (S fuel) e name _ None) as [cs [[]| ex |]];
    [| done | done].
  specialize (IH (S copy_count)
                (<[mirrored_blob_name source_prefix destination_prefix name
                   := o']> b)).
  destruct (copy_run fuel e source_prefix destination_prefix rest
              (S copy_count) _) as [[cs' ws] [n | ex |]].
  - by apply Forall_app.
  - destruct IH as (-> & pre & c & -> & Hc & Hpre). split; [done |].
    exists (cs ++ pre), c. rewrite app_assoc. repeat split; [done |].
    by apply Forall_app.
  - by apply Forall_app.
Qed.

(** A loop that returns has completed the copy of every listed name. *)
Lemma copy_run_Ret (blobs : list (string * blob)) (copy_count n : nat)
    (b : gmap string blob) (cs : list call) (ws : list (string * blob)) :
  copy_run fuel e source_prefix destination_prefix blobs copy_count b
    = (cs, ws, Ret n) ->
  n = copy_count + length blobs
  /\ forall name, name ∈ blobs.*1 ->
       exists tok,
         CallRewrite name
           (mirrored_blob_name source_prefix destination_prefix name)
           tok (Rewritten None) ∈ cs.
Proof.
  revert copy_count b cs ws; induction blobs as [|[name o] rest IH];
    intros copy_count b cs ws.
  - cbn. intros [= <- <- <-]. split; [lia |].
    intros name Hin. by apply elem_of_nil in Hin.
  - cbn [copy_run].
    destruct (b !! name) as [o'|]; [| done].
    destruct (chunks (S fuel) e name _ None) as [cs0 [[]| ex |]] eqn:Hch;
      [| done | done].
    destruct (copy_run fuel e source_prefix destination_prefix rest
                (S copy_count) _) as [[cs' ws'] out] eqn:Hrec.
    intros [= <- <- ->].
    destruct (IH _ _ _ _ Hrec) as (-> & Hall).
    apply chunks_Ret in Hch. split; [cbn [length]; lia |].
    intros name' [-> | Hin]%elem_of_cons.
    + destruct (token_chain_last _ _ _ _ _ Hch) as [tok Htok].
      exists tok. apply elem_of_app. by left.
    + destruct (Hall _ Hin) as [tok Htok].
      exists tok. apply elem_of_app. by right.
Qed.

(** The loop over a listing that is not empty starts with a copy call. *)
Lemma copy_run_first_call (blobs : list (string * blob)) (copy_count : nat)
    (b : gmap string blob) :
  blobs <> [] ->
  exists c cs,
    (copy_run fuel e source_prefix destination_prefix blobs copy_count b).1.1
    = c :: cs
    /\ is_rewrite c = true.
Proof.
  destruct blobs as [|[name o] rest]; [done |]. intros _.
  cbn [copy_run chunks].
  destruct (b !! name) as [o'|]; [| by eexists _, _].
  destruct (rewrite_response_of e name _ None) as [[t|]|].
  - destruct (chunks fuel e name _ (Some t)) as [cs [[]| ex |]].
    + destruct (copy_run fuel e source_prefix destination_prefix rest
                  (S copy_count) _) as [[cs' ws] o''].
      by eexists _, _.
    + by eexists _, _.
    + by eexists _, _.
  - destruct (copy_run fuel e source_prefix destination_prefix rest
                (S copy_count) _) as [[cs' ws] o''].
    by eexists _, _.
  - by eexists _, _.
Qed.
End CopyRun.

Lemma after_check_copy (fuel : nat) (e : env)
    (source_prefix destination_prefix : string)
    (blobs : list (string * blob)) (copy_count : nat) (b : gmap string blob)
    (cs : list call) (ws : list (string * blob)) (o : outcome nat)
    (prefix : string) (listed : option (list (string * blob)))
    (tail : list call) :
  copy_run fuel e source_prefix destination_prefix blobs copy_count b
    = (cs, ws, o) ->
  Forall (fun c => after_check c = true) tail ->
  Forall (fun c => after_check c = true)
    (CallListBlobs prefix listed :: cs ++ tail).
Proof.
  intros Hrun Htail.
  pose proof (copy_run_rewrites fuel e source_prefix destination_prefix blobs
                copy_count b) as Hcs.
  rewrite Hrun in Hcs. constructor; [done |]. apply Forall_app. split; [| done].
  by apply rewrite_calls_kind.
Qed.

Lemma after_check_copying (fuel : nat) (e : env)
    (source_prefix destination_prefix : string)
    (blobs : list (string * blob)) (copy_count : nat) (b : gmap string blob)
    (cs : list call) (ws : list (string * blob)) (o : outcome nat)
    (prefix : string) (listed : option (list (string * blob))) :
  copy_run fuel e source_prefix destination_prefix blobs copy_count b
    = (cs, ws, o) ->
  Forall (fun c => after_check c = true) (CallListBlobs prefix listed :: cs).
Proof.
  intros Hrun. rewrite <- (app_nil_r cs).
  eapply after_check_copy; [exact Hrun | constructor].
Qed.

(** The calls after the marker check, in each shape of a run. *)
Ltac post_kind :=
  first [ by repeat constructor
        | eapply after_check_copy; [eassumption | by repeat constructor]
        | eapply after_check_copying; eassumption ].

(** A call of a run is the download, an upload, or the marker check or a
    call after it. *)
Lemma elem_of_run_calls (e : env) (event : StorageObjectData) (b : blob)
    (files : list (string * bytes)) (tail : list call) (c : call) :
  c ∈ run_calls e event b files tail ->
  c = CallDownload (run_key event)
  \/ (exists f, f ∈ run_candidates event b files
                /\ c = upload_call e (run_user_id event)
                         (run_zip_name_base event) f)
  \/ c ∈ tail.
Proof.
  unfold run_calls, run_uploads. intros Hin.
  apply elem_of_cons in Hin as [-> | Hin]; [by left |].
  apply elem_of_app in Hin as [Hin | Hin]; [| by do 2 right].
  apply list_elem_of_fmap in Hin as (f & -> & Hf). right. left. by exists f.
Qed.

(** The answer of the marker check is recorded once. *)
Lemma check_answer_unique (e : env) (event : StorageObjectData) (b : blob)
    (files : list (string * bytes)) (name : string)
    (found found' : option bool) (post : list call) :
  CallExists name found
    ∈ run_calls e event b files (CallExists (run_marker event) found' :: post) ->
  Forall (fun c => after_check c = true) post ->
  found = found'.
Proof.
  intros Hin Hpost.
  apply elem_of_run_calls in Hin as [Hin | [(f & _ & Hin) | Hin]];
    [done | done |].
  apply elem_of_cons in Hin as [[= _ ->] | Hin]; [done |].
  rewrite Forall_forall in Hpost. by apply Hpost in Hin.
Qed.

(** The names of the premises of each shape. *)
Ltac shape_cases Hs :=
  inversion Hs as
    [ w1 Hne Hb Hf Hc
    | w1 Hel Hwhy Hb Hf Hc
    | b0 files0 w1 Hext Hcheck Hb Hf Hc Hl
    | b0 files0 w1 Hext Hcheck Hno Hb Hf Hc Hl
    | b0 files0 w1 Hext Hcheck Hfound Hlist Hb Hf Hc Hl
    | b0 files0 w1 Hext Hcheck Hfound Hlist Hb Hf Hc Hl
    | b0 files0 blobs cs ws n t w1 Hext Hcheck Hfound Hlist Hsome Hplan Hdoc
        Hb Ht Ht' Hf Hc Hl
    | b0 files0 blobs cs ws n w1 Hext Hcheck Hfound Hlist Hsome Hplan Hdoc
        Hb Hf Hc Hl
    | b0 files0 blobs cs ws ex w1 Hext Hcheck Hfound Hlist Hsome Hplan
        Hb Hf Hc Hl
    | b0 files0 blobs cs ws w1 Hext Hcheck Hfound Hlist Hsome Hplan
        Hb Hf Hc Hl ]; subst.

(** ** Marker absent *)

(** C5. In a run whose marker check finds no [_chat.txt] under the extracted
    prefix, there is no copy call and no write to the document store, the
    document store is unchanged, and the bucket is unchanged outside the
    extracted prefix of this archive, in particular at every name under the
    user's [chats/] prefix. *)
Theorem no_marker_no_mirror (fuel : nat) (e : env) (event : StorageObjectData)
    (w : world) :
  let r := extract_zip fuel e event w in
  CallExists (run_marker event) (Some false) ∈ calls_since w r.2 ->
  r.1 = Ret tt
  /\ Forall (fun c => is_rewrite c = false /\ is_doc_set c = false)
       (calls_since w r.2)
  /\ firestore r.2 = firestore w
  /\ (forall name,
        startswith (run_source_prefix event) name = false ->
        bucket r.2 !! name = bucket w !! name)
  /\ (forall rest,
        bucket r.2 !! (chats_prefix_of (run_user_id event) +:+ rest)%string
        = bucket w !! (chats_prefix_of (run_user_id event) +:+ rest)%string).
Proof.
  intros r. subst r.
  pose proof (extract_zip_shape fuel e event w) as Hs.
  destruct (extract_zip fuel e event w) as [out w']. cbn [fst snd] in *.
  intros Hin.
  shape_cases Hs;
    try (rewrite Hc in Hin; apply check_answer_unique in Hin;
         [discriminate Hin | post_kind]).
  - rewrite Hc in Hin. by apply elem_of_nil in Hin.
  - rewrite Hc in Hin. by apply list_elem_of_singleton in Hin.
  - split; [done |]. split.
    { rewrite Hc. constructor; [done |]. apply Forall_app. split.
      - by apply upload_calls_kind.
      - by repeat constructor. }
    split; [done |].
    assert (Hout : forall name,
              startswith (run_source_prefix event) name = false ->
              bucket w' !! name = bucket w !! name).
    { intros name Hname. rewrite Hb. by apply published_bucket_other. }
    split; [done |]. intros rest. apply Hout, chats_prefix_not_extracted.
Qed.

(** ** What every run that publishes has in common *)

Lemma elem_of_run_candidates (event : StorageObjectData) (b : blob)
    (files : list (string * bytes)) (f : string * bytes) :
  f ∈ run_candidates event b files <->
  basename f.1 <> run_zip_filename event
  /\ run_temp_dir event b files !! f.1 = Some f.2.
Proof.
  unfold run_candidates, upload_candidates, walk.
  rewrite list_elem_of_filter. destruct f as [rel data].
  by rewrite elem_of_map_to_list.
Qed.

Lemma extracted_inj (e : env) (event : StorageObjectData) (w : world)
    (b b' : blob) (files files' : list (string * bytes)) :
  extracted e event w b files -> extracted e event w b' files' ->
  b' = b /\ files' = files.
Proof.
  intros (_ & _ & Hb & Hex) (_ & _ & Hb' & Hex').
  rewrite Hb in Hb'. injection Hb' as <-.
  rewrite Hex in Hex'. by injection Hex' as <-.
Qed.

Lemma mirrored_under_chats (source_prefix destination_prefix name : string) :
  startswith destination_prefix
    (mirrored_blob_name source_prefix destination_prefix name) = true.
Proof. apply startswith_append. Qed.

(** The copy loop writes under the chats prefix only. *)
Lemma copy_run_writes_under (fuel : nat) (e : env)
    (source_prefix destination_prefix : string)
    (blobs : list (string * blob)) (copy_count : nat) (b : gmap string blob)
    (cs : list call) (ws : list (string * blob)) (o : outcome nat) :
  copy_run fuel e source_prefix destination_prefix blobs copy_count b
    = (cs, ws, o) ->
  Forall (fun kv => startswith destination_prefix kv.1 = true) ws.
Proof.
  intros Hrun.
  pose proof (copy_run_writes fuel e source_prefix destination_prefix blobs
                copy_count b) as Hws.
  rewrite Hrun in Hws. eapply Forall_impl; [exact Hws |].
  intros kv (name & _ & ->). apply mirrored_under_chats.
Qed.

Lemma writes_under_keep (prefix : string) (ws : list (string * blob))
    (b : gmap string blob) (name : string) :
  Forall (fun kv => startswith prefix kv.1 = true) ws ->
  startswith prefix name = false ->
  apply_writes ws b !! name = b !! name.
Proof.
  intros Hws Hname. apply lookup_apply_writes_None.
  intros (kv & -> & Hin)%list_elem_of_fmap.
  rewrite Forall_forall in Hws. apply Hws in Hin. congruence.
Qed.

Lemma writes_under_is_Some (ws : list (string * blob)) (b : gmap string blob)
    (name : string) :
  is_Some (b !! name) -> is_Some (apply_writes ws b !! name).
Proof.
  revert b; induction ws as [|[k v] ws IH]; intros b Hb; [done |].
  cbn. apply IH. destruct (decide (k = name)) as [-> | Hne].
  - rewrite lookup_insert_eq. by eexists.
  - by rewrite lookup_insert_ne.
Qed.

(** A run that extracted the archive made the download, the uploads and the
    marker check, then calls on the listing, copies and the cache only; its
    bucket is the published one with objects added under the chats prefix. *)
Lemma run_shape_published (fuel : nat) (e : env) (event : StorageObjectData)
    (w : world) (out : outcome unit) (w' : world) (b : blob)
    (files : list (string * bytes)) :
  run_shape fuel e event w out w' ->
  extracted e event w b files ->
  exists found post ws tail,
    calls_since w w'
    = run_calls e event b files (CallExists (run_marker event) found :: post)
    /\ Forall (fun c => after_check c = true) post
    /\ bucket w' = apply_writes ws (run_published e event w b files)
    /\ Forall (fun kv => startswith (run_destination_prefix event) kv.1 = true)
         ws
    /\ log_since w w' = run_log e event b files tail.
Proof.
  intros Hs Hext0.
  shape_cases Hs;
    try (destruct (extracted_inj _ _ _ _ _ _ _ Hext0 Hext) as [-> ->]);
    try (pose proof (copy_run_writes_under _ _ _ _ _ _ _ _ _ _ Hplan) as Hws).
  - by destruct Hext0 as (Hel & _).
  - destruct Hext0 as (_ & Hdl & Hb0 & Hex).
    destruct Hwhy as [Hw | [Hw | (b' & Hb' & _ & [Hw | Hw])]]; try congruence;
      rewrite Hb0 in Hb'; injection Hb' as <-; congruence.
  - eexists _, [], [], _. by repeat split.
  - eexists _, [], [], _. by repeat split.
  - eexists _, _, [], _. repeat split; [exact Hc | post_kind | done | done |
                                        exact Hl].
  - eexists _, _, [], _. repeat split; [exact Hc | post_kind | done | done |
                                        exact Hl].
  - eexists _, _, ws, _. repeat split; [exact Hc | post_kind | done | done |
                                        exact Hl].
  - eexists _, _, ws, _. repeat split; [exact Hc | post_kind | done | done |
                                        exact Hl].
  - eexists _, _, ws, _. repeat split; [exact Hc | post_kind | done | done |
                                        exact Hl].
  - eexists _, _, ws, _. repeat split; [exact Hc | post_kind | done | done |
                                        exact Hl].
Qed.

Lemma run_log_publish (e : env) (event : StorageObjectData) (b : blob)
    (files : list (string * bytes)) (tail : list log_record) :
  run_publish_log e event b files (run_log e event b files tail).
Proof. unfold run_publish_log, run_log. by eexists _, tail. Qed.

(** Every accepted upload is still in the bucket when the run ends. *)
Lemma run_shape_stored (fuel : nat) (e : env) (event : StorageObjectData)
    (w : world) (out : outcome unit) (w' : world) (b : blob)
    (files : list (string * bytes)) (f : string * bytes) :
  run_shape fuel e event w out w' ->
  extracted e event w b files ->
  f ∈ run_stored e event b files ->
  bucket w' !! extracted_blob_name (run_user_id event) (run_zip_name_base event)
                 f.1
  = Some (Blob f.2 (guess_content_type e f.1)).
Proof.
  intros Hs Hext Hf.
  destruct (run_shape_published _ _ _ _ _ _ _ _ Hs Hext)
    as (found & post & ws & tail & _ & _ & -> & Hws & _).
  rewrite (writes_under_keep _ _ _ _ Hws).
  - by apply published_bucket_stored.
  - rewrite extracted_blob_name_prefix. apply extracted_not_chats.
Qed.

(** ** Publishing *)

Lemma filter_all {A : Type} (P : A -> Prop) `{!forall x, Decision (P x)}
    (l : list A) :
  (forall x, x ∈ l -> P x) -> filter P l = l.
Proof.
  induction l as [|a l IH]; intros Hall; [done |].
  rewrite filter_cons, decide_True by (apply Hall; by left).
  f_equal. apply IH. intros x Hx. apply Hall. by right.
Qed.

Lemma filter_all_but_one {A : Type} (P : A -> Prop)
    `{!forall x, Decision (P x)} (l : list A) (x : A) :
  NoDup l -> x ∈ l -> ~ P x ->
  (forall y, y ∈ l -> y <> x -> P y) ->
  length (filter P l) = length l - 1.
Proof.
  induction l as [|a l IH]; intros Hnd Hx Hnot Hrest.
  - by apply elem_of_nil in Hx.
  - apply NoDup_cons in Hnd as [Ha Hnd]. rewrite filter_cons.
    apply elem_of_cons in Hx as [-> | Hx].
    + rewrite decide_False by done.
      rewrite filter_all; [cbn [length]; lia |].
      intros y Hy. apply Hrest; [by right |]. by intros ->.
    + assert (Hne : a <> x) by (by intros ->).
      rewrite decide_True by (apply Hrest; [by left | done]).
      cbn [length]. rewrite IH; try done.
      * destruct l; [by apply elem_of_nil in Hx | cbn [length]; lia].
      * intros y Hy Hyx. apply Hrest; [by right | done].
Qed.

Lemma run_candidates_NoDup (event : StorageObjectData) (b : blob)
    (files : list (string * bytes)) :
  NoDup (run_candidates event b files).
Proof.
  apply (NoDup_fmap_1 fst). unfold run_candidates, upload_candidates, walk.
  apply NoDup_fst_filter, NoDup_fst_map_to_list.
Qed.

(** C4. Whatever uploads fail, the publisher attempts the upload of every
    candidate file and then goes on to the marker check; every file whose own
    upload does not raise is published; every failure is logged and the
    number of successful uploads is reported; and when exactly one of the N
    candidates fails, N-1 uploads are counted. *)
Theorem upload_failures_are_isolated (fuel : nat) (e : env)
    (event : StorageObjectData) (w : world) (b : blob)
    (files : list (string * bytes)) :
  let r := extract_zip fuel e event w in
  let candidates := run_candidates event b files in
  let name (f : string * bytes) :=
    extracted_blob_name (run_user_id event) (run_zip_name_base event) f.1 in
  let succeeded :=
    filter (fun f => upload_fails e (name f) = false) candidates in
  let failed :=
    filter (fun f => upload_fails e (name f) = true) candidates in
  extracted e event w b files ->
  (exists found post,
     calls_since w r.2
     = CallDownload (run_key event)
         :: ((fun f => CallUpload (name f) f.2 (negb (upload_fails e (name f))))
               <$> candidates)
         ++ CallExists (run_marker event) found :: post)
  /\ (forall f, f ∈ succeeded ->
        bucket r.2 !! name f = Some (Blob f.2 (guess_content_type e f.1)))
  /\ (exists ls ls',
        log_since w r.2
        = ls ++ ((fun f => ErrorUpload f.1 (name f)) <$> failed)
             ++ InfoFinished (run_key event) (length succeeded) :: ls')
  /\ (forall f0,
        f0 ∈ candidates ->
        upload_fails e (name f0) = true ->
        (forall f, f ∈ candidates -> f <> f0 ->
                   upload_fails e (name f) = false) ->
        length succeeded = length candidates - 1).
Proof.
  intros r candidates name succeeded failed Hext.
  pose proof (extract_zip_shape fuel e event w) as Hs. fold r in Hs.
  destruct (run_shape_published _ _ _ _ _ _ _ _ Hs Hext)
    as (found & post & ws & tail & Hcalls & _ & _ & _ & Hlog).
  assert (Hsucc : succeeded = run_stored e event b files).
  { subst succeeded. unfold run_stored. apply list_filter_iff.
    intros f. unfold accepted. fold (name f).
    by destruct (upload_fails e (name f)). }
  assert (Hfail : failed = run_failed e event b files).
  { subst failed. unfold run_failed. apply list_filter_iff.
    intros f. unfold accepted. fold (name f).
    destruct (upload_fails e (name f)); cbn; [| split; [done |]];
      intuition. }
  split; [by exists found, post |].
  split.
  { intros f Hf. apply (run_shape_stored _ _ _ _ _ _ _ _ _ Hs Hext).
    by rewrite <- Hsucc. }
  split.
  { rewrite Hlog, Hsucc, Hfail. unfold run_log. by eexists _, tail. }
  intros f0 Hf0 Hfails Hothers.
  apply (filter_all_but_one _ candidates f0);
    [apply run_candidates_NoDup | done | congruence | done].
Qed.

(** ** Mirroring and the completion cache *)

Lemma Forall_run_calls (e : env) (event : StorageObjectData) (b : blob)
    (files : list (string * bytes)) (tail : list call) (P : call -> Prop) :
  P (CallDownload (run_key event)) ->
  (forall name data stored, P (CallUpload name data stored)) ->
  Forall P tail ->
  Forall P (run_calls e event b files tail).
Proof.
  intros Hd Hu Ht. unfold run_calls, run_uploads. constructor; [done |].
  apply Forall_app. split; [by apply upload_calls_kind | done].
Qed.

Lemma run_calls_snoc (e : env) (event : StorageObjectData) (b : blob)
    (files : list (string * bytes)) (tail : list call) (c : call) :
  run_calls e event b files (tail ++ [c])
  = run_calls e event b files tail ++ [c].
Proof. unfold run_calls. cbn [app]. by rewrite app_assoc. Qed.

Lemma copy_run_rewrites_eq (fuel : nat) (e : env)
    (source_prefix destination_prefix : string)
    (blobs : list (string * blob)) (copy_count : nat) (b : gmap string blob)
    (cs : list call) (ws : list (string * blob)) (o : outcome nat) :
  copy_run fuel e source_prefix destination_prefix blobs copy_count b
    = (cs, ws, o) ->
  Forall (fun c => is_rewrite c = true) cs.
Proof.
  intros Hrun.
  pose proof (copy_run_rewrites fuel e source_prefix destination_prefix blobs
                copy_count b) as Hcs.
  by rewrite Hrun in Hcs.
Qed.

(** A property of calls that holds of each kind of call in the run. *)
Ltac calls_kind :=
  solve
    [ apply Forall_run_calls; [done | done |];
      repeat first
        [ apply List.Forall_nil
        | apply List.Forall_cons; [done |]
        | apply Forall_app; split
        | apply rewrite_calls_kind;
          [eapply copy_run_rewrites_eq; eassumption | done] ] ].

Lemma run_copy_agrees (fuel : nat) (e : env) (event : StorageObjectData)
    (copy_count : nat) (b1 : gmap string blob) :
  copy_run fuel e (run_source_prefix event) (run_destination_prefix event)
    (blobs_under (run_source_prefix event) b1) copy_count b1
  = copy_plan fuel e (run_source_prefix event) (run_destination_prefix event)
      (blobs_under (run_source_prefix event) b1) copy_count.
Proof. apply copy_run_agrees. Qed.

Lemma mirrored_run_cached (fuel : nat) (e : env) (event : StorageObjectData)
    (w w' : world) (b : blob) (files : list (string * bytes))
    (cs : list call) (ws : list (string * blob)) (copy_count t : nat) :
  let blobs :=
    blobs_under (run_source_prefix event) (run_published e event w b files) in
  copy_plan fuel e (run_source_prefix event) (run_destination_prefix event)
    blobs 0 = (cs, ws, Ret copy_count) ->
  bucket w' = apply_writes ws (run_published e event w b files) ->
  server_time w <= t ->
  firestore w'
    = <[(run_user_id event, run_zip_name_base event) := t]> (firestore w) ->
  calls_since w w'
    = run_calls e event b files
        (CallExists (run_marker event) (Some true)
           :: CallListBlobs (run_source_prefix event) (Some blobs)
           :: cs ++ [CallDocSet (run_user_id event) (run_zip_name_base event)
                       (Some t)]) ->
  mirrored_and_cached event w w'.
Proof.
  intros blobs Hplan Hb Ht Hf Hc.
  pose proof (copy_plan_rewrites fuel e (run_source_prefix event)
                (run_destination_prefix event) blobs 0) as Hcs.
  rewrite Hplan in Hcs. cbn [fst] in Hcs.
  apply copy_plan_Ret in Hplan as (_ & -> & _ & Hlast).
  exists (run_calls e event b files
            (CallExists (run_marker event) (Some true)
               :: CallListBlobs (run_source_prefix event) (Some blobs) :: cs)),
         t.
  split; [| split; [| split; [done | split; [done |]]]].
  - rewrite Hc, <- run_calls_snoc. done.
  - apply Forall_run_calls; [done | done |].
    do 2 (constructor; [done |]). by apply rewrite_calls_kind.
  - intros name o Hpre Hname.
    assert (Hlisted : (name, o) ∈ blobs).
    { apply elem_of_blobs_under. split; [| done].
      rewrite Hb in Hname. unfold run_source_prefix, run_destination_prefix in *.
      by rewrite mirrored_bucket_listed in Hname. }
    split.
    + rewrite Hb. unfold run_source_prefix, run_destination_prefix in *.
      eapply mirrored_bucket_copy; [| exact Hlisted]. by rewrite app_nil_r.
    + destruct (Hlast name o Hlisted) as [tok Htok]. exists tok.
      unfold run_calls. right. apply elem_of_app. right. by do 2 right.
Qed.

(** In a run whose marker check answered true, against a listing that
    agrees, the listing is the objects under the extracted prefix. *)
Lemma agreed_listing (e : env) (event : StorageObjectData)
    (b1 : gmap string blob) (listed : option (list (string * blob))) :
  listing_agrees e (run_source_prefix event) ->
  is_Some (b1 !! run_marker event) ->
  list_blobs_answer e (run_source_prefix event)
    (blobs_under (run_source_prefix event) b1) = listed ->
  listed = Some (blobs_under (run_source_prefix event) b1)
  /\ blobs_under (run_source_prefix event) b1 <> [].
Proof.
  intros Hag Hfound <-. split; [apply Hag |]. by apply marker_listed.
Qed.

(** The shapes that a listing which agrees excludes, and the plan of the
    others. *)
Ltac listing_agreed Hag :=
  match goal with
  | Hfound : is_Some (_ !! run_marker _),
    Hlist : list_blobs_answer _ _ _ = _ |- _ =>
      let Heq := fresh "Heq" in
      let Hnil := fresh "Hnil" in
      destruct (agreed_listing _ _ _ _ Hag Hfound Hlist) as [Heq Hnil];
      first [ discriminate Heq
            | injection Heq as Heq; first [ by rewrite <- Heq in Hnil
                                          | subst ] ]
  end;
  try match goal with
      | Hplan : copy_run _ _ _ _ _ _ _ = _ |- _ =>
          rewrite run_copy_agrees in Hplan
      end.

(** C1, as amended. In a run whose marker check finds [_chat.txt], in which
    the listing answers with the objects under the extracted prefix, the
    collaborator completes the chunked copy of every such object (each chain
    of calls ends with a missing token, none raises) and the write to the
    document store does not raise, the handler returns normally; every object
    under the extracted prefix has an identical copy, content and metadata,
    at the same relative path under the chats prefix, made by a copy call of
    the run; and the cache record of (UserId, ArchiveBaseName) is written
    exactly once, with the server's time, as the last call of the run, after
    all copies. *)
Theorem marker_found_mirrors_and_caches (fuel : nat) (e : env)
    (event : StorageObjectData) (w : world) :
  let r := extract_zip fuel e event w in
  marker_found event w r.2 ->
  listing_agrees e (run_source_prefix event) ->
  copies_complete fuel e event r.2 ->
  doc_set_fails e (run_user_id event) (run_zip_name_base event) = false ->
  r.1 = Ret tt /\ mirrored_and_cached event w r.2.
Proof.
  intros r. subst r.
  pose proof (extract_zip_shape fuel e event w) as Hs.
  destruct (extract_zip fuel e event w) as [out w']. cbn [fst snd] in *.
  unfold marker_found. intros Hin Hag Hcomplete Hwrite.
  assert (Hstuck : forall b files cs ws o,
            copy_plan fuel e (run_source_prefix event)
              (run_destination_prefix event)
              (blobs_under (run_source_prefix event)
                 (run_published e event w b files)) 0 = (cs, ws, o) ->
            bucket w' = apply_writes ws (run_published e event w b files) ->
            exists n, o = Ret n).
  { intros b files cs ws o Hplan Hb.
    pose proof (copy_plan_writes fuel e (run_source_prefix event)
                  (run_destination_prefix event)
                  (blobs_under (run_source_prefix event)
                     (run_published e event w b files)) 0)
      as (done_ & rest & _ & Hws).
    rewrite Hplan in Hws. cbn [fst snd] in Hws. subst ws.
    destruct (copy_plan_complete fuel e (run_source_prefix event)
                (run_destination_prefix event)
                (blobs_under (run_source_prefix event)
                   (run_published e event w b files)) 0) as [cs' Hok].
    - intros name o' [Hname Hpre]%elem_of_blobs_under.
      apply (Hcomplete name o' Hpre). rewrite Hb.
      unfold run_source_prefix, run_destination_prefix in *.
      by rewrite mirrored_bucket_listed.
    - rewrite Hok in Hplan. injection Hplan as _ _ <-. by eexists. }
  shape_cases Hs;
    try (rewrite Hc in Hin; apply check_answer_unique in Hin;
         [discriminate Hin | post_kind]);
    try listing_agreed Hag.
  - rewrite Hc in Hin. by apply elem_of_nil in Hin.
  - rewrite Hc in Hin. by apply list_elem_of_singleton in Hin.
  - split; [done |]. by eapply mirrored_run_cached.
  - congruence.
  - by destruct (Hstuck _ _ _ _ _ Hplan Hb).
  - by destruct (Hstuck _ _ _ _ _ Hplan Hb).
Qed.

Lemma stored_uploads_remain (fuel : nat) (e : env) (event : StorageObjectData)
    (w : world) (out : outcome unit) (w' : world) (b : blob)
    (files : list (string * bytes)) (name : string) (data : bytes) :
  run_shape fuel e event w out w' ->
  extracted e event w b files ->
  CallUpload name data true ∈ calls_since w w' ->
  exists o, bucket w' !! name = Some o /\ blob_data o = data.
Proof.
  intros Hs Hext Hin.
  destruct (run_shape_published _ _ _ _ _ _ _ _ Hs Hext)
    as (found & post & ws & tail & Hcalls & Hpost & _).
  rewrite Hcalls in Hin.
  apply elem_of_run_calls in Hin as [Hin | [(f & Hf & Hin) | Hin]]; [done | |].
  - injection Hin as -> -> Hacc.
    exists (Blob f.2 (guess_content_type e f.1)). split; [| done].
    apply (run_shape_stored _ _ _ _ _ _ _ _ _ Hs Hext).
    apply list_elem_of_filter. split; [| done]. by rewrite <- Hacc.
  - apply elem_of_cons in Hin as [Hin | Hin]; [done |].
    rewrite Forall_forall in Hpost. by apply Hpost in Hin.
Qed.

Lemma last_of_kind (P : call -> bool) (pre : list call) (d c : call) :
  Forall (fun c' => P c' = false) pre ->
  c ∈ pre ++ [d] -> P c = true -> c = d.
Proof.
  intros Hpre Hin Hc. rewrite Forall_forall in Hpre.
  apply elem_of_app in Hin as [Hin | Hin%list_elem_of_singleton]; [| done].
  apply Hpre in Hin. congruence.
Qed.

(** C6. The cache record is written only after every listed object has been
    copied: in a run that calls the write to the document store, no copy call
    has raised, the write is the last call, and before it the listing
    answered and the copy of every listed object was completed; when the
    write does not raise, the run returns normally and, against a listing
    that agrees, it has left an identical copy of every object of the
    extracted prefix under the chats prefix before the write; when the write
    raises, the exception leaves the handler and no record is stored.  And
    when a copy call raises, the exception leaves the handler, that call is
    the last call of the run (the rest of the copy loop and the cache write
    are not reached), the document store is unchanged, and every file
    uploaded earlier in the run is still in the bucket. *)
Theorem cache_only_after_full_copy (fuel : nat) (e : env)
    (event : StorageObjectData) (w : world) :
  let r := extract_zip fuel e event w in
  let mirror :=
    mirrored_blob_name (run_source_prefix event)
      (run_destination_prefix event) in
  let cache_fails :=
    doc_set_fails e (run_user_id event) (run_zip_name_base event) in
  (forall c,
     c ∈ calls_since w r.2 -> is_doc_set c = true ->
     Forall (fun c' => is_copy_error c' = false) (calls_since w r.2)
     /\ (exists pre blobs,
           calls_since w r.2 = pre ++ [c]
           /\ Forall (fun c' => is_doc_set c' = false) pre
           /\ CallListBlobs (run_source_prefix event) (Some blobs) ∈ pre
           /\ forall name, name ∈ blobs.*1 ->
                exists tok,
                  CallRewrite name (mirror name) tok (Rewritten None) ∈ pre)
     /\ (cache_fails = false ->
         r.1 = Ret tt
         /\ (listing_agrees e (run_source_prefix event) ->
             mirrored_and_cached event w r.2))
     /\ (cache_fails = true ->
         r.1 = Raise CacheWriteFailed /\ firestore r.2 = firestore w))
  /\ (forall c,
        c ∈ calls_since w r.2 -> is_copy_error c = true ->
        r.1 = Raise CopyFailed
        /\ (exists pre,
              calls_since w r.2 = pre ++ [c]
              /\ Forall (fun c' => is_copy_error c' = false
                                   /\ is_doc_set c' = false) pre)
        /\ firestore r.2 = firestore w
        /\ (forall name data,
              CallUpload name data true ∈ calls_since w r.2 ->
              exists o, bucket r.2 !! name = Some o /\ blob_data o = data)).
Proof.
  intros r mirror cache_fails. subst r mirror cache_fails.
  pose proof (extract_zip_shape fuel e event w) as Hs.
  destruct (extract_zip fuel e event w) as [out w'] eqn:Hrun.
  cbn [fst snd] in *.
  assert (Hnone : forall P : call -> bool,
            Forall (fun c => P c = false) (calls_since w w') ->
            forall c, c ∈ calls_since w w' -> P c = true -> False).
  { intros P HP c Hin Hc. rewrite Forall_forall in HP.
    apply HP in Hin. congruence. }
  assert (Hwritten : forall b files blobs cs ws n d,
            copy_run fuel e (run_source_prefix event)
              (run_destination_prefix event) blobs 0
              (run_published e event w b files) = (cs, ws, Ret n) ->
            is_doc_set d = true -> is_copy_error d = false ->
            calls_since w w'
              = run_calls e event b files
                  (CallExists (run_marker event) (Some true)
                     :: CallListBlobs (run_source_prefix event) (Some blobs)
                     :: cs ++ [d]) ->
            forall c, c ∈ calls_since w w' -> is_doc_set c = true ->
            Forall (fun c' => is_copy_error c' = false) (calls_since w w')
            /\ exists pre blobs',
                 calls_since w w' = pre ++ [c]
                 /\ Forall (fun c' => is_doc_set c' = false) pre
                 /\ CallListBlobs (run_source_prefix event) (Some blobs') ∈ pre
                 /\ forall name, name ∈ blobs'.*1 ->
                      exists tok,
                        CallRewrite name
                          (mirrored_blob_name (run_source_prefix event)
                             (run_destination_prefix event) name)
                          tok (Rewritten None) ∈ pre).
  { intros b files blobs cs ws n d Hplan Hd Hd' Hc c Hin Hkind.
    pose proof (copy_run_outcome fuel e (run_source_prefix event)
                  (run_destination_prefix event) blobs 0
                  (run_published e event w b files)) as Hok.
    rewrite Hplan in Hok.
    apply copy_run_Ret in Hplan as Hret. destruct Hret as [_ Hall].
    change (CallExists (run_marker event) (Some true)
              :: CallListBlobs (run_source_prefix event) (Some blobs)
              :: cs ++ [d])
      with ((CallExists (run_marker event) (Some true)
               :: CallListBlobs (run_source_prefix event) (Some blobs) :: cs)
              ++ [d]) in Hc.
    rewrite run_calls_snoc in Hc.
    set (pre := run_calls e event b files _) in Hc.
    assert (Hpre : Forall (fun c' => is_doc_set c' = false) pre)
      by (subst pre; calls_kind).
    rewrite Hc in Hin.
    assert (c = d) as -> by by eapply (last_of_kind is_doc_set).
    split.
    - rewrite Hc. apply Forall_app. split; [| by repeat constructor].
      subst pre. apply Forall_run_calls; [done | done |].
      by do 2 (constructor; [done |]).
    - exists pre, blobs. split; [done |]. split; [done |]. split.
      + subst pre. unfold run_calls. right. apply elem_of_app. right.
        right. by left.
      + intros name Hname. destruct (Hall name Hname) as [tok Htok].
        exists tok. subst pre. unfold run_calls. right. apply elem_of_app.
        right. by do 2 right. }
  split.
  - intros c Hin Hkind.
    shape_cases Hs;
      try (exfalso; apply (Hnone is_doc_set) with c; [| done | done];
           rewrite Hc; first [by constructor | calls_kind]).
    + destruct (Hwritten _ _ _ _ _ _ (CallDocSet _ _ _) Hplan eq_refl eq_refl
                  Hc c Hin Hkind)
        as [Hok Hpre].
      split; [done |]. split; [done |]. split; [| congruence].
      intros _. split; [done |]. intros Hag. listing_agreed Hag.
      by eapply mirrored_run_cached.
    + destruct (Hwritten _ _ _ _ _ _ (CallDocSet _ _ _) Hplan eq_refl eq_refl
                  Hc c Hin Hkind)
        as [Hok Hpre].
      split; [done |]. split; [done |]. split; [congruence | done].
  - intros c Hin Herr.
    shape_cases Hs;
      try (exfalso; apply (Hnone is_copy_error) with c; [| done | done];
           rewrite Hc; first [by constructor | calls_kind]);
      pose proof (copy_run_outcome fuel e (run_source_prefix event)
                    (run_destination_prefix event) blobs 0
                    (run_published e event w b0 files0)) as Hok;
      pose proof (copy_run_rewrites_eq _ _ _ _ _ _ _ _ _ _ Hplan) as Hcs;
      rewrite Hplan in Hok.
    + exfalso. apply (Hnone is_copy_error) with c; [| done | done].
      rewrite Hc. apply Forall_run_calls; [done | done |].
      do 2 (constructor; [done |]). apply Forall_app. split; [done |].
      by repeat constructor.
    + exfalso. apply (Hnone is_copy_error) with c; [| done | done].
      rewrite Hc. apply Forall_run_calls; [done | done |].
      do 2 (constructor; [done |]). apply Forall_app. split; [done |].
      by repeat constructor.
    + destruct Hok as (-> & pre & c' & -> & Hc' & Hpre).
      change (CallExists (run_marker event) (Some true)
                :: CallListBlobs (run_source_prefix event) (Some blobs)
                :: pre ++ [c'])
        with ((CallExists (run_marker event) (Some true)
                 :: CallListBlobs (run_source_prefix event) (Some blobs)
                 :: pre) ++ [c']) in Hc.
      rewrite run_calls_snoc in Hc.
      apply Forall_app in Hcs as [Hcs _].
      set (pre' := run_calls e event b0 files0 _) in Hc.
      assert (Hpre' : Forall (fun c' => is_copy_error c' = false
                                        /\ is_doc_set c' = false) pre').
      { subst pre'. apply Forall_run_calls; [done | done |].
        do 2 (constructor; [done |]).
        rewrite Forall_forall in Hpre, Hcs |- *. intros x Hx.
        split; [by apply Hpre |]. apply Hcs in Hx. by destruct x. }
      rewrite Hc in Hin.
      assert (c = c') as ->.
      { eapply (last_of_kind is_copy_error); [| exact Hin | done].
        eapply Forall_impl; [exact Hpre' |]. by intros x [? _]. }
      split; [done |]. split; [by exists pre' |]. split; [done |].
      intros name data Hup.
      by eapply stored_uploads_remain; [exact Hs | exact Hext |].
    + exfalso. apply (Hnone is_copy_error) with c; [| done | done].
      rewrite Hc. apply Forall_run_calls; [done | done |].
      by do 2 (constructor; [done |]).
Qed.

(** ** Facts about the segments of a key *)

Lemma rfind_None_cons (sep c : ascii) (s : string) :
  rfind sep (String c s) = None ->
  Ascii.eqb c sep = false /\ rfind sep s = None.
Proof.
  cbn. destruct (rfind sep s); [done |].
  by destruct (Ascii.eqb c sep).
Qed.

Lemma split_segments (sep : ascii) (s : string) :
  Forall (fun p => rfind sep p = None) (split sep s).
Proof.
  induction s as [|c s IH]; [by repeat constructor |].
  cbn [split]. destruct (Ascii.eqb c sep) eqn:Hc; [by constructor |].
  destruct (split sep s) as [|h t].
  { constructor; [cbn; by rewrite Hc | constructor]. }
  apply Forall_cons in IH as [Hh Ht]. constructor; [| done].
  cbn. by rewrite Hh, Hc.
Qed.

Lemma split_append_sep (sep : ascii) (p r : string) :
  rfind sep p = None ->
  split sep (p +:+ String sep r) = p :: split sep r.
Proof.
  induction p as [|c p IH]; intros Hp.
  - rewrite append_nil_l. cbn [split]. by rewrite Ascii.eqb_refl.
  - apply rfind_None_cons in Hp as [Hc Hp].
    rewrite append_cons. cbn [split]. by rewrite Hc, IH.
Qed.

Lemma split_user_dir (user_id dir rest : string) :
  rfind "/"%char user_id = None ->
  rfind "/"%char dir = None ->
  split "/"%char
    ("user/" +:+ user_id +:+ String "/"%char (dir +:+ String "/"%char rest))
  = "user"%string :: user_id :: dir :: split "/"%char rest.
Proof.
  intros Hu Hd. rewrite split_user. by rewrite !split_append_sep.
Qed.

Lemma eligible_user_id_no_slash (key : string) :
  eligible_key key -> rfind "/"%char (user_id_of key) = None.
Proof.
  intros (_ & Hlen & _). unfold user_id_of, item.
  pose proof (split_segments "/"%char key) as Hseg.
  destruct (split "/"%char key) as [|p0 [|p1 rest]]; cbn [length] in Hlen;
    try lia.
  apply Forall_cons in Hseg as [_ Hseg]. by apply Forall_cons in Hseg as [? _].
Qed.

(** ** The identifiers of an eligible key (lines 54-57) *)

Section Identifiers.

Lemma lower_append (a b : string) : lower (a +:+ b) = (lower a +:+ lower b)%string.
Proof.
  induction a as [|c a IH]; [done |].
  rewrite append_cons. cbn [lower]. by rewrite IH, append_cons.
Qed.

Lemma length_lower (s : string) : String.length (lower s) = String.length s.
Proof. induction s as [|c s IH]; [done |]. cbn. by rewrite IH. Qed.

Lemma length_append (a b : string) :
  String.length (a +:+ b) = String.length a + String.length b.
Proof.
  induction a as [|c a IH]; [done |]. rewrite append_cons. cbn. by rewrite IH.
Qed.

Lemma slice_to_from (n : nat) (s : string) :
  (slice_to n s +:+ slice_from n s)%string = s.
Proof.
  revert s; induction n as [|n IH]; intros s; [by destruct s |].
  destruct s as [|c s]; [done |]. cbn [slice_to slice_from].
  by rewrite append_cons, IH.
Qed.

Lemma slice_to_append (p s : string) : slice_to (String.length p) (p +:+ s) = p.
Proof.
  induction p as [|c p IH]; [by destruct s |].
  rewrite append_cons. cbn. by rewrite IH.
Qed.

Lemma length_slice_from (n : nat) (s : string) :
  String.length (slice_from n s) = String.length s - n.
Proof.
  revert s; induction n as [|n IH]; intros s; [cbn; lia |].
  destruct s as [|c s]; [done |]. cbn. by rewrite IH.
Qed.

Lemma slice_from_lower (n : nat) (s : string) :
  slice_from n (lower s) = lower (slice_from n s).
Proof.
  revert s; induction n as [|n IH]; intros s; [done |].
  destruct s as [|c s]; [done |]. cbn. by rewrite IH.
Qed.

(** [s.endswith(suf)] says that [s] is something followed by [suf]. *)
Lemma endswith_spec (suf s : string) :
  endswith suf s = true <-> exists pre, s = (pre +:+ suf)%string.
Proof.
  unfold endswith. rewrite andb_true_iff, Nat.leb_le, String.eqb_eq. split.
  - intros [_ Hsuf].
    exists (slice_to (String.length s - String.length suf) s).
    set (n := String.length s - String.length suf) in *.
    rewrite <- Hsuf. by rewrite slice_to_from.
  - intros [pre ->]. rewrite length_append. split; [lia |].
    replace (String.length pre + String.length suf - String.length suf)
      with (String.length pre) by lia.
    apply slice_from_append.
Qed.

(** A key that ends in [.zip] whatever the case is something followed by
    four characters that lower to [.zip]. *)
Lemma endswith_zip_inv (s : string) :
  endswith ".zip" (lower s) = true ->
  exists pre ext, s = (pre +:+ ext)%string /\ lower ext = ".zip"%string.
Proof.
  unfold endswith. rewrite andb_true_iff, String.eqb_eq, length_lower.
  intros [_ Hsuf]. rewrite slice_from_lower in Hsuf.
  exists (slice_to (String.length s - 4) s),
         (slice_from (String.length s - 4) s).
  split; [by rewrite slice_to_from | done].
Qed.

Lemma lower_char_dot (c : ascii) : lower_char c = "."%char -> c = "."%char.
Proof.
  destruct c as [[] [] [] [] [] [] [] []]; vm_compute; congruence.
Qed.

Lemma lower_char_letter (c l : ascii) :
  lower_char c = l -> is_upper l = false ->
  l <> "."%char -> l <> "/"%char ->
  c <> "."%char /\ c <> "/"%char.
Proof.
  intros <- _ Hdot Hslash. split; intros ->; [by apply Hdot | by apply Hslash].
Qed.

(** The shape of such an extension: a dot, then three characters that are
    neither a dot nor a slash. *)
Lemma zip_extension_shape (ext : string) :
  lower ext = ".zip"%string ->
  exists tail,
    ext = String "."%char tail
    /\ rfind "."%char tail = None
    /\ rfind "/"%char ext = None.
Proof.
  destruct ext as [|c0 [|c1 [|c2 [|c3 [|c4 ext]]]]]; try done.
  cbn [lower]. intros [= H0 H1 H2 H3].
  apply lower_char_dot in H0 as ->.
  apply lower_char_letter in H1 as [H1 H1']; try done.
  apply lower_char_letter in H2 as [H2 H2']; try done.
  apply lower_char_letter in H3 as [H3 H3']; try done.
  exists (String c1 (String c2 (String c3 ""))).
  apply Ascii.eqb_neq in H1, H1', H2, H2', H3, H3'.
  split; [done |]. cbn. by rewrite H1, H1', H2, H2', H3, H3'.
Qed.

Lemma split_no_sep (sep : ascii) (x : string) :
  rfind sep x = None -> split sep x = [x].
Proof.
  induction x as [|c x IH]; [done |].
  intros [Hc Hx]%rfind_None_cons. cbn [split]. by rewrite Hc, IH.
Qed.

Lemma split_append_no_sep (sep : ascii) (p x : string) :
  rfind sep x = None ->
  split sep (p +:+ x) = append_to_last (split sep p) x.
Proof.
  intros Hx. induction p as [|c p IH].
  - rewrite append_nil_l. by apply split_no_sep.
  - rewrite append_cons. cbn [split]. rewrite IH.
    pose proof (split_not_nil sep p) as Hnil.
    destruct (Ascii.eqb c sep); destruct (split sep p) as [|h [|h' t]];
      done.
Qed.

Lemma last_item_append_to_last (parts : list string) (x : string) :
  parts <> [] ->
  last_item (append_to_last parts x) = (last_item parts +:+ x)%string.
Proof.
  induction parts as [|p rest IH]; intros Hne; [done |].
  destruct rest as [|p' rest]; [done |].
  specialize (IH ltac:(done)).
  change (append_to_last (p :: p' :: rest) x)
    with (p :: append_to_last (p' :: rest) x).
  change (last_item (p :: p' :: rest)) with (last_item (p' :: rest)).
  rewrite <- IH.
  destruct (append_to_last (p' :: rest) x) as [|h t] eqn:Hl; [| done].
  by destruct rest.
Qed.

Lemma last_item_no_sep (sep : ascii) (s : string) :
  rfind sep (last_item (split sep s)) = None.
Proof.
  pose proof (split_segments sep s) as Hseg.
  pose proof (split_not_nil sep s) as Hnil.
  induction (split sep s) as [|p [|p' rest] IH]; [done | |].
  - by apply Forall_cons in Hseg as [? _].
  - apply Forall_cons in Hseg as [_ Hseg]. by apply IH.
Qed.

Lemma rfind_append_None (c : ascii) (a b : string) :
  rfind c a = None -> rfind c b = None -> rfind c (a +:+ b) = None.
Proof.
  induction a as [|x a IH]; intros Ha Hb; [done |].
  apply rfind_None_cons in Ha as [Hx Ha].
  rewrite append_cons. cbn. by rewrite IH, Hx.
Qed.

Lemma rfind_append_found (c : ascii) (a b : string) :
  rfind c b = None ->
  rfind c (a +:+ String c b) = Some (String.length a).
Proof.
  intros Hb. induction a as [|x a IH].
  - rewrite append_nil_l. cbn. by rewrite Hb, Ascii.eqb_refl.
  - rewrite append_cons. cbn. by rewrite IH.
Qed.

(** [os.path.splitext] on a file name that ends in a [.zip] extension. *)
Lemma splitext_zip (stem ext : string) :
  rfind "/"%char stem = None ->
  lower ext = ".zip"%string ->
  splitext (stem +:+ ext)
  = if all_dots stem then ((stem +:+ ext)%string, ""%string) else (stem, ext).
Proof.
  intros Hstem Hext.
  destruct (zip_extension_shape ext Hext) as (tail & -> & Htail & Hslash).
  unfold splitext.
  rewrite (rfind_append_None "/"%char) by done.
  rewrite rfind_append_found by done.
  cbn [Nat.leb andb slice_from]. rewrite Nat.sub_0_r, slice_to_append.
  destruct (all_dots stem); cbn [negb]; [done |].
  by rewrite slice_from_append.
Qed.

End Identifiers.

Lemma zip_filename_decomposition (key : string) :
  eligible_key key ->
  exists stem ext,
    zip_filename_of key = (stem +:+ ext)%string
    /\ lower ext = ".zip"%string
    /\ rfind "/"%char stem = None.
Proof.
  intros (_ & _ & _ & Hzip).
  destruct (endswith_zip_inv key Hzip) as (pre & ext & -> & Hext).
  destruct (zip_extension_shape ext Hext) as (tail & Hshape & _ & Hslash).
  exists (last_item (split "/"%char pre)), ext.
  split; [| split; [done | apply last_item_no_sep]].
  unfold zip_filename_of. rewrite split_append_no_sep by done.
  apply last_item_append_to_last, split_not_nil.
Qed.

(** The archive's file name is never [_chat.txt]. *)
Lemma zip_filename_not_marker (key : string) :
  eligible_key key -> zip_filename_of key <> "_chat.txt"%string.
Proof.
  intros (stem & ext & Hname & Hext & _)%zip_filename_decomposition Heq.
  assert (Hends : endswith ".zip" (lower (zip_filename_of key)) = true).
  { apply endswith_spec. exists (lower stem).
    by rewrite Hname, lower_append, Hext. }
  rewrite Heq in Hends. discriminate Hends.
Qed.

(** ** Running the pipeline again *)

(** An eligible key lies under [user/<uid>/uploads/], so neither under the
    extracted prefix nor under the chats prefix of its user. *)
Lemma eligible_key_uploads (key : string) :
  eligible_key key ->
  exists tail,
    key = ("user/" +:+ user_id_of key +:+ "/uploads/" +:+ tail)%string.
Proof.
  intros (Hstart & Hlen & Hseg & _).
  apply startswith_inv in Hstart as [r ->].
  unfold user_id_of. rewrite split_user in *.
  pose proof (join_split "/"%char r) as Hjoin.
  destruct (split "/"%char r) as [|p1 [|p2 [|p3 rest]]];
    cbn [length] in Hlen; try lia.
  unfold item in *. cbn [nth] in *. subst p2.
  exists (join "/"%char (p3 :: rest)).
  rewrite <- Hjoin at 1.
  change (join "/"%char (p1 :: "uploads"%string :: p3 :: rest))
    with (p1 +:+ String "/"%char
            ("uploads" +:+ String "/"%char (join "/"%char (p3 :: rest))))%string.
  done.
Qed.

Lemma eligible_key_not_listed (key zip_name_base : string) :
  eligible_key key ->
  startswith (source_prefix_of (user_id_of key) zip_name_base) key = false
  /\ startswith (destination_prefix_of (user_id_of key) zip_name_base) key
     = false.
Proof.
  intros [tail Hkey]%eligible_key_uploads.
  unfold source_prefix_of, destination_prefix_of.
  rewrite Hkey at 2 4. rewrite !startswith_cancel. by split.
Qed.

Lemma blobs_under_ext (prefix : string) (b b' : gmap string blob) :
  (forall name, startswith prefix name = true -> b !! name = b' !! name) ->
  blobs_under prefix b = blobs_under prefix b'.
Proof.
  intros Hext. unfold blobs_under.
  assert (Heq : filter (fun kv => startswith prefix kv.1 = true) b
                = filter (fun kv => startswith prefix kv.1 = true) b');
    [| by rewrite Heq].
  apply map_eq. intros name.
  apply option_eq. intros o. rewrite !map_lookup_filter_Some. cbn.
  split; intros [Hl Hp]; (split; [| done]).
  - by rewrite <- Hext.
  - by rewrite Hext.
Qed.

Lemma stopped_not_extracted (e : env) (event : StorageObjectData) (w : world)
    (b : blob) (files : list (string * bytes)) :
  extracted e event w b files ->
  download_fails e (run_key event) = true
  \/ bucket w !! run_key event = None
  \/ (exists b', bucket w !! run_key event = Some b'
                 /\ download_fails e (run_key event) = false
                 /\ (extractall e (run_zip_filename event) (blob_data b')
                     = NotAZip
                     \/ extractall e (run_zip_filename event) (blob_data b')
                        = DecodeError)) ->
  False.
Proof.
  intros (_ & Hdl & Hb & Hex) [Hw | [Hw | (b' & Hb' & _ & [Hw | Hw])]];
    try congruence;
    rewrite Hb in Hb'; injection Hb' as <-; congruence.
Qed.

(** The marker is in the published bucket exactly when it was in the bucket
    before, or is a file at the root of the scratch directory whose upload
    does not raise. *)
Lemma published_marker (e : env) (event : StorageObjectData) (w : world)
    (b : blob) (files : list (string * bytes)) :
  eligible_key (data_name event) ->
  is_Some (run_published e event w b files !! run_marker event)
  <-> is_Some (bucket w !! run_marker event)
      \/ exists data,
           run_temp_dir event b files !! "_chat.txt"%string = Some data
           /\ upload_fails e (run_marker event) = false.
Proof.
  intros Hel.
  assert (Hmarker : run_marker event
                    = extracted_blob_name (run_user_id event)
                        (run_zip_name_base event) "_chat.txt") by done.
  split.
  - intros [o Ho]. unfold run_published, published_bucket in Ho.
    apply lookup_apply_writes_elem in Ho as [Hin | Hold];
      [| left; by eexists].
    right. apply list_elem_of_fmap in Hin as ([rel data] & Heq & Hst).
    assert (Hrel' : extracted_blob_name (run_user_id event)
                      (run_zip_name_base event) "_chat.txt"
                    = extracted_blob_name (run_user_id event)
                        (run_zip_name_base event) rel)
      by exact (f_equal fst Heq).
    rewrite !extracted_blob_name_prefix in Hrel'.
    apply append_inv_head in Hrel' as <-.
    apply list_elem_of_filter in Hst as [Hacc Hcand].
    apply (elem_of_run_candidates event b files) in Hcand as [_ Hfile].
    exists data. split; [done |].
    unfold accepted in Hacc. cbn [fst] in Hacc. rewrite <- Hmarker in Hacc.
    by destruct (upload_fails e (run_marker event)).
  - intros [Hold | (data & Hfile & Hok)].
    + by apply writes_under_is_Some.
    + exists (Blob data (guess_content_type e "_chat.txt")).
      rewrite Hmarker.
      apply (published_bucket_stored e (run_user_id event)
               (run_zip_name_base event) (run_zip_filename event)
               (run_temp_dir event b files) (bucket w)
               ("_chat.txt"%string, data)).
      apply list_elem_of_filter. split.
      * unfold accepted. cbn [fst]. rewrite <- Hmarker. by rewrite Hok.
      * apply (elem_of_run_candidates event b files). split; [| done].
        intros Heq. by apply (zip_filename_not_marker (data_name event)).
Qed.

Lemma marker_under_source (event : StorageObjectData) :
  startswith (run_source_prefix event) (run_marker event) = true
  /\ startswith (run_destination_prefix event) (run_marker event) = false.
Proof.
  unfold run_marker, run_source_prefix, run_destination_prefix.
  rewrite chat_file_path_prefix. split.
  - apply startswith_append.
  - apply extracted_not_chats.
Qed.

Lemma run_shape_summary (fuel : nat) (e : env) (event : StorageObjectData)
    (w : world) (out : outcome unit) (w' : world) :
  run_shape fuel e event w out w' ->
  exists cached : bool,
    run_summary fuel e (data_name event) (bucket w) = (bucket w', out, cached)
    /\ if cached
       then exists t,
              server_time w <= t /\ server_time w' = S t
              /\ firestore w'
                 = <[(run_user_id event, run_zip_name_base event) := t]>
                     (firestore w)
              /\ exists pre,
                   calls_since w w'
                   = pre ++ [CallDocSet (run_user_id event)
                               (run_zip_name_base event) (Some t)]
                   /\ Forall (fun c => is_doc_set c = false) pre
       else firestore w' = firestore w
            /\ Forall (fun c => is_cache_write c = false) (calls_since w w').
Proof.
  intros Hs. unfold run_summary. fold (run_key event).
  assert (Hpublished : forall b files,
            extracted e event w b files ->
            not_zip_upload (run_key event) (split "/"%char (run_key event))
              = false
            /\ download_fails e (run_key event) = false
            /\ bucket w !! run_key event = Some b
            /\ extractall e (zip_filename_of (run_key event)) (blob_data b)
               = Entries files).
  { intros b files (Hel & Hdl & Hb & Hex). by apply not_zip_upload_false in Hel. }
  shape_cases Hs;
    try (destruct (Hpublished _ _ Hext) as (Hr & Hdl & Hkey & Hex);
         rewrite Hr, Hdl, Hkey, Hex; cbn zeta;
         fold (run_user_id event) (run_zip_name_base event)
           (run_zip_filename event);
         fold (run_temp_dir event b0 files0);
         fold (run_published e event w b0 files0);
         fold (run_marker event);
         rewrite Hcheck);
    try (rewrite bool_decide_eq_true_2 by done;
         unfold mirror_summary;
         fold (run_source_prefix event) (run_destination_prefix event);
         rewrite Hlist);
    try (destruct blobs as [|nb rest]; [done |]; rewrite Hplan).
  - exists false. apply not_zip_upload_true in Hne. rewrite Hne, Hb, Hc.
    by repeat split.
  - exists false. apply not_zip_upload_false in Hel. rewrite Hel, Hb, Hc.
    split; [| split; [done | by repeat constructor]].
    destruct (download_fails e (run_key event)); [done |].
    destruct Hwhy as [Hw | [Hw | (b & Hb' & _ & [Hw | Hw])]]; try done.
    + by rewrite Hw.
    + fold (run_zip_filename event). by rewrite Hb', Hw.
    + fold (run_zip_filename event). by rewrite Hb', Hw.
  - exists false. rewrite Hb, Hc. split; [done |]. split; [done |].
    calls_kind.
  - exists false. rewrite bool_decide_eq_false_2, Hb, Hc
      by (rewrite Hno; by intros [? ?]).
    split; [done |]. split; [done |]. calls_kind.
  - exists false. rewrite Hb, Hc. split; [done |]. split; [done |].
    calls_kind.
  - exists false. rewrite Hb, Hc. split; [done |]. split; [done |].
    calls_kind.
  - exists true. rewrite Hdoc, Hb. split; [done |]. exists t.
    do 3 (split; [done |]).
    exists (run_calls e event b0 files0
              (CallExists (run_marker event) (Some true)
                 :: CallListBlobs (run_source_prefix event) (Some (nb :: rest))
                 :: cs)).
    split; [| calls_kind].
    by rewrite Hc, <- run_calls_snoc.
  - exists false. rewrite Hdoc, Hb, Hc. split; [done |]. split; [done |].
    calls_kind.
  - exists false. rewrite Hb, Hc. split; [done |]. split; [done |].
    calls_kind.
  - exists false. rewrite Hb, Hc. split; [done |]. split; [done |].
    calls_kind.
Qed.

Section Rerun.
Context (fuel : nat) (e : env) (key : string).

Abbreviation user_id := (user_id_of key).
Abbreviation zip_name_base := (zip_name_base_of key).
Abbreviation source_prefix := (source_prefix_of user_id zip_name_base).
Abbreviation destination_prefix :=
  (destination_prefix_of user_id zip_name_base).

(** Publishing again over a bucket that already holds the uploads, and
    agrees with the first publication under the extracted prefix, changes
    nothing. *)
Lemma published_bucket_again (temp_dir : gmap string bytes)
    (b0 b' : gmap string blob) :
  let b1 := published_bucket e user_id zip_name_base (zip_filename_of key)
              temp_dir b0 in
  (forall name, startswith source_prefix name = true ->
                b' !! name = b1 !! name) ->
  published_bucket e user_id zip_name_base (zip_filename_of key) temp_dir b'
  = b'.
Proof.
  intros b1 Hsame. unfold published_bucket.
  apply apply_writes_id. intros k v Hin.
  rewrite Hsame.
  - subst b1. unfold published_bucket.
    apply lookup_apply_writes_Some; [| done].
    apply upload_keys_NoDup, stored_NoDup.
  - eapply upload_keys_listed. apply list_elem_of_fmap.
    exists (k, v). split; [done | exact Hin].
Qed.

(** The mirror stage against a listing that agrees. *)
Lemma mirror_summary_agreed (b1 : gmap string blob) :
  listing_agrees e source_prefix ->
  mirror_summary fuel e user_id zip_name_base b1
  = match blobs_under source_prefix b1 with
    | [] => (b1, Ret tt, false)
    | _ :: _ =>
        match copy_plan fuel e source_prefix destination_prefix
                (blobs_under source_prefix b1) 0 with
        | (_, ws, Ret _) =>
            if doc_set_fails e user_id zip_name_base
            then (apply_writes ws b1, Raise CacheWriteFailed, false)
            else (apply_writes ws b1, Ret tt, true)
        | (_, ws, Raise ex) => (apply_writes ws b1, Raise ex, false)
        | (_, ws, OutOfFuel) => (apply_writes ws b1, OutOfFuel, false)
        end
    end.
Proof.
  intros Hag. unfold mirror_summary.
  rewrite Hag, <- (copy_run_agrees fuel e user_id zip_name_base 0 b1).
  by destruct (blobs_under source_prefix b1).
Qed.

Lemma mirror_summary_again (b1 : gmap string blob) :
  listing_agrees e source_prefix ->
  let s := mirror_summary fuel e user_id zip_name_base b1 in
  (forall name, startswith source_prefix name = true ->
                s.1.1 !! name = b1 !! name)
  /\ (forall name, startswith destination_prefix name = false ->
                   s.1.1 !! name = b1 !! name)
  /\ mirror_summary fuel e user_id zip_name_base s.1.1 = s.
Proof.
  intros Hag s. subst s. rewrite mirror_summary_agreed by done.
  destruct (blobs_under source_prefix b1) as [|nb rest] eqn:Hbl.
  { cbn [fst]. rewrite mirror_summary_agreed, Hbl by done. done. }
  rewrite <- Hbl.
  pose proof (copy_plan_writes fuel e source_prefix destination_prefix
                (blobs_under source_prefix b1) 0)
    as (done_ & rest' & Hlist & Hws).
  set (b' := apply_writes
               (mirror_write source_prefix destination_prefix <$> done_) b1).
  assert (Hin : forall name, startswith source_prefix name = true ->
                             b' !! name = b1 !! name).
  { intros name Hname. by apply mirrored_bucket_listed. }
  assert (Hout : forall name, startswith destination_prefix name = false ->
                              b' !! name = b1 !! name).
  { intros name Hname. apply lookup_apply_writes_None.
    rewrite <- list_fmap_compose. intros (nb' & -> & _)%list_elem_of_fmap.
    cbn in Hname. unfold mirrored_blob_name in Hname.
    by rewrite startswith_append in Hname. }
  assert (Hagain : apply_writes
                     (mirror_write source_prefix destination_prefix <$> done_)
                     b' = b').
  { apply apply_writes_id. intros k v Hkv. subst b'.
    apply lookup_apply_writes_Some; [| done].
    pose proof (NoDup_blobs_under source_prefix b1) as Hnd.
    rewrite Hlist, fmap_app in Hnd. apply NoDup_app in Hnd as (Hnd & _ & _).
    apply mirror_keys_NoDup; [done |].
    intros name o Hno.
    assert (Hl : (name, o) ∈ blobs_under source_prefix b1)
      by (rewrite Hlist; apply elem_of_app; by left).
    by apply elem_of_blobs_under in Hl as [_ ?]. }
  assert (Hblobs : blobs_under source_prefix b' = blobs_under source_prefix b1)
    by (by apply blobs_under_ext).
  destruct (copy_plan fuel e source_prefix destination_prefix
              (blobs_under source_prefix b1) 0) as [[cs ws] [n | ex |]] eqn:Hplan;
    cbn [fst snd] in Hws; subst ws;
    [destruct (doc_set_fails e user_id zip_name_base) eqn:Hdoc | |];
    cbn [fst snd]; fold b';
    (split; [done |]); (split; [done |]);
    rewrite mirror_summary_agreed, Hblobs, Hbl, <- Hbl, Hplan, ?Hdoc, Hagain
      by done;
    done.
Qed.

(** The summary of a second run, started from the bucket the first run
    left, is the summary of the first run. *)
Lemma run_summary_again (b0 : gmap string blob) :
  listing_agrees e source_prefix ->
  let s := run_summary fuel e key b0 in
  run_summary fuel e key s.1.1 = s.
Proof.
  intros Hag s. subst s. unfold run_summary.
  destruct (not_zip_upload key (split "/"%char key)) eqn:Hroute; [done |].
  destruct (download_fails e key) eqn:Hdl; [done |].
  destruct (b0 !! key) as [b|] eqn:Hkey; cbn [fst snd]; [| by rewrite Hkey].
  destruct (extractall e (zip_filename_of key) (blob_data b))
    as [files | |] eqn:Hex;
    cbn [fst snd]; [| by rewrite Hkey, Hex | by rewrite Hkey, Hex].
  apply not_zip_upload_false in Hroute.
  destruct (eligible_key_not_listed key zip_name_base Hroute) as [Hks Hkd].
  set (temp_dir := foldl write_file {[ zip_filename_of key := blob_data b ]}
                     files).
  set (b1 := published_bucket e user_id zip_name_base (zip_filename_of key)
               temp_dir b0).
  assert (Hkey1 : b1 !! key = Some b).
  { subst b1. by rewrite published_bucket_other. }
  assert (Hmarker : startswith source_prefix
                      (chat_file_path user_id zip_name_base) = true).
  { rewrite chat_file_path_prefix. apply startswith_append. }
  cbn zeta.
  destruct (exists_fails e (chat_file_path user_id zip_name_base)) eqn:Hcheck.
  { cbn [fst snd]. rewrite Hkey1, Hex. cbn zeta. fold temp_dir.
    by rewrite (published_bucket_again temp_dir b0 b1) by done. }
  destruct (bool_decide (is_Some (b1 !! chat_file_path user_id zip_name_base)))
    eqn:Hfound.
  - destruct (mirror_summary_again b1 Hag) as (Hin & Hout & Hagain).
    set (s := mirror_summary fuel e user_id zip_name_base b1) in *.
    rewrite (Hout key Hkd), Hkey1, Hex. cbn zeta. fold temp_dir.
    rewrite (published_bucket_again temp_dir b0 s.1.1) by exact Hin.
    rewrite ?Hcheck, (Hin _ Hmarker), Hfound. exact Hagain.
  - cbn [fst snd]. rewrite Hkey1, Hex. cbn zeta. fold temp_dir.
    rewrite (published_bucket_again temp_dir b0 b1) by done.
    by rewrite ?Hcheck, Hfound.
Qed.
End Rerun.

(** When the collaborators let the whole pipeline run, the run returns with
    every stored file under both prefixes and the cache record written by its
    last call, and leaves a world in which they let it run again. *)
Lemma full_run (fuel : nat) (e : env) (event : StorageObjectData)
    (w : world) (out : outcome unit) (w' : world) (b : blob)
    (files : list (string * bytes)) :
  run_shape fuel e event w out w' ->
  pipeline_answers fuel e event w b files ->
  out = Ret tt
  /\ (exists pre t,
        calls_since w w'
        = pre ++ [CallDocSet (run_user_id event) (run_zip_name_base event)
                    (Some t)]
        /\ Forall (fun c => is_doc_set c = false) pre
        /\ server_time w <= t /\ server_time w' = S t
        /\ firestore w'
           = <[(run_user_id event, run_zip_name_base event) := t]>
               (firestore w))
  /\ (forall f, f ∈ run_stored e event b files ->
        bucket w' !! extracted_blob_name (run_user_id event)
                       (run_zip_name_base event) f.1
        = Some (Blob f.2 (guess_content_type e f.1))
        /\ bucket w' !! (run_destination_prefix event +:+ f.1)%string
           = Some (Blob f.2 (guess_content_type e f.1)))
  /\ pipeline_answers fuel e event w' b files.
Proof.
  intros Hs (Hext0 & Hmark & Hanswers & Hag & Hchains & Hwrite).
  assert (Hkel : eligible_key (data_name event)) by apply Hext0.
  assert (Hfound0 : is_Some (run_published e event w b files
                               !! run_marker event))
    by by apply published_marker.
  assert (Hcomplete : forall cs ws o,
            copy_plan fuel e (run_source_prefix event)
              (run_destination_prefix event)
              (blobs_under (run_source_prefix event)
                 (run_published e event w b files)) 0 = (cs, ws, o) ->
            exists n, o = Ret n).
  { intros cs ws o Hplan.
    destruct (copy_plan_complete fuel e (run_source_prefix event)
                (run_destination_prefix event)
                (blobs_under (run_source_prefix event)
                   (run_published e event w b files)) 0) as [cs' Hok].
    - intros name o' [_ Hpre]%elem_of_blobs_under. by apply Hchains.
    - rewrite Hok in Hplan. injection Hplan as _ _ <-. by eexists. }
  pose proof Hs as Hs0.
  shape_cases Hs;
    try (destruct (extracted_inj _ _ _ _ _ _ _ Hext0 Hext) as [-> ->]);
    try (pose proof (copy_run_writes_under _ _ _ _ _ _ _ _ _ _ Hplan) as Hws);
    try listing_agreed Hag;
    try congruence.
  - done.
  - by destruct (stopped_not_extracted _ _ _ _ _ Hext0 Hwhy).
  - rewrite Hno in Hfound0. by destruct Hfound0.
  - split; [done |]. split; [| split].
    + exists (run_calls e event b files
                (CallExists (run_marker event) (Some true)
                   :: CallListBlobs (run_source_prefix event)
                        (Some (blobs_under (run_source_prefix event)
                                 (run_published e event w b files)))
                   :: cs)), t.
      split; [by rewrite Hc, <- run_calls_snoc |].
      split; [| done].
      apply Forall_run_calls; [done | done |].
      do 2 (constructor; [done |]).
      pose proof (copy_plan_rewrites fuel e (run_source_prefix event)
                    (run_destination_prefix event)
                    (blobs_under (run_source_prefix event)
                       (run_published e event w b files)) 0) as Hcs.
      rewrite Hplan in Hcs. by apply rewrite_calls_kind.
    + intros f Hstored.
      split; [by apply (run_shape_stored _ _ _ _ _ _ _ _ _ Hs0 Hext0) |].
      apply copy_plan_Ret in Hplan as (_ & -> & _ & _).
      rewrite Hb. unfold run_destination_prefix, run_source_prefix.
      rewrite <- (mirrored_blob_name_append (run_user_id event)
                    (run_zip_name_base event) f.1).
      apply (mirrored_bucket_copy _ _ _ _ []); [by rewrite app_nil_r |].
      apply elem_of_blobs_under. split; [| apply startswith_append].
      rewrite <- extracted_blob_name_prefix.
      by apply (published_bucket_stored e _ _ _ _ _ f).
    + destruct Hext0 as (_ & Hdl & Hkey & Hex).
      destruct (eligible_key_not_listed _ (run_zip_name_base event) Hkel)
        as [Hks Hkd].
      destruct (marker_under_source event) as [_ Hmd].
      split; [| split; [| by do 3 (split; [done |])]].
      * split; [done |]. split; [done |]. split; [| done].
        rewrite Hb, (writes_under_keep _ _ _ _ Hws) by exact Hkd.
        unfold run_published. by rewrite published_bucket_other.
      * left. by rewrite Hb, (writes_under_keep _ _ _ _ Hws).
  - by destruct (Hcomplete _ _ _ Hplan).
  - by destruct (Hcomplete _ _ _ Hplan).
Qed.

(** C8. Against a listing that agrees with the bucket, running the handler
    a second time, on the same event, from the world the first run left and
    against collaborators that behave as in the first run, gives the same
    outcome and leaves the bucket exactly as the first run left it (the same
    published and mirrored objects), and the document store holds records for
    the same keys as after the first run; when the first run wrote the cache
    record, the second run overwrites that one record with a later server
    time.  In particular, when the collaborators let the whole pipeline run
    on the archive, both runs return normally, every stored file of the
    archive is under the extracted prefix and under the chats prefix after
    the second run, and each run writes the one record of
    (UserId, ArchiveBaseName) as its last call, the second with a later
    time: the document store after the second run is the initial one with
    that single record, refreshed. *)
Theorem rerun_is_idempotent (fuel : nat) (e : env) (event : StorageObjectData)
    (w : world) :
  let r1 := extract_zip fuel e event w in
  let r2 := extract_zip fuel e event r1.2 in
  let user_id := run_user_id event in
  let zip_name_base := run_zip_name_base event in
  let doc := (user_id, zip_name_base) in
  listing_agrees e (run_source_prefix event) ->
  (r2.1 = r1.1
   /\ bucket r2.2 = bucket r1.2
   /\ dom (firestore r2.2) = dom (firestore r1.2))
  /\ (forall t1,
        CallDocSet user_id zip_name_base (Some t1) ∈ calls_since w r1.2 ->
        exists t2,
          t1 < t2
          /\ firestore r1.2 !! doc = Some t1
          /\ firestore r2.2 !! doc = Some t2
          /\ firestore r2.2 = <[doc := t2]> (firestore r1.2))
  /\ (forall b files,
        pipeline_answers fuel e event w b files ->
        r1.1 = Ret tt /\ r2.1 = Ret tt
        /\ (forall f, f ∈ run_stored e event b files ->
              bucket r2.2 !! extracted_blob_name user_id zip_name_base f.1
              = Some (Blob f.2 (guess_content_type e f.1))
              /\ bucket r2.2 !! (run_destination_prefix event +:+ f.1)%string
                 = Some (Blob f.2 (guess_content_type e f.1)))
        /\ exists t1 t2,
             server_time w <= t1 /\ t1 < t2
             /\ firestore r1.2 = <[doc := t1]> (firestore w)
             /\ firestore r2.2 = <[doc := t2]> (firestore w)
             /\ (exists pre,
                   calls_since w r1.2
                   = pre ++ [CallDocSet user_id zip_name_base (Some t1)]
                   /\ Forall (fun c => is_doc_set c = false) pre)
             /\ (exists pre,
                   calls_since r1.2 r2.2
                   = pre ++ [CallDocSet user_id zip_name_base (Some t2)]
                   /\ Forall (fun c => is_doc_set c = false) pre)).
Proof.
  intros r1 r2 user_id zip_name_base doc Hag.
  pose proof (extract_zip_shape fuel e event w) as Hs1.
  pose proof (extract_zip_shape fuel e event r1.2) as Hs2.
  fold r1 in Hs1. fold r2 in Hs2.
  destruct (run_shape_summary fuel e event w r1.1 r1.2 Hs1)
    as (c1 & Hsum1 & Hdoc1).
  destruct (run_shape_summary fuel e event r1.2 r2.1 r2.2 Hs2)
    as (c2 & Hsum2 & Hdoc2).
  pose proof (run_summary_again fuel e (data_name event) (bucket w) Hag)
    as Hagain.
  cbn zeta in Hagain. rewrite Hsum1 in Hagain. cbn [fst] in Hagain.
  rewrite Hsum2 in Hagain. injection Hagain as Hb Ho Hc. subst c2.
  split; [| split].
  - split; [done |]. split; [done |].
    destruct c1.
    + destruct Hdoc1 as (t1 & _ & _ & Hf1 & _).
      destruct Hdoc2 as (t2 & _ & _ & Hf2 & _).
      rewrite Hf2, Hf1, !dom_insert_L. set_solver.
    + destruct Hdoc1 as [Hf1 _]. destruct Hdoc2 as [Hf2 _]. by rewrite Hf2.
  - intros t1' Hcall. destruct c1.
    + destruct Hdoc1 as (t1 & Hle1 & Hst1 & Hf1 & pre & Hcalls & Hpre).
      destruct Hdoc2 as (t2 & Hle2 & Hst2 & Hf2 & _).
      rewrite Hcalls in Hcall.
      apply (last_of_kind is_doc_set) in Hcall; [| done | done].
      injection Hcall as ->. exists t2. split; [lia |].
      split; [by rewrite Hf1; apply lookup_insert_eq |].
      split; [by rewrite Hf2; apply lookup_insert_eq | done].
    + destruct Hdoc1 as [_ Hno]. rewrite Forall_forall in Hno.
      by apply Hno in Hcall.
  - intros b files Hpipe.
    destruct (full_run _ _ _ _ _ _ _ _ Hs1 Hpipe)
      as (Hout1 & (pre1 & t1 & Hc1 & Hpre1 & Hle1 & Hst1 & Hf1) & _ & Hpipe2).
    destruct (full_run _ _ _ _ _ _ _ _ Hs2 Hpipe2)
      as (Hout2 & (pre2 & t2 & Hc2 & Hpre2 & Hle2 & Hst2 & Hf2) & Hfiles & _).
    split; [done |]. split; [done |]. split; [done |].
    exists t1, t2. split; [done |]. split; [lia |]. split; [done |].
    split; [by rewrite Hf2, Hf1, insert_insert_eq |].
    split; by eexists.
Qed.

(** ** Concrete runs *)

Import Scenario.

(** The scenarios of the specification. *)
Example scenario_without_marker :
  let r := extract_zip 0 (env_ok plain_files) backup_event world0 in
  r.1 = Ret tt
  /\ blob_data <$> bucket r.2 !! "user/u1/extracted/backup/a.txt"%string
     = Some a_txt
  /\ blob_data <$> bucket r.2 !! "user/u1/extracted/backup/sub/b.txt"%string
     = Some b_txt
  /\ blobs_under "user/u1/chats/" (bucket r.2) = []
  /\ firestore r.2 = ∅.
Proof. vm_compute. repeat split; reflexivity. Qed.

Example scenario_with_marker :
  let r := extract_zip 0 (env_ok chat_files) backup_event world0 in
  r.1 = Ret tt
  /\ blob_data <$> bucket r.2 !! "user/u1/chats/backup/_chat.txt"%string
     = Some chat_txt
  /\ blob_data <$> bucket r.2 !! "user/u1/chats/backup/a.txt"%string
     = Some a_txt
  /\ blob_data <$> bucket r.2 !! "user/u1/chats/backup/sub/b.txt"%string
     = Some b_txt
  /\ is_Some (firestore r.2 !! ("u1", "backup")%string).
Proof. vm_compute. repeat split; try reflexivity. by eexists. Qed.

Example scenario_extracted_key :
  extract_zip 0 (env_ok chat_files) extracted_event world0
  = (Ret tt,
     advance []
       [InfoProcessing "bucket" "user/u1/extracted/backup/a.txt";
        InfoSkipNotZipUpload "user/u1/extracted/backup/a.txt"] world0).
Proof. reflexivity. Qed.

(** A listing is in the order of the names: the copy of [a.txt] comes before
    the copy of [sub/b.txt], so when it raises, [sub/b.txt] is not
    mirrored. *)
Example scenario_copy_order :
  let r := extract_zip 0 env_one_copy_fails backup_event world0 in
  r.1 = Raise CopyFailed
  /\ blob_data <$> bucket r.2 !! "user/u1/chats/backup/_chat.txt"%string
     = Some chat_txt
  /\ bucket r.2 !! "user/u1/chats/backup/a.txt"%string = None
  /\ bucket r.2 !! "user/u1/chats/backup/sub/b.txt"%string = None
  /\ firestore r.2 = ∅.
Proof. vm_compute. repeat split; reflexivity. Qed.

(** A marker check that raises, a listing that raises and a cache write that
    raises each end the run with their exception. *)
Example scenario_unguarded_calls :
  (extract_zip 0 env_check_fails backup_event world0).1 = Raise ExistsFailed
  /\ (extract_zip 0 env_listing_fails backup_event world0).1 = Raise ListFailed
  /\ (extract_zip 0 env_cache_fails backup_event world0).1
     = Raise CacheWriteFailed.
Proof. vm_compute. repeat split; reflexivity. Qed.

Lemma backup_key_eligible : eligible_key backup_key.
Proof.
  unfold eligible_key.
  split; [reflexivity |]. split; [vm_compute; lia |].
  split; reflexivity.
Defined.

Lemma backup_extracted (e : env) (files : list (string * bytes)) :
  download_fails e backup_key = false ->
  extractall e "backup.zip" zip_bytes = Entries files ->
  extracted e backup_event world0 (Blob zip_bytes "application/zip") files.
Proof.
  intros Hdl Hex. split; [exact backup_key_eligible |].
  split; [exact Hdl |]. split; [reflexivity | exact Hex].
Defined.

Lemma env_ok_agrees (files : list (string * bytes)) (prefix : string) :
  listing_agrees (env_ok files) prefix.
Proof. intros blobs. reflexivity. Defined.

Lemma backup_pipeline_answers :
  pipeline_answers 0 (env_ok chat_files) backup_event world0
    (Blob zip_bytes "application/zip") chat_files.
Proof.
  split; [apply backup_extracted; reflexivity |].
  split; [right; exists chat_txt; split; [vm_compute |]; reflexivity |].
  split; [reflexivity |].
  split; [apply env_ok_agrees |].
  split; [| reflexivity].
  intros name _. eexists. split; [apply chain_done; reflexivity |].
  simpl. lia.
Defined.

(** C1 fails as stated (marker found, hence everything mirrored and the
    cache record written): with a collaborator whose copy call raises, the
    marker check of the run finds [_chat.txt], yet the run ends with the
    exception, the marker itself is not mirrored and there is no cache
    record. *)
Lemma marker_found_copy_raises :
  let r := extract_zip 0 env_copy_fails backup_event world0 in
  marker_found backup_event world0 r.2
  /\ r.1 = Raise CopyFailed
  /\ bucket r.2 !! "user/u1/chats/backup/_chat.txt"%string = None
  /\ firestore r.2 !! ("u1", "backup")%string = None
  /\ ~ mirrored_and_cached backup_event world0 r.2.
Proof.
  intros r.
  assert (Hdoc : firestore r.2 !! (run_user_id backup_event,
                                   run_zip_name_base backup_event) = None)
    by (vm_compute; reflexivity).
  split; [| split; [| split; [| split]]].
  - unfold marker_found. apply (list_elem_of_lookup_2 _ 4).
    vm_compute. reflexivity.
  - vm_compute. reflexivity.
  - vm_compute. reflexivity.
  - vm_compute. reflexivity.
  - intros (pre & t & _ & _ & _ & Hf & _).
    rewrite Hf, lookup_insert_eq in Hdoc. discriminate Hdoc.
Qed.


Lemma routing_gate_witness :
  calls_since world0 (extract_zip 0 (env_ok chat_files) extracted_event world0).2
  = [].
Proof.
  destruct (routing_gate 0 (env_ok chat_files) extracted_event world0)
    as [_ Hskip].
  destruct Hskip as (_ & Hcalls & _); [| exact Hcalls].
  intros (_ & _ & Hseg & _). vm_compute in Hseg. discriminate Hseg.
Defined.

Lemma loop_guard_unreachable_witness :
  in_intermediate_dir (split "/"%char backup_key) = false.
Proof.
  apply (proj1 loop_guard_unreachable backup_key). vm_compute. reflexivity.
Defined.

Lemma chunked_copy_terminates_witness :
  let source := "user/u1/extracted/backup/_chat.txt"%string in
  let destination := "user/u1/chats/backup/_chat.txt"%string in
  rewrite_blob 1 env_chunked destination source world_published
  = (Ret tt,
     advance
       [CallRewrite source destination None (Rewritten (Some "t1"%string));
        CallRewrite source destination (Some "t1"%string) (Rewritten None)]
       []
       (with_bucket
          (<[destination := Blob chat_txt "text/plain"]> (bucket world_published))
          world_published)).
Proof.
  intros source destination.
  refine (proj1 (proj2 (chunked_copy_terminates 1 env_chunked
                          "user/u1/extracted/backup/" "user/u1/chats/backup/"
                          source (Blob chat_txt "text/plain") [] 0
                          world_published _) _ _ _)).
  - vm_compute. reflexivity.
  - apply chain_more; [reflexivity |]. apply chain_done. reflexivity.
  - simpl. lia.
Defined.

Lemma corrupt_archive_is_terminal_witness :
  let r := extract_zip 0 env_corrupt backup_event world0 in
  r.1 = Ret tt /\ bucket r.2 = bucket world0 /\ firestore r.2 = firestore world0.
Proof.
  destruct (corrupt_archive_is_terminal 0 env_corrupt backup_event world0
              (Blob zip_bytes "application/zip"))
    as (Hout & _ & Hb & Hf & _).
  - exact backup_key_eligible.
  - reflexivity.
  - vm_compute. reflexivity.
  - left. reflexivity.
  - exact (conj Hout (conj Hb Hf)).
Defined.

Lemma no_marker_no_mirror_witness :
  let r := extract_zip 0 (env_ok plain_files) backup_event world0 in
  r.1 = Ret tt /\ firestore r.2 = firestore world0.
Proof.
  destruct (no_marker_no_mirror 0 (env_ok plain_files) backup_event world0)
    as (Hout & _ & Hf & _).
  - apply (list_elem_of_lookup_2 _ 3). vm_compute. reflexivity.
  - exact (conj Hout Hf).
Defined.

Lemma upload_failures_are_isolated_witness :
  let r := extract_zip 0 env_upload_fails backup_event world0 in
  bucket r.2 !! "user/u1/extracted/backup/sub/b.txt"%string
  = Some (Blob b_txt "text/plain").
Proof.
  refine (proj1 (proj2 (upload_failures_are_isolated 0 env_upload_fails
                          backup_event world0
                          (Blob zip_bytes "application/zip") plain_files _))
            ("sub/b.txt"%string, b_txt) _).
  - apply backup_extracted; reflexivity.
  - vm_compute. left.
Defined.

Lemma marker_found_mirrors_and_caches_witness :
  let r := extract_zip 1 env_chunked backup_event world0 in
  r.1 = Ret tt /\ mirrored_and_cached backup_event world0 r.2.
Proof.
  apply (marker_found_mirrors_and_caches 1 env_chunked backup_event world0).
  - unfold marker_found. apply (list_elem_of_lookup_2 _ 4).
    vm_compute. reflexivity.
  - intros blobs. reflexivity.
  - intros name o _ _.
    eexists. split.
    + apply chain_more; [reflexivity |]. apply chain_done. reflexivity.
    + simpl. lia.
  - reflexivity.
Defined.

Lemma cache_only_after_full_copy_witness :
  let r := extract_zip 0 env_copy_fails backup_event world0 in
  r.1 = Raise CopyFailed /\ firestore r.2 = firestore world0.
Proof.
  destruct (proj2 (cache_only_after_full_copy 0 env_copy_fails backup_event
                     world0)
              (CallRewrite "user/u1/extracted/backup/_chat.txt"
                 "user/u1/chats/backup/_chat.txt" None RewriteError))
    as (Hout & _ & Hf & _).
  - apply (list_elem_of_lookup_2 _ 6). vm_compute. reflexivity.
  - reflexivity.
  - exact (conj Hout Hf).
Defined.

Lemma rerun_is_idempotent_witness :
  let r1 := extract_zip 0 (env_ok chat_files) backup_event world0 in
  let r2 := extract_zip 0 (env_ok chat_files) backup_event r1.2 in
  r1.1 = Ret tt /\ r2.1 = Ret tt
  /\ bucket r2.2 = bucket r1.2
  /\ exists t1 t2,
       t1 < t2
       /\ firestore r1.2 = <[("u1", "backup")%string := t1]> ∅
       /\ firestore r2.2 = <[("u1", "backup")%string := t2]> ∅.
Proof.
  destruct (rerun_is_idempotent 0 (env_ok chat_files) backup_event world0
              (env_ok_agrees chat_files _))
    as ((_ & Hb & _) & _ & Hfull).
  destruct (Hfull _ _ backup_pipeline_answers)
    as (Hout1 & Hout2 & _ & t1 & t2 & _ & Hlt & Hf1 & Hf2 & _).
  split; [exact Hout1 |]. split; [exact Hout2 |]. split; [exact Hb |].
  exists t1, t2. split; [exact Hlt |]. split; [exact Hf1 | exact Hf2].
Defined.


(** * Further properties of the handler *)

(** ** Download failures (lines 72-79) *)

(** X1. When the download from an eligible key raises, or the object is no
    longer in the bucket, the handler logs the error and returns normally:
    the download is the only call of the run, and the bucket and the document
    store are left as they were. *)
Theorem download_failure_is_terminal (fuel : nat) (e : env)
    (event : StorageObjectData) (w : world) :
  let key := data_name event in
  let r := extract_zip fuel e event w in
  eligible_key key ->
  download_fails e key = true \/ bucket w !! key = None ->
  r.1 = Ret tt
  /\ calls_since w r.2 = [CallDownload key]
  /\ bucket r.2 = bucket w
  /\ firestore r.2 = firestore w
  /\ ErrorDownload key ∈ log_since w r.2.
Proof.
  intros key r Hel Hfail. subst r.
  rewrite extract_zip_run. cbn zeta. fold key.
  apply not_zip_upload_false in Hel. rewrite Hel.
  assert (Hgoal :
    let w' := advance [CallDownload key]
                [InfoDownloading key; ErrorDownload key]
                (advance [] [InfoProcessing (data_bucket event) key] w) in
    calls_since w w' = [CallDownload key]
    /\ bucket w' = bucket w
    /\ firestore w' = firestore w
    /\ ErrorDownload key ∈ log_since w w').
  { cbn zeta. split; [| split; [done | split; [done |]]].
    - apply calls_since_advance. cbn [calls advance]. by rewrite app_nil_r.
    - erewrite log_since_advance;
        [| cbn [log advance]; by rewrite <- app_assoc].
      elem_of_norm. auto. }
  destruct (download_fails e key) eqn:Hdl; [by split |].
  destruct Hfail as [Hf | Hf]; [done |]. rewrite Hf. by split.
Qed.

Lemma download_failure_is_terminal_witness :
  let r := extract_zip 0 env_download_fails backup_event world0 in
  r.1 = Ret tt /\ bucket r.2 = bucket world0.
Proof.
  destruct (download_failure_is_terminal 0 env_download_fails backup_event
              world0)
    as (Hout & _ & Hb & _).
  - exact backup_key_eligible.
  - left. reflexivity.
  - exact (conj Hout Hb).
Defined.

(** ** Which exceptions leave the handler *)

Lemma escaping_copy (cs : list call) :
  Forall (fun c => is_rewrite c = true) cs ->
  Forall (fun c => is_copy_error c = false) cs ->
  Forall (fun c => escaping c = None) cs.
Proof.
  intros Hrw Herr. rewrite Forall_forall in Hrw, Herr |- *.
  intros c Hc. specialize (Hrw c Hc). specialize (Herr c Hc).
  by destruct c as [| | | | ? ? ? [] |].
Qed.

(** Either no call of the run let an exception out and the run did not
    raise, or the last call did and the run raised that exception. *)
Lemma run_shape_escape (fuel : nat) (e : env) (event : StorageObjectData)
    (w : world) (out : outcome unit) (w' : world) :
  run_shape fuel e event w out w' ->
  (Forall (fun c => escaping c = None) (calls_since w w')
   /\ forall ex, out <> Raise ex)
  \/ (exists pre c ex,
        calls_since w w' = pre ++ [c]
        /\ escaping c = Some ex
        /\ Forall (fun c' => escaping c' = None) pre
        /\ out = Raise ex).
Proof.
  intros Hs.
  shape_cases Hs;
    try (pose proof (copy_run_rewrites_eq _ _ _ _ _ _ _ _ _ _ Hplan) as Hcs;
         pose proof (copy_run_outcome fuel e (run_source_prefix event)
                       (run_destination_prefix event) blobs 0
                       (run_published e event w b0 files0)) as Hok;
         rewrite Hplan in Hok);
    rewrite Hc.
  - left. by split.
  - left. split; [by repeat constructor | done].
  - right.
    exists (run_calls e event b0 files0 []),
      (CallExists (run_marker event) None), ExistsFailed.
    split; [by rewrite <- run_calls_snoc |]. split; [done |].
    split; [calls_kind | done].
  - left. split; [calls_kind | done].
  - right.
    exists (run_calls e event b0 files0
              [CallExists (run_marker event) (Some true)]),
      (CallListBlobs (run_source_prefix event) None), ListFailed.
    split; [by rewrite <- run_calls_snoc |]. split; [done |].
    split; [calls_kind | done].
  - left. split; [calls_kind | done].
  - left. split; [| done].
    apply Forall_run_calls; [done | done |].
    do 2 (constructor; [done |]). apply Forall_app.
    split; [by apply escaping_copy | by repeat constructor].
  - right.
    exists (run_calls e event b0 files0
              (CallExists (run_marker event) (Some true)
                 :: CallListBlobs (run_source_prefix event) (Some blobs)
                 :: cs)),
      (CallDocSet (run_user_id event) (run_zip_name_base event) None),
      CacheWriteFailed.
    split; [by rewrite <- run_calls_snoc |]. split; [done |].
    split; [| done].
    apply Forall_run_calls; [done | done |].
    do 2 (constructor; [done |]). by apply escaping_copy.
  - right. destruct Hok as (-> & pre & c & -> & Herr & Hpre).
    apply Forall_app in Hcs as [Hcs Hlast].
    exists (run_calls e event b0 files0
              (CallExists (run_marker event) (Some true)
                 :: CallListBlobs (run_source_prefix event) (Some blobs)
                 :: pre)), c, CopyFailed.
    split; [by rewrite <- run_calls_snoc |].
    split; [by destruct c as [| | | | ? ? ? [] |] |].
    split; [| done].
    apply Forall_run_calls; [done | done |].
    do 2 (constructor; [done |]). by apply escaping_copy.
  - left. split; [| done].
    apply Forall_run_calls; [done | done |].
    do 2 (constructor; [done |]). by apply escaping_copy.
Qed.

(** X2. The exceptions of the download, of the extraction and of the uploads
    are caught; an exception leaves the handler only from a call outside
    every [try]: the marker check, the listing, a copy call or the write to
    the document store.  When the handler raises, the call that raised is the
    last call it made and no call before it raised such an exception; and
    when one of those calls raises, its exception is the outcome of the
    run: none of them is caught. *)
Theorem only_unguarded_calls_escape (fuel : nat) (e : env)
    (event : StorageObjectData) (w : world) (ex : exn) :
  let r := extract_zip fuel e event w in
  (r.1 = Raise ex ->
   exists pre c,
     calls_since w r.2 = pre ++ [c]
     /\ escaping c = Some ex
     /\ Forall (fun c' => escaping c' = None) pre)
  /\ (forall c,
        c ∈ calls_since w r.2 -> escaping c = Some ex -> r.1 = Raise ex).
Proof.
  intros r.
  destruct (run_shape_escape fuel e event w r.1 r.2
              (extract_zip_shape fuel e event w))
    as [[Hall Hout] | (pre & c & ex' & Hcalls & Hc & Hpre & Hout)].
  - split; [intros Hr; by apply Hout in Hr |].
    rewrite Forall_forall in Hall. intros c Hin Hc.
    apply Hall in Hin. congruence.
  - split.
    + intros Hr. rewrite Hout in Hr. injection Hr as <-. by exists pre, c.
    + intros c' Hin Hc'. rewrite Hcalls in Hin. rewrite Forall_forall in Hpre.
      apply elem_of_app in Hin as [Hin | Hin%list_elem_of_singleton].
      * apply Hpre in Hin. congruence.
      * subst c'. congruence.
Qed.

Lemma only_unguarded_calls_escape_witness :
  exists pre c,
    calls_since world0 (extract_zip 0 env_check_fails backup_event world0).2
    = pre ++ [c]
    /\ escaping c = Some ExistsFailed.
Proof.
  destruct (proj1 (only_unguarded_calls_escape 0 env_check_fails backup_event
                     world0 ExistsFailed))
    as (pre & c & Hcalls & Hc & _).
  - vm_compute. reflexivity.
  - exists pre, c. exact (conj Hcalls Hc).
Defined.

(** ** What a run leaves alone *)

(** The final bucket of any run is the initial one after the uploads of the
    run and writes under the chats prefix. *)
Lemma run_shape_bucket (fuel : nat) (e : env) (event : StorageObjectData)
    (w : world) (out : outcome unit) (w' : world) :
  run_shape fuel e event w out w' ->
  exists (us : list (string * bytes)) (ws : list (string * blob)),
    bucket w'
    = apply_writes ws
        (apply_writes
           (upload_write e (run_user_id event) (run_zip_name_base event) <$> us)
           (bucket w))
    /\ Forall (fun kv => startswith (run_destination_prefix event) kv.1 = true)
         ws.
Proof.
  intros Hs.
  shape_cases Hs;
    try (pose proof (copy_run_writes_under _ _ _ _ _ _ _ _ _ _ Hplan) as Hws);
    try (by exists [], []);
    first [ exists (run_stored e event b0 files0), ws; by rewrite Hb
          | exists (run_stored e event b0 files0), []; by rewrite Hb ].
Qed.

(** X3. A run changes the bucket only under the extracted prefix and the
    chats prefix of its own archive: every other object, of this user or of
    any other, is as it was; and the handler deletes nothing, so every name
    that held an object before the run still holds one after it. *)
Theorem run_touches_only_its_prefixes (fuel : nat) (e : env)
    (event : StorageObjectData) (w : world) :
  let r := extract_zip fuel e event w in
  (forall name,
     startswith (run_source_prefix event) name = false ->
     startswith (run_destination_prefix event) name = false ->
     bucket r.2 !! name = bucket w !! name)
  /\ (forall name, is_Some (bucket w !! name) -> is_Some (bucket r.2 !! name)).
Proof.
  intros r.
  destruct (run_shape_bucket fuel e event w r.1 r.2
              (extract_zip_shape fuel e event w)) as (us & ws & Hb & Hws).
  split.
  - intros name Hs Hd. rewrite Hb.
    rewrite (writes_under_keep _ _ _ _ Hws) by done.
    apply lookup_apply_writes_None. intros Hin.
    apply upload_keys_listed in Hin.
    unfold run_source_prefix in Hs. congruence.
  - intros name Hname. rewrite Hb. by do 2 apply writes_under_is_Some.
Qed.

(** X4. The uploaded archive itself is never touched: after any run the
    object at the key of the event is the one that was there before (the
    deletion of the source is commented out in lines 163-169). *)
Theorem source_archive_is_kept (fuel : nat) (e : env)
    (event : StorageObjectData) (w : world) :
  let r := extract_zip fuel e event w in
  bucket r.2 !! data_name event = bucket w !! data_name event.
Proof.
  intros r.
  destruct (decide (not_zip_upload (data_name event)
                      (split "/"%char (data_name event)) = false))
    as [Hel | Hne].
  - apply not_zip_upload_false in Hel.
    destruct (eligible_key_not_listed (data_name event)
                (run_zip_name_base event) Hel) as [Hs Hd].
    destruct (run_shape_bucket fuel e event w r.1 r.2
                (extract_zip_shape fuel e event w)) as (us & ws & Hb & Hws).
    rewrite Hb.
    rewrite (writes_under_keep _ _ _ _ Hws) by exact Hd.
    apply lookup_apply_writes_None. intros Hin.
    apply upload_keys_listed in Hin.
    unfold run_user_id, run_key in Hin. congruence.
  - apply not_false_iff_true in Hne. subst r.
    rewrite extract_zip_run. cbn zeta. by rewrite Hne.
Qed.

(** X5. A run touches at most one document of the store, the one of its own
    (UserId, ArchiveBaseName): every other document is as it was, and no
    document is deleted. *)
Theorem run_touches_only_its_document (fuel : nat) (e : env)
    (event : StorageObjectData) (w : world) :
  let r := extract_zip fuel e event w in
  (forall doc,
     doc <> (run_user_id event, run_zip_name_base event) ->
     firestore r.2 !! doc = firestore w !! doc)
  /\ (forall doc,
        is_Some (firestore w !! doc) -> is_Some (firestore r.2 !! doc)).
Proof.
  intros r.
  destruct (run_shape_summary fuel e event w r.1 r.2
              (extract_zip_shape fuel e event w)) as ([] & _ & Hdoc).
  - destruct Hdoc as (t & _ & _ & -> & _). split.
    + intros doc Hne. by rewrite lookup_insert_ne.
    + intros doc Hd.
      destruct (decide ((run_user_id event, run_zip_name_base event) = doc))
        as [-> | Hne].
      * rewrite lookup_insert_eq. by eexists.
      * by rewrite lookup_insert_ne.
  - destruct Hdoc as [-> _]. by split.
Qed.

Lemma run_touches_only_its_prefixes_witness :
  let r := extract_zip 0 (env_ok chat_files) backup_event world0 in
  bucket r.2 !! "user/u2/chats/backup/_chat.txt"%string
  = bucket world0 !! "user/u2/chats/backup/_chat.txt"%string.
Proof.
  apply (proj1 (run_touches_only_its_prefixes 0 (env_ok chat_files)
                  backup_event world0)).
  - vm_compute. reflexivity.
  - vm_compute. reflexivity.
Defined.

Lemma run_touches_only_its_document_witness :
  let r := extract_zip 0 (env_ok chat_files) backup_event world0 in
  firestore r.2 !! ("u2", "backup")%string
  = firestore world0 !! ("u2", "backup")%string.
Proof.
  apply (proj1 (run_touches_only_its_document 0 (env_ok chat_files)
                  backup_event world0)).
  vm_compute. discriminate.
Defined.

(** ** The handler does not trigger itself *)

(** A name under the extracted prefix or under the chats prefix of a
    slash-free user id has [extracted] or [chats] as segment 2. *)
Lemma written_name_not_eligible (user_id zip_name_base name : string) :
  rfind "/"%char user_id = None ->
  startswith (source_prefix_of user_id zip_name_base) name = true
  \/ startswith (destination_prefix_of user_id zip_name_base) name = true ->
  ~ eligible_key name.
Proof.
  intros Hu Hname (_ & _ & Hseg & _).
  destruct Hname as [[rel ->]%startswith_inv | [rel ->]%startswith_inv];
    unfold source_prefix_of, destination_prefix_of in Hseg;
    rewrite !append_assoc in Hseg.
  - change ("/extracted/" +:+ zip_name_base +:+ "/" +:+ rel)%string
      with (String "/"%char ("extracted" +:+ String "/"%char
                               (zip_name_base +:+ "/" +:+ rel)))%string
      in Hseg.
    rewrite split_user_dir in Hseg by done. discriminate Hseg.
  - change ("/chats/" +:+ zip_name_base +:+ "/" +:+ rel)%string
      with (String "/"%char ("chats" +:+ String "/"%char
                               (zip_name_base +:+ "/" +:+ rel)))%string
      in Hseg.
    rewrite split_user_dir in Hseg by done. discriminate Hseg.
Qed.

Lemma chunks_written (n : nat) (e : env) (source destination : string)
    (tok : option token) :
  Forall (fun c => written_name c = Some destination)
    (chunks n e source destination tok).1.
Proof.
  revert tok; induction n as [|n IH]; intros tok; [by constructor |].
  cbn [chunks].
  destruct (rewrite_response_of e source destination tok) as [[t|]|].
  - specialize (IH (Some t)).
    destruct (chunks n e source destination (Some t)) as [cs o].
    by constructor.
  - by repeat constructor.
  - by repeat constructor.
Qed.

(** Every call of the copy loop writes under the chats prefix. *)
Lemma copy_run_written (fuel : nat) (e : env)
    (source_prefix destination_prefix : string)
    (blobs : list (string * blob)) (copy_count : nat) (b : gmap string blob) :
  Forall (fun c => exists name,
            written_name c = Some name
            /\ startswith destination_prefix name = true)
    (copy_run fuel e source_prefix destination_prefix blobs copy_count b).1.1.
Proof.
  revert copy_count b; induction blobs as [|[name o] rest IH];
    intros copy_count b; [by constructor |].
  cbn [copy_run].
  assert (Hchunks : forall cs,
            Forall (fun c => written_name c
                             = Some (mirrored_blob_name source_prefix
                                       destination_prefix name)) cs ->
            Forall (fun c => exists name',
                      written_name c = Some name'
                      /\ startswith destination_prefix name' = true) cs).
  { intros cs Hcs. eapply Forall_impl; [exact Hcs |].
    intros c Hc. eexists. split; [exact Hc | apply mirrored_under_chats]. }
  destruct (b !! name) as [o'|].
  2:{ cbn [fst]. apply Hchunks. by repeat constructor. }
  pose proof (chunks_written (S fuel) e name
                (mirrored_blob_name source_prefix destination_prefix name)
                None) as Hcs.
  apply Hchunks in Hcs.
  destruct (chunks (S fuel) e name _ None) as [cs [[]| ex |]]; [| done | done].
  specialize (IH (S copy_count)
                (<[mirrored_blob_name source_prefix destination_prefix name
                   := o']> b)).
  destruct (copy_run fuel e source_prefix destination_prefix rest
              (S copy_count) _) as [[cs' ws] out].
  cbn [fst] in *. by apply Forall_app.
Qed.

(** Every call of a run that writes an object writes it under the extracted
    prefix or under the chats prefix of the archive. *)
Lemma run_shape_written (fuel : nat) (e : env) (event : StorageObjectData)
    (w : world) (out : outcome unit) (w' : world) (c : call) (name : string) :
  run_shape fuel e event w out w' ->
  c ∈ calls_since w w' ->
  written_name c = Some name ->
  startswith (run_source_prefix event) name = true
  \/ startswith (run_destination_prefix event) name = true.
Proof.
  intros Hs Hin Hw.
  shape_cases Hs;
    try (pose proof (copy_run_written fuel e (run_source_prefix event)
                       (run_destination_prefix event) blobs 0
                       (run_published e event w b0 files0)) as Hcs;
         rewrite Hplan in Hcs; cbn [fst] in Hcs;
         rewrite Forall_forall in Hcs);
    rewrite Hc in Hin;
    try (by apply elem_of_nil in Hin);
    try (apply list_elem_of_singleton in Hin as ->; discriminate Hw);
    apply elem_of_run_calls in Hin as [-> | [(f & Hcand & ->) | Hin]];
    try discriminate Hw;
    try (cbn in Hw; injection Hw as <-; left;
         rewrite extracted_blob_name_prefix; apply startswith_append);
    repeat (apply elem_of_cons in Hin as [-> | Hin]; [discriminate Hw |]);
    try (by apply elem_of_nil in Hin);
    try (apply elem_of_app in Hin as [Hin | Hin%list_elem_of_singleton];
         [| subst c; discriminate Hw]);
    apply Hcs in Hin as (name' & Hname' & Hunder);
    right; congruence.
Qed.

(** X6. The handler never triggers itself: every object that a run creates
    or overwrites (an object whose content the run changed, the blob of an
    upload call, the destination of a copy call) has a name that the routing
    test rejects (segment 2 is [extracted] or [chats], whatever the archive
    contains, even [.zip] files), so a run on the finalize event of such an
    object makes no call and changes nothing. *)
Theorem written_objects_are_skipped (fuel : nat) (e : env)
    (event : StorageObjectData) (w : world) (name : string) :
  let r := extract_zip fuel e event w in
  bucket r.2 !! name <> bucket w !! name
  \/ (exists c, c ∈ calls_since w r.2 /\ written_name c = Some name) ->
  ~ eligible_key name
  /\ forall fuel' e' event' w',
       data_name event' = name ->
       let r' := extract_zip fuel' e' event' w' in
       r'.1 = Ret tt
       /\ calls_since w' r'.2 = []
       /\ bucket r'.2 = bucket w'
       /\ firestore r'.2 = firestore w'.
Proof.
  intros r Hwritten.
  assert (Hnot : ~ eligible_key name).
  { destruct (decide (not_zip_upload (data_name event)
                        (split "/"%char (data_name event)) = false))
      as [Hel | Hne].
    - apply not_zip_upload_false in Hel.
      apply (written_name_not_eligible (run_user_id event)
               (run_zip_name_base event)).
      { by apply eligible_user_id_no_slash. }
      destruct Hwritten as [Hchanged | (c & Hin & Hw)].
      + destruct (startswith (source_prefix_of (run_user_id event)
                                (run_zip_name_base event)) name) eqn:Hs;
          [by left |].
        destruct (startswith (destination_prefix_of (run_user_id event)
                                (run_zip_name_base event)) name) eqn:Hd;
          [by right |].
        exfalso. apply Hchanged.
        destruct (run_shape_bucket fuel e event w r.1 r.2
                    (extract_zip_shape fuel e event w))
          as (us & ws & Hb & Hws).
        rewrite Hb.
        rewrite (writes_under_keep _ _ _ _ Hws) by exact Hd.
        apply lookup_apply_writes_None. intros Hin.
        apply upload_keys_listed in Hin. congruence.
      + exact (run_shape_written fuel e event w r.1 r.2 c name
                 (extract_zip_shape fuel e event w) Hin Hw).
    - apply not_false_iff_true in Hne. exfalso.
      assert (Hskip : bucket r.2 = bucket w /\ calls_since w r.2 = []).
      { subst r. rewrite extract_zip_run. cbn zeta. rewrite Hne.
        cbn [fst snd bucket firestore advance]. split; [done |].
        apply calls_since_advance. cbn [calls advance].
        by rewrite !app_nil_r. }
      destruct Hskip as [Hb Hc].
      destruct Hwritten as [Hchanged | (c & Hin & _)].
      + apply Hchanged. by rewrite Hb.
      + rewrite Hc in Hin. by apply elem_of_nil in Hin. }
  split; [done |].
  intros fuel' e' event' w' Hname r'. subst r' name.
  apply not_zip_upload_true in Hnot.
  rewrite extract_zip_run. cbn zeta. rewrite Hnot.
  cbn [fst snd bucket firestore advance]. repeat split.
  apply calls_since_advance. cbn [calls advance]. by rewrite !app_nil_r.
Qed.

Lemma written_objects_are_skipped_witness :
  ~ eligible_key "user/u1/chats/backup/a.txt"
  /\ (extract_zip 0 (env_ok chat_files)
        {| data_bucket := "bucket";
           data_name := "user/u1/chats/backup/a.txt";
           data_content_type := None |} world0).1 = Ret tt.
Proof.
  destruct (written_objects_are_skipped 0 (env_ok chat_files) backup_event
              world0 "user/u1/chats/backup/a.txt") as [Hnot Hrun].
  - right.
    exists (CallRewrite "user/u1/extracted/backup/a.txt"
              "user/u1/chats/backup/a.txt" None (Rewritten None)).
    split; [| reflexivity].
    apply (list_elem_of_lookup_2 _ 7). vm_compute. reflexivity.
  - split; [exact Hnot |].
    exact (proj1 (Hrun 0 (env_ok chat_files)
                    {| data_bucket := "bucket";
                       data_name := "user/u1/chats/backup/a.txt";
                       data_content_type := None |}
                    world0 eq_refl)).
Defined.

(** ** The identifiers of an eligible key (lines 54-57) *)

(** X7. For an eligible key, UserId (segment 1) and the archive file name
    (the last segment) contain no slash; the file name is a stem followed by a
    four-character extension that is [.zip] up to case; and ArchiveBaseName is
    that stem, except when the stem is empty or has only dots (as in [.zip]
    or [..zip]): then nothing is stripped and the whole file name is the base
    name.  In both cases the base name contains no slash. *)
Theorem eligible_key_identifiers (key : string) :
  eligible_key key ->
  rfind "/"%char (user_id_of key) = None
  /\ rfind "/"%char (zip_filename_of key) = None
  /\ rfind "/"%char (zip_name_base_of key) = None
  /\ exists stem ext,
       zip_filename_of key = (stem +:+ ext)%string
       /\ lower ext = ".zip"%string
       /\ zip_name_base_of key
          = if all_dots stem then zip_filename_of key else stem.
Proof.
  intros Hel.
  split; [by apply eligible_user_id_no_slash |].
  split; [apply last_item_no_sep |].
  destruct (zip_filename_decomposition key Hel)
    as (stem & ext & Hname & Hext & Hstem).
  assert (Hbase : zip_name_base_of key
                  = if all_dots stem then zip_filename_of key else stem).
  { unfold zip_name_base_of. rewrite Hname, splitext_zip by done.
    by destruct (all_dots stem). }
  split.
  - rewrite Hbase. destruct (all_dots stem); [| done]. apply last_item_no_sep.
  - by exists stem, ext.
Qed.

Lemma eligible_key_identifiers_witness :
  rfind "/"%char (user_id_of "user/u1/uploads/.ZIP") = None
  /\ rfind "/"%char (zip_filename_of "user/u1/uploads/.ZIP") = None
  /\ rfind "/"%char (zip_name_base_of "user/u1/uploads/.ZIP") = None
  /\ exists stem ext,
       zip_filename_of "user/u1/uploads/.ZIP" = (stem +:+ ext)%string
       /\ lower ext = ".zip"%string
       /\ zip_name_base_of "user/u1/uploads/.ZIP"
          = if all_dots stem then zip_filename_of "user/u1/uploads/.ZIP"
            else stem.
Proof.
  apply (eligible_key_identifiers "user/u1/uploads/.ZIP").
  unfold eligible_key.
  split; [reflexivity |]. split; [vm_compute; lia |]. split; reflexivity.
Defined.

(** ** What makes the marker check succeed (lines 122-125) *)

Lemma marker_check_in_run (e : env) (event : StorageObjectData) (b : blob)
    (files : list (string * bytes)) (found : option bool) (post : list call) :
  CallExists (run_marker event) found
    ∈ run_calls e event b files (CallExists (run_marker event) found :: post).
Proof. unfold run_calls. right. apply elem_of_app. right. by left. Qed.

Lemma run_shape_marker (fuel : nat) (e : env) (event : StorageObjectData)
    (w : world) (out : outcome unit) (w' : world) (b : blob)
    (files : list (string * bytes)) :
  run_shape fuel e event w out w' ->
  extracted e event w b files ->
  marker_found event w w'
  <-> exists_fails e (run_marker event) = false
      /\ is_Some (run_published e event w b files !! run_marker event).
Proof.
  intros Hs Hext'. unfold marker_found.
  shape_cases Hs;
    try (destruct (extracted_inj _ _ _ _ _ _ _ Hext' Hext) as [-> ->]);
    rewrite Hc;
    try (split; [done | intros _; apply marker_check_in_run]).
  - by destruct (Hne (proj1 Hext')).
  - by destruct (stopped_not_extracted _ _ _ _ _ Hext' Hwhy).
  - split; [| intros [? _]; congruence].
    intros Hin. apply check_answer_unique in Hin; [done | by constructor].
  - split; [| intros [_ [? ?]]; congruence].
    intros Hin. apply check_answer_unique in Hin; [done | by constructor].
Qed.

(** X8. The marker check looks at the bucket, not at the archive: after a
    successful extraction, the check answers that [_chat.txt] is there
    exactly when the call does not raise and the object was already under
    the extracted prefix before the run (left there by an earlier run), or
    the scratch directory has a [_chat.txt] at its root and the upload of
    that file did not fail. *)
Theorem marker_found_iff (fuel : nat) (e : env) (event : StorageObjectData)
    (w : world) (b : blob) (files : list (string * bytes)) :
  let r := extract_zip fuel e event w in
  extracted e event w b files ->
  marker_found event w r.2
  <-> exists_fails e (run_marker event) = false
      /\ (is_Some (bucket w !! run_marker event)
          \/ exists data,
               run_temp_dir event b files !! "_chat.txt"%string = Some data
               /\ upload_fails e (run_marker event) = false).
Proof.
  intros r Hext.
  rewrite (run_shape_marker fuel e event w r.1 r.2 b files
             (extract_zip_shape fuel e event w) Hext).
  by rewrite (published_marker e event w b files (proj1 Hext)).
Qed.

Lemma marker_found_iff_witness :
  marker_found backup_event world0
    (extract_zip 0 (env_ok chat_files) backup_event world0).2.
Proof.
  apply (marker_found_iff 0 (env_ok chat_files) backup_event world0
           (Blob zip_bytes "application/zip") chat_files).
  - apply backup_extracted; reflexivity.
  - split; [reflexivity |].
    right. exists chat_txt. split; [vm_compute |]; reflexivity.
Defined.

(** ** The listing of the mirror stage (lines 132-135) *)

Lemma blobs_under_nil (prefix : string) (b : gmap string blob) :
  (forall name, startswith prefix name = true -> b !! name = None) ->
  blobs_under prefix b = [].
Proof.
  intros Hnone. apply elem_of_nil_inv. intros [name o] Hin.
  apply elem_of_blobs_under in Hin as [Hl Hp].
  rewrite (Hnone name Hp) in Hl. discriminate Hl.
Qed.

(** X9. When the listing of the mirror stage answers with no object (as it
    does when it agrees with the bucket and nothing is under the extracted
    prefix, the marker having vanished since the check), the stage logs the
    warning and returns normally: the listing is its only call, nothing is
    copied, and no cache record is written. *)
Theorem empty_listing_writes_no_cache (fuel : nat) (e : env)
    (user_id zip_name_base : string) (w : world) :
  let source_prefix := source_prefix_of user_id zip_name_base in
  let r := mirror_stage fuel e user_id zip_name_base w in
  list_blobs_answer e source_prefix (blobs_under source_prefix (bucket w))
    = Some []
  \/ (listing_agrees e source_prefix
      /\ forall name, startswith source_prefix name = true ->
                      bucket w !! name = None) ->
  r.1 = Ret tt
  /\ calls_since w r.2 = [CallListBlobs source_prefix (Some [])]
  /\ bucket r.2 = bucket w
  /\ firestore r.2 = firestore w
  /\ log_since w r.2 = [InfoFoundChat zip_name_base; WarnNoBlobs source_prefix].
Proof.
  intros source_prefix r Hnone. subst r.
  assert (Hlisted : list_blobs_answer e source_prefix
                      (blobs_under source_prefix (bucket w)) = Some []).
  { destruct Hnone as [Hnil | [Hag Hnone]]; [done |].
    by rewrite Hag, (blobs_under_nil source_prefix (bucket w) Hnone). }
  rewrite mirror_stage_run. cbn zeta. fold source_prefix. rewrite Hlisted.
  cbn [fst snd bucket firestore advance]. repeat split.
  - by apply calls_since_advance.
  - by apply log_since_advance.
Qed.

Lemma empty_listing_writes_no_cache_witness :
  let r := mirror_stage 0 env_nothing_listed "u1" "backup" world_published in
  r.1 = Ret tt /\ firestore r.2 = firestore world_published.
Proof.
  destruct (empty_listing_writes_no_cache 0 env_nothing_listed "u1" "backup"
              world_published) as (Hout & _ & _ & Hf & _).
  - left. reflexivity.
  - exact (conj Hout Hf).
Defined.

(** A run that logs the warning of line 134 extracted the archive. *)
Lemma run_warning_extracted (fuel : nat) (e : env) (event : StorageObjectData)
    (w : world) (prefix : string) :
  WarnNoBlobs prefix ∈ log_since w (extract_zip fuel e event w).2 ->
  exists b files, extracted e event w b files.
Proof.
  rewrite extract_zip_run. cbn zeta. set (key := data_name event).
  assert (Hshort : forall (cs : list call) (l : list log_record),
            WarnNoBlobs prefix ∉ l ->
            WarnNoBlobs prefix
              ∉ log_since w
                  (advance cs l
                     (advance [] [InfoProcessing (data_bucket event) key] w))).
  { intros cs l Hl.
    erewrite log_since_advance;
      [| cbn [log advance]; by rewrite <- app_assoc].
    elem_of_norm. refute_elem. }
  destruct (not_zip_upload key (split "/"%char key)) eqn:Hskip.
  { intros Hin. exfalso. revert Hin. apply Hshort. elem_of_norm. refute_elem. }
  destruct (download_fails e key) eqn:Hdl.
  { intros Hin. exfalso. revert Hin. apply Hshort. elem_of_norm. refute_elem. }
  destruct (bucket w !! key) as [b|] eqn:Hb.
  2: { intros Hin. exfalso. revert Hin. apply Hshort.
       elem_of_norm. refute_elem. }
  destruct (extractall e (zip_filename_of key) (blob_data b))
    as [files | |] eqn:Hex.
  - intros _. exists b, files.
    split; [by apply not_zip_upload_false |]. done.
  - intros Hin. exfalso. revert Hin. apply Hshort. elem_of_norm. refute_elem.
  - intros Hin. exfalso. revert Hin. apply Hshort. elem_of_norm. refute_elem.
Qed.

(** The warning is logged by the run in which the listing answered with no
    object, after a marker check that found the marker. *)
Lemma run_shape_warning (fuel : nat) (e : env) (event : StorageObjectData)
    (w : world) (out : outcome unit) (w' : world) (prefix : string)
    (b : blob) (files : list (string * bytes)) :
  run_shape fuel e event w out w' ->
  extracted e event w b files ->
  WarnNoBlobs prefix ∈ log_since w w' ->
  prefix = run_source_prefix event
  /\ out = Ret tt
  /\ is_Some (run_published e event w b files !! run_marker event)
  /\ list_blobs_answer e (run_source_prefix event)
       (blobs_under (run_source_prefix event)
          (run_published e event w b files)) = Some []
  /\ calls_since w w'
     = run_calls e event b files
         [CallExists (run_marker event) (Some true);
          CallListBlobs (run_source_prefix event) (Some [])].
Proof.
  intros Hs Hext' Hin.
  shape_cases Hs;
    try (destruct (extracted_inj _ _ _ _ _ _ _ Hext' Hext) as [-> ->]);
    try (by destruct (Hne (proj1 Hext')));
    try (by destruct (stopped_not_extracted _ _ _ _ _ Hext' Hwhy));
    rewrite Hl in Hin; unfold run_log in Hin; elem_of_norm_in Hin;
    unfold upload_error in Hin;
    decompose [Logic.or Logic.ex Logic.and] Hin; try done.
  match goal with H : WarnNoBlobs _ = WarnNoBlobs _ |- _ => injection H as -> end.
  done.
Qed.

(** In a run whose marker check found the marker, the next call is the
    listing; a listing that raises or answers with no object ends the run,
    any other is followed by a copy call. *)
Lemma run_shape_listing (fuel : nat) (e : env) (event : StorageObjectData)
    (w : world) (out : outcome unit) (w' : world) :
  run_shape fuel e event w out w' ->
  marker_found event w w' ->
  exists b files listed post,
    extracted e event w b files
    /\ is_Some (run_published e event w b files !! run_marker event)
    /\ list_blobs_answer e (run_source_prefix event)
         (blobs_under (run_source_prefix event)
            (run_published e event w b files)) = listed
    /\ calls_since w w'
       = run_calls e event b files
           (CallExists (run_marker event) (Some true)
              :: CallListBlobs (run_source_prefix event) listed :: post)
    /\ match listed with
       | None => post = [] /\ out = Raise ListFailed
       | Some [] => post = [] /\ out = Ret tt
       | Some (_ :: _) => exists c post', post = c :: post' /\ is_rewrite c = true
       end.
Proof.
  intros Hs Hin. unfold marker_found in Hin.
  shape_cases Hs; rewrite Hc in Hin;
    try (pose proof (copy_run_first_call fuel e (run_source_prefix event)
                       (run_destination_prefix event) blobs 0
                       (run_published e event w b0 files0) Hsome)
           as (c & cs' & Hcs & Hrw);
         rewrite Hplan in Hcs; cbn [fst] in Hcs; subst cs;
         destruct blobs as [|x rest]; [done |]).
  - by apply elem_of_nil in Hin.
  - by apply list_elem_of_singleton in Hin.
  - apply check_answer_unique in Hin; [done | by constructor].
  - apply check_answer_unique in Hin; [done | by constructor].
  - by exists b0, files0, None, [].
  - by exists b0, files0, (Some []), [].
  - exists b0, files0, (Some (x :: rest)), ((c :: cs') ++ [CallDocSet (run_user_id event) (run_zip_name_base event) (Some t)]).
    do 4 (split; [done |]). by eexists _, _.
  - exists b0, files0, (Some (x :: rest)), ((c :: cs') ++ [CallDocSet (run_user_id event) (run_zip_name_base event) None]).
    do 4 (split; [done |]). by eexists _, _.
  - exists b0, files0, (Some (x :: rest)), (c :: cs').
    do 4 (split; [done |]). by eexists _, _.
  - exists b0, files0, (Some (x :: rest)), (c :: cs').
    do 4 (split; [done |]). by eexists _, _.
Qed.

(** X10. A found marker is always followed by the listing of the extracted
    prefix.  The listing is a second request, so it need not agree with the
    check: when it raises, the run ends with its exception; when it answers
    with no object, the run logs the [no blobs found] warning of line 134
    and returns, and this is the only way the warning is logged; otherwise
    a copy call follows.  When the listing agrees with the bucket in which
    the marker was just found, it is never empty: the run does not log the
    warning, and the found marker is followed by the listing and at least
    one copy call. *)
Theorem found_marker_is_listed (fuel : nat) (e : env)
    (event : StorageObjectData) (w : world) :
  let r := extract_zip fuel e event w in
  (marker_found event w r.2 ->
   exists pre listed post,
     calls_since w r.2
     = pre ++ CallExists (run_marker event) (Some true)
           :: CallListBlobs (run_source_prefix event) listed :: post
     /\ match listed with
        | None => post = [] /\ r.1 = Raise ListFailed
        | Some [] => post = [] /\ r.1 = Ret tt
        | Some (_ :: _) =>
            exists c post', post = c :: post' /\ is_rewrite c = true
        end)
  /\ (forall prefix,
        WarnNoBlobs prefix ∈ log_since w r.2 ->
        prefix = run_source_prefix event
        /\ r.1 = Ret tt
        /\ exists pre,
             calls_since w r.2
             = pre ++ [CallExists (run_marker event) (Some true);
                       CallListBlobs (run_source_prefix event) (Some [])])
  /\ (listing_agrees e (run_source_prefix event) ->
      (forall prefix, WarnNoBlobs prefix ∉ log_since w r.2)
      /\ (marker_found event w r.2 ->
          exists pre blobs c post,
            calls_since w r.2
            = pre ++ CallExists (run_marker event) (Some true)
                  :: CallListBlobs (run_source_prefix event) (Some blobs)
                  :: c :: post
            /\ is_rewrite c = true)).
Proof.
  intros r.
  pose proof (extract_zip_shape fuel e event w) as Hs. fold r in Hs.
  assert (Hwarn : forall prefix,
            WarnNoBlobs prefix ∈ log_since w r.2 ->
            exists b files,
              prefix = run_source_prefix event
              /\ r.1 = Ret tt
              /\ is_Some (run_published e event w b files !! run_marker event)
              /\ list_blobs_answer e (run_source_prefix event)
                   (blobs_under (run_source_prefix event)
                      (run_published e event w b files)) = Some []
              /\ calls_since w r.2
                 = run_calls e event b files
                     [CallExists (run_marker event) (Some true);
                      CallListBlobs (run_source_prefix event) (Some [])]).
  { intros prefix Hin.
    destruct (run_warning_extracted fuel e event w prefix Hin)
      as (b & files & Hext).
    exists b, files. by eapply run_shape_warning. }
  split; [| split].
  - intros Hfound.
    destruct (run_shape_listing fuel e event w r.1 r.2 Hs Hfound)
      as (b & files & listed & post & _ & _ & _ & Hc & Hpost).
    by exists (CallDownload (run_key event) :: run_uploads e event b files),
              listed, post.
  - intros prefix Hin.
    destruct (Hwarn prefix Hin) as (b & files & Hp & Hout & _ & _ & Hc).
    split; [done |]. split; [done |].
    by exists (CallDownload (run_key event) :: run_uploads e event b files).
  - intros Hag. split.
    + intros prefix Hin.
      destruct (Hwarn prefix Hin) as (b & files & _ & _ & Hfound & Hlist & _).
      by destruct (agreed_listing e event _ _ Hag Hfound Hlist)
        as [[= <-] Hnil].
    + intros Hfound.
      destruct (run_shape_listing fuel e event w r.1 r.2 Hs Hfound)
        as (b & files & listed & post & _ & Hmarker & Hlist & Hc & Hpost).
      destruct (agreed_listing e event _ _ Hag Hmarker Hlist) as [-> Hnil].
      destruct (blobs_under _ _) as [|x rest] eqn:Hblobs; [done |].
      destruct Hpost as (c & post' & -> & Hrw).
      by exists (CallDownload (run_key event) :: run_uploads e event b files),
                (x :: rest), c, post'.
Qed.

Lemma found_marker_is_listed_witness :
  exists pre blobs c post,
    calls_since world0 (extract_zip 0 (env_ok chat_files) backup_event world0).2
    = pre ++ CallExists (run_marker backup_event) (Some true)
          :: CallListBlobs (run_source_prefix backup_event) (Some blobs)
          :: c :: post
    /\ is_rewrite c = true.
Proof.
  apply (proj2 (proj2 (found_marker_is_listed 0 (env_ok chat_files)
                         backup_event world0))).
  - apply env_ok_agrees.
  - unfold marker_found. apply (list_elem_of_lookup_2 _ 4).
    vm_compute. reflexivity.
Defined.

(** ** The continuation loop has no bound (lines 145-147) *)

Lemma chunks_endless (e : env) (source destination : string) :
  (forall tok, exists t,
     rewrite_response_of e source destination tok = Rewritten (Some t)) ->
  forall n tok,
    exists cs,
      chunks n e source destination tok = (cs, OutOfFuel) /\ length cs = n.
Proof.
  intros Hmore n. induction n as [|n IH]; intros tok; [by exists [] |].
  destruct (Hmore tok) as [t Ht]. destruct (IH (Some t)) as (cs & Hcs & Hlen).
  cbn [chunks]. rewrite Ht, Hcs. eexists. split; [done |]. cbn. by rewrite Hlen.
Qed.

(** X11. The copy of an object has no bound of its own on the number of
    calls: against a collaborator that answers every call with another token,
    the loop is still calling after any number of calls, and the destination
    object is not created. *)
Theorem copy_loop_has_no_bound (fuel : nat) (e : env)
    (destination source : string) (o : blob) (w : world) :
  let r := rewrite_blob fuel e destination source w in
  bucket w !! source = Some o ->
  (forall tok, exists t,
     rewrite_response_of e source destination tok = Rewritten (Some t)) ->
  r.1 = OutOfFuel
  /\ length (calls_since w r.2) = S fuel
  /\ Forall (fun c => is_rewrite c = true) (calls_since w r.2)
  /\ bucket r.2 = bucket w.
Proof.
  intros r Hsrc Hmore. subst r.
  rewrite (rewrite_blob_run fuel e destination source w o Hsrc).
  pose proof (chunks_rewrites (S fuel) e source destination None) as Hkind.
  destruct (chunks_endless e source destination Hmore (S fuel) None)
    as (cs & Hcs & Hlen).
  rewrite Hcs in Hkind |- *. cbn [fst snd bucket advance] in *.
  erewrite calls_since_advance by reflexivity. done.
Qed.

Lemma copy_loop_has_no_bound_witness :
  (rewrite_blob 7 env_endless "user/u1/chats/backup/_chat.txt"
     "user/u1/extracted/backup/_chat.txt" world_published).1 = OutOfFuel.
Proof.
  refine (proj1 (copy_loop_has_no_bound 7 env_endless
                   "user/u1/chats/backup/_chat.txt"
                   "user/u1/extracted/backup/_chat.txt"
                   (Blob chat_txt "text/plain") world_published _ _)).
  - vm_compute. reflexivity.
  - intros tok. by exists "t"%string.
Defined.

(** ** What a failed copy leaves behind (lines 136-150) *)

Lemma chunks_Raise (n : nat) (e : env) (source destination : string)
    (tok : option token) (cs : list call) (ex : exn) :
  chunks n e source destination tok = (cs, Raise ex) ->
  exists pre tok',
    cs = pre ++ [CallRewrite source destination tok' RewriteError].
Proof.
  revert tok cs; induction n as [|n IH]; intros tok cs; [done |].
  cbn [chunks].
  destruct (rewrite_response_of e source destination tok) as [[t|]|] eqn:Hresp.
  - destruct (chunks n e source destination (Some t)) as [cs' o] eqn:Hrec.
    intros [= <- ->]. destruct (IH _ _ Hrec) as (pre & tok' & ->).
    by exists (CallRewrite source destination tok (Rewritten (Some t)) :: pre),
              tok'.
  - done.
  - intros [= <- _]. by exists [], tok.
Qed.

Lemma copy_plan_Raise (fuel : nat) (e : env)
    (source_prefix destination_prefix : string)
    (blobs : list (string * blob)) (copy_count : nat)
    (cs : list call) (ws : list (string * blob)) (ex : exn) :
  copy_plan fuel e source_prefix destination_prefix blobs copy_count
    = (cs, ws, Raise ex) ->
  exists done_ name o rest pre tok,
    blobs = done_ ++ (name, o) :: rest
    /\ ws = (mirror_write source_prefix destination_prefix <$> done_)
    /\ cs = pre ++ [CallRewrite name
                      (mirrored_blob_name source_prefix destination_prefix name)
                      tok RewriteError].
Proof.
  revert copy_count cs ws; induction blobs as [|[name o] rest IH];
    intros copy_count cs ws; [done |].
  cbn [copy_plan].
  destruct (chunks (S fuel) e name _ None) as [cs0 [[]| ex0 |]] eqn:Hch.
  - destruct (copy_plan fuel e source_prefix destination_prefix rest
                (S copy_count)) as [[cs' ws'] o'] eqn:Hrec.
    intros [= <- <- ->].
    destruct (IH _ _ _ Hrec) as (done_ & name' & o'' & rest' & pre & tok
                                 & -> & -> & ->).
    exists ((name, o) :: done_), name', o'', rest', (cs0 ++ pre), tok.
    by rewrite app_assoc.
  - intros [= <- <- _]. apply chunks_Raise in Hch as (pre & tok & ->).
    by exists [], name, o, rest, pre, tok.
  - done.
Qed.

(** The listing is in the order of the names. *)
Lemma string_leb_trans (s1 s2 s3 : string) :
  String.leb s1 s2 = true -> String.leb s2 s3 = true ->
  String.leb s1 s3 = true.
Proof.
  unfold String.leb.
  revert s2 s3; induction s1 as [|c1 s1 IH]; intros [|c2 s2] [|c3 s3];
    cbn [String.compare]; try done.
  specialize (IH s2 s3).
  change (Ascii.compare c1 c2)
    with (N.compare (N_of_ascii c1) (N_of_ascii c2)).
  change (Ascii.compare c2 c3)
    with (N.compare (N_of_ascii c2) (N_of_ascii c3)).
  change (Ascii.compare c1 c3)
    with (N.compare (N_of_ascii c1) (N_of_ascii c3)).
  destruct (N.compare_spec (N_of_ascii c1) (N_of_ascii c2))
    as [H12 | H12 | H12];
    destruct (N.compare_spec (N_of_ascii c2) (N_of_ascii c3))
      as [H23 | H23 | H23];
    try done;
    destruct (N.compare_spec (N_of_ascii c1) (N_of_ascii c3))
      as [H13 | H13 | H13];
    try done; try lia.
Qed.

Lemma string_leb_refl (s : string) : String.leb s s = true.
Proof. by destruct (String.leb_total s s). Qed.

Lemma blobs_under_sorted (prefix : string) (b : gmap string blob) :
  StronglySorted name_le (blobs_under prefix b).
Proof.
  apply StronglySorted_merge_sort.
  - intros x y z. apply string_leb_trans.
  - intros x y. apply String.leb_total.
Qed.

(** X12. A run that ends with a copy error, against a listing that agrees
    with the bucket, leaves a partial mirror and does not undo it: the
    listing, which is in the order of the names, splits at the object whose
    copy raised; every object listed before it has its identical copy under
    the chats prefix, the mirror names of that object and of those after it
    are as they were before the run, and the run's last call is the raising
    copy. *)
Theorem failed_copy_leaves_partial_mirror (fuel : nat) (e : env)
    (event : StorageObjectData) (w : world) :
  let r := extract_zip fuel e event w in
  let mirror :=
    mirrored_blob_name (run_source_prefix event)
      (run_destination_prefix event) in
  r.1 = Raise CopyFailed ->
  listing_agrees e (run_source_prefix event) ->
  exists b files done_ name o rest pre tok,
    extracted e event w b files
    /\ blobs_under (run_source_prefix event) (run_published e event w b files)
       = done_ ++ (name, o) :: rest
    /\ (forall n' o', (n', o') ∈ done_ ->
          String.leb n' name = true
          /\ bucket r.2 !! mirror n' = Some o')
    /\ (forall n' o', (n', o') ∈ (name, o) :: rest ->
          String.leb name n' = true
          /\ bucket r.2 !! mirror n' = bucket w !! mirror n')
    /\ calls_since w r.2
       = pre ++ [CallRewrite name (mirror name) tok RewriteError].
Proof.
  intros r mirror. subst r mirror.
  pose proof (extract_zip_shape fuel e event w) as Hs.
  destruct (extract_zip fuel e event w) as [out w']. cbn [fst snd] in *.
  intros -> Hag.
  shape_cases Hs. listing_agreed Hag.
  destruct (copy_plan_Raise _ _ _ _ _ _ _ _ _ Hplan)
    as (done_ & name & o & rest & pre & tok & Hsplit & -> & ->).
  pose proof (blobs_under_sorted (run_source_prefix event)
                (run_published e event w b0 files0)) as Hsorted.
  rewrite Hsplit in Hsorted.
  exists b0, files0, done_, name, o, rest,
    (CallDownload (run_key event) :: run_uploads e event b0 files0
       ++ CallExists (run_marker event) (Some true)
       :: CallListBlobs (run_source_prefix event)
            (Some (blobs_under (run_source_prefix event)
                     (run_published e event w b0 files0))) :: pre), tok.
  split; [done |]. split; [done |]. rewrite Hb.
  split; [| split].
  - intros n' o' Hin. split.
    + apply (StronglySorted_app_1_elem_of name_le done_ ((name, o) :: rest)
               (n', o') (name, o) Hsorted Hin). by left.
    + by apply (mirrored_bucket_copy _ _ _ done_ ((name, o) :: rest)).
  - intros n' o' Hin. split.
    + apply StronglySorted_app_1_r in Hsorted.
      apply elem_of_cons in Hin as [[= -> ->] | Hin];
        [apply string_leb_refl |].
      apply StronglySorted_inv in Hsorted as [_ Hall].
      rewrite List.Forall_forall in Hall.
      apply (Hall (n', o')). by apply list_elem_of_In.
    + pose proof (NoDup_blobs_under (run_source_prefix event)
                    (run_published e event w b0 files0)) as Hnd.
      apply (mirror_keys_NoDup (run_user_id event) (run_zip_name_base event))
        in Hnd.
      2: { intros n'' o'' Hin''.
           by apply elem_of_blobs_under in Hin'' as [_ ?]. }
      change (source_prefix_of (run_user_id event) (run_zip_name_base event))
        with (run_source_prefix event) in Hnd.
      change (destination_prefix_of (run_user_id event)
                (run_zip_name_base event))
        with (run_destination_prefix event) in Hnd.
      rewrite Hsplit, !fmap_app in Hnd.
      apply NoDup_app in Hnd as (_ & Hdisj & _).
      rewrite lookup_apply_writes_None.
      * apply published_bucket_other, mirrored_not_listed.
      * intros Hdone. apply (Hdisj _ Hdone).
        rewrite <- list_fmap_compose. apply list_elem_of_fmap.
        by exists (n', o').
  - rewrite Hc. unfold run_calls. cbn [app]. f_equal.
    by rewrite <- app_assoc.
Qed.

Lemma failed_copy_leaves_partial_mirror_witness :
  exists b files done_ name o rest pre tok,
    extracted env_one_copy_fails backup_event world0 b files
    /\ blobs_under (run_source_prefix backup_event)
         (run_published env_one_copy_fails backup_event world0 b files)
       = done_ ++ (name, o) :: rest
    /\ (forall n' o', (n', o') ∈ done_ ->
          String.leb n' name = true
          /\ bucket (extract_zip 0 env_one_copy_fails backup_event world0).2
               !! mirrored_blob_name (run_source_prefix backup_event)
                    (run_destination_prefix backup_event) n' = Some o')
    /\ (forall n' o', (n', o') ∈ (name, o) :: rest ->
          String.leb name n' = true
          /\ bucket (extract_zip 0 env_one_copy_fails backup_event world0).2
               !! mirrored_blob_name (run_source_prefix backup_event)
                    (run_destination_prefix backup_event) n'
             = bucket world0
               !! mirrored_blob_name (run_source_prefix backup_event)
                    (run_destination_prefix backup_event) n')
    /\ calls_since world0
         (extract_zip 0 env_one_copy_fails backup_event world0).2
       = pre ++ [CallRewrite name
                   (mirrored_blob_name (run_source_prefix backup_event)
                      (run_destination_prefix backup_event) name)
                   tok RewriteError].
Proof.
  apply (failed_copy_leaves_partial_mirror 0 env_one_copy_fails backup_event
           world0).
  - vm_compute. reflexivity.
  - intros blobs. reflexivity.
Defined.

(** ** From the archive to the chats prefix (lines 100-150) *)

(** X13. The two loops compose: when a run with a found marker returns,
    against a listing that agrees with the bucket, every file of the scratch
    directory that is not named like the archive and whose upload did not
    fail is an object under the chats prefix, at its path relative to the
    scratch directory, with the file's bytes and the content type the upload
    gave it. *)
Theorem archive_members_reach_chats (fuel : nat) (e : env)
    (event : StorageObjectData) (w : world) (b : blob)
    (files : list (string * bytes)) (relative_path : string) (data : bytes) :
  let r := extract_zip fuel e event w in
  extracted e event w b files ->
  listing_agrees e (run_source_prefix event) ->
  r.1 = Ret tt ->
  marker_found event w r.2 ->
  run_temp_dir event b files !! relative_path = Some data ->
  basename relative_path <> run_zip_filename event ->
  upload_fails e
    (extracted_blob_name (run_user_id event) (run_zip_name_base event)
       relative_path) = false ->
  bucket r.2 !! (run_destination_prefix event +:+ relative_path)%string
  = Some (Blob data (guess_content_type e relative_path)).
Proof.
  intros r Hext' Hag Hret Hmark Hfile Hbase Hup. subst r.
  pose proof (extract_zip_shape fuel e event w) as Hs.
  destruct (extract_zip fuel e event w) as [out w']. cbn [fst snd] in *.
  subst out. unfold marker_found in Hmark.
  assert (Hstored : (relative_path, data) ∈ run_stored e event b files).
  { unfold run_stored. apply list_elem_of_filter. split.
    - unfold accepted. cbn [fst]. by rewrite Hup.
    - by apply elem_of_run_candidates. }
  shape_cases Hs;
    try (destruct (extracted_inj _ _ _ _ _ _ _ Hext' Hext) as [-> ->]);
    rewrite Hc in Hmark.
  - by apply elem_of_nil in Hmark.
  - by apply list_elem_of_singleton in Hmark.
  - apply check_answer_unique in Hmark; [done | by constructor].
  - listing_agreed Hag.
  - listing_agreed Hag.
    apply copy_plan_Ret in Hplan as (_ & -> & _ & _).
    rewrite Hb. unfold run_destination_prefix, run_source_prefix.
    rewrite <- (mirrored_blob_name_append (run_user_id event)
                  (run_zip_name_base event) relative_path).
    apply (mirrored_bucket_copy _ _ _ _ []); [by rewrite app_nil_r |].
    apply elem_of_blobs_under. split; [| apply startswith_append].
    rewrite <- extracted_blob_name_prefix.
    by apply (published_bucket_stored e _ _ _ _ _ (relative_path, data)).
Qed.

Lemma archive_members_reach_chats_witness :
  bucket (extract_zip 0 (env_ok chat_files) backup_event world0).2
    !! (run_destination_prefix backup_event +:+ "sub/b.txt")%string
  = Some (Blob b_txt "text/plain").
Proof.
  apply (archive_members_reach_chats 0 (env_ok chat_files) backup_event world0
           (Blob zip_bytes "application/zip") chat_files "sub/b.txt" b_txt).
  - apply backup_extracted; reflexivity.
  - apply env_ok_agrees.
  - vm_compute. reflexivity.
  - unfold marker_found. apply (list_elem_of_lookup_2 _ 4).
    vm_compute. reflexivity.
  - vm_compute. reflexivity.
  - vm_compute. discriminate.
  - reflexivity.
Defined.

(** ** Archives that share their prefixes (lines 44-57) *)

Lemma split_dir_file (dir filename : string) :
  rfind "/"%char filename = None ->
  split "/"%char (dir +:+ String "/"%char filename)
  = (split "/"%char dir ++ [filename])%list.
Proof.
  intros Hf. induction dir as [|c dir IH].
  - rewrite append_nil_l. cbn [split]. rewrite Ascii.eqb_refl.
    by rewrite split_no_sep.
  - rewrite append_cons. cbn [split]. rewrite IH.
    pose proof (split_not_nil "/"%char dir) as Hnil.
    destruct (Ascii.eqb c "/"%char); [done |].
    by destruct (split "/"%char dir).
Qed.

Lemma split_upload_key (user_id dir filename : string) :
  rfind "/"%char user_id = None ->
  rfind "/"%char filename = None ->
  split "/"%char
    ("user/" +:+ user_id +:+ "/uploads/" +:+ dir +:+ "/" +:+ filename)
  = (["user"; user_id; "uploads"]%string ++ split "/"%char dir
       ++ [filename])%list.
Proof.
  intros Hu Hf.
  change ("user/" +:+ user_id +:+ "/uploads/" +:+ dir +:+ "/" +:+ filename)%string
    with ("user/" +:+ user_id
            +:+ String "/"%char
                  ("uploads" +:+ String "/"%char
                                   (dir +:+ String "/"%char filename)))%string.
  rewrite split_user. rewrite split_append_sep by done.
  rewrite split_append_sep by reflexivity.
  by rewrite split_dir_file.
Qed.

(** X14. The folder below [uploads/] plays no part in the names a run
    writes: the archive of an eligible key, uploaded under the same file name
    into any folder of the same user's [uploads/], however many levels deep,
    is eligible too and has the same user id, file name and base name, hence
    the same extracted prefix, chats prefix and cache record. *)
Theorem upload_folder_is_ignored (key dir : string) :
  let key' :=
    ("user/" +:+ user_id_of key +:+ "/uploads/" +:+ dir +:+ "/"
       +:+ zip_filename_of key)%string in
  eligible_key key ->
  eligible_key key'
  /\ user_id_of key' = user_id_of key
  /\ zip_filename_of key' = zip_filename_of key
  /\ zip_name_base_of key' = zip_name_base_of key
  /\ source_prefix_of (user_id_of key') (zip_name_base_of key')
     = source_prefix_of (user_id_of key) (zip_name_base_of key)
  /\ destination_prefix_of (user_id_of key') (zip_name_base_of key')
     = destination_prefix_of (user_id_of key) (zip_name_base_of key).
Proof.
  intros key' Hel.
  pose proof (eligible_user_id_no_slash key Hel) as Hu.
  pose proof (last_item_no_sep "/"%char key) as Hf.
  fold (zip_filename_of key) in Hf.
  assert (Hsplit : split "/"%char key'
                   = (["user"; user_id_of key; "uploads"]%string
                        ++ split "/"%char dir
                        ++ [zip_filename_of key])%list)
    by by apply split_upload_key.
  assert (Huser : user_id_of key' = user_id_of key)
    by (unfold user_id_of at 1; by rewrite Hsplit).
  assert (Hname : zip_filename_of key' = zip_filename_of key).
  { unfold zip_filename_of at 1, last_item. rewrite Hsplit.
    by rewrite !app_assoc, List.last_last. }
  assert (Hbase : zip_name_base_of key' = zip_name_base_of key)
    by (unfold zip_name_base_of; by rewrite Hname).
  split; [| by rewrite Huser, Hbase].
  unfold eligible_key. rewrite Hsplit. split; [reflexivity |].
  split; [rewrite !length_app; cbn; lia |]. split; [reflexivity |].
  destruct (zip_filename_decomposition key Hel) as (stem & ext & Hdec & Hext & _).
  apply endswith_spec. subst key'. rewrite Hdec.
  exists (lower ("user/" +:+ user_id_of key +:+ "/uploads/" +:+ dir +:+ "/"
                   +:+ stem)).
  rewrite <- Hext, <- lower_append. f_equal.
  by rewrite !append_assoc.
Qed.

Lemma upload_folder_is_ignored_witness :
  eligible_key "user/u1/uploads/2024/may/backup.zip"
  /\ source_prefix_of (user_id_of "user/u1/uploads/2024/may/backup.zip")
       (zip_name_base_of "user/u1/uploads/2024/may/backup.zip")
     = source_prefix_of (user_id_of backup_key) (zip_name_base_of backup_key).
Proof.
  destruct (upload_folder_is_ignored backup_key "2024/may")
    as (Hel & _ & _ & _ & Hsrc & _).
  - exact backup_key_eligible.
  - exact (conj Hel Hsrc).
Defined.

(** ** What the upload loop publishes (lines 97-119) *)

(** X15. When the extraction into the scratch directory completes, the
    handler uploads every file of the scratch directory whose file name
    differs from the archive's, with the file's content, to
    [user/<UserId>/extracted/<ArchiveBaseName>/<relativePath>], where UserId
    is segment 1 of the key and ArchiveBaseName is the last segment without
    its extension; the object is stored there unless that upload raises; and
    nothing else is uploaded, so a file named like the archive is left
    out. *)
Theorem extracted_files_are_published (fuel : nat) (e : env)
    (event : StorageObjectData) (w : world) (b : blob)
    (files : list (string * bytes)) :
  let key := data_name event in
  let user_id := item (split "/"%char key) 1 in
  let zip_filename := last_item (split "/"%char key) in
  let zip_name_base := (splitext zip_filename).1 in
  let destination relative_path :=
    ("user/" +:+ user_id +:+ "/extracted/" +:+ zip_name_base +:+ "/"
       +:+ relative_path)%string in
  let r := extract_zip fuel e event w in
  extracted e event w b files ->
  (forall relative_path data,
     run_temp_dir event b files !! relative_path = Some data ->
     basename relative_path <> zip_filename ->
     CallUpload (destination relative_path) data
       (negb (upload_fails e (destination relative_path)))
       ∈ calls_since w r.2
     /\ (upload_fails e (destination relative_path) = false ->
         exists o, bucket r.2 !! destination relative_path = Some o
                   /\ blob_data o = data))
  /\ (forall name data stored,
        CallUpload name data stored ∈ calls_since w r.2 ->
        exists relative_path,
          run_temp_dir event b files !! relative_path = Some data
          /\ basename relative_path <> zip_filename
          /\ name = destination relative_path).
Proof.
  intros key user_id zip_filename zip_name_base destination r Hext.
  pose proof (extract_zip_shape fuel e event w) as Hs. fold r in Hs.
  destruct (run_shape_published fuel e event w r.1 r.2 b files Hs Hext)
    as (found & post & ws & tail & Hcalls & Hpost & _).
  split.
  - intros relative_path data Hfile Hname.
    assert (Hcand : (relative_path, data) ∈ run_candidates event b files)
      by (by apply elem_of_run_candidates).
    split.
    + rewrite Hcalls. unfold run_calls, run_uploads. right.
      apply elem_of_app. left.
      apply list_elem_of_fmap. by exists (relative_path, data).
    + intros Hok. exists (Blob data (guess_content_type e relative_path)).
      split; [| done].
      apply (run_shape_stored fuel e event w r.1 r.2 b files
               (relative_path, data) Hs Hext).
      apply list_elem_of_filter. split; [| done].
      unfold accepted. cbn [fst].
      change (extracted_blob_name (run_user_id event)
                (run_zip_name_base event) relative_path)
        with (destination relative_path).
      by rewrite Hok.
  - intros name data stored Hin. rewrite Hcalls in Hin.
    apply elem_of_run_calls in Hin as [Hin | [(f & Hcand & Hin) | Hin]];
      [done | |].
    + destruct f as [rel data']. injection Hin as -> -> ->.
      apply elem_of_run_candidates in Hcand as [Hname Hfile].
      by exists rel.
    + apply elem_of_cons in Hin as [Hin | Hin]; [done |].
      rewrite Forall_forall in Hpost. by apply Hpost in Hin.
Qed.

Lemma extracted_files_are_published_witness :
  let r := extract_zip 0 (env_ok plain_files) backup_event world0 in
  CallUpload "user/u1/extracted/backup/sub/b.txt" b_txt true
    ∈ calls_since world0 r.2.
Proof.
  refine (proj1 (proj1 (extracted_files_are_published 0 (env_ok plain_files)
                          backup_event world0
                          (Blob zip_bytes "application/zip") plain_files _)
                   "sub/b.txt"%string b_txt _ _)).
  - apply backup_extracted; reflexivity.
  - vm_compute. reflexivity.
  - vm_compute. discriminate.
Defined.
